(** * mtproto_parser.c: the extraction, deduplication and checkpoint core

    A shallow embedding of [src/mtproto_parser.c] and the properties its
    specification states about it.

    Conventions of the embedding.
    - A C string (a NUL-terminated [char] array) is the list of its bytes
      before the terminator: [cstring].  A loop [for (p = s; *p; p++)] is a
      recursion on that list.  Raw buffers that may hold a NUL byte (the
      downloaded content) are lists too; [strncpy] cuts at the first NUL.
    - Unsigned 64-bit arithmetic is arithmetic on [Z] reduced modulo 2^64,
      [size_t] likewise, [atomic_uint] modulo 2^32.
    - Whether plain [char] is signed is implementation-defined; it is a
      field of the [Target] class.  [long] is 64 bits wide (LP64).
    - The collaborators the program links against (PCRE2, the clock,
      [strftime]) are the fields of the [Collaborators] class; whether an
      allocation, an [fopen] or a [pthread_create] succeeds is an argument
      of the function that attempts it, and for the scheduler a field of
      the [Threads] and [Files] classes.
    - [log_message] and the counters that are only logged are left out. *)

From Stdlib Require Import ZArith List Bool Ascii String Lia.
Import ListNotations.

Local Open Scope Z_scope.

(** ** Bytes and C strings *)

Definition cstring := list ascii.

Definition bytes (s : string) : cstring := list_ascii_of_string s.

(** The value of a byte as an [unsigned char]. *)
Definition code (c : ascii) : Z := Z.of_N (N_of_ascii c).

Definition strlen (s : cstring) : Z := Z.of_nat (List.length s).

Definition is_nul (c : ascii) : bool := code c =? 0.

(** The C string held by a buffer: its bytes before the first NUL. *)
Fixpoint until_nul (buf : list ascii) : cstring :=
  match buf with
  | [] => []
  | c :: rest => if is_nul c then [] else c :: until_nul rest
  end.

Definition u64 (z : Z) : Z := z mod 2 ^ 64.
Definition u32 (z : Z) : Z := z mod 2 ^ 32.

(** ** Implementation-defined behaviour of the C target *)

Class Target := { plain_char_signed : bool }.

(** gcc on x86-64 Linux: plain [char] is signed. *)
Definition x86_64_linux : Target := {| plain_char_signed := true |}.
(** gcc on AArch64 Linux: plain [char] is unsigned. *)
Definition aarch64_linux : Target := {| plain_char_signed := false |}.

(** ** The constants of the program *)

Definition PROXY_CAPACITY : Z := 1000000.
Definition BUFFER_CAPACITY : Z := 100 * 1024 * 1024.
Definition MAX_THREAD_COUNT : Z := 50.
Definition CONCURRENT_DOWNLOADS : Z := 20.
Definition PROXY_BATCH_SIZE : Z := 5000.

(** ** compute_hash *)

Section Hash.
Context {T : Target}.

(** The conversion [(uint64_t)(c)] of a plain [char]: a negative [char]
    is sign-extended. *)
Definition char_to_u64 (c : ascii) : Z :=
  if plain_char_signed && (128 <=? code c)
  then u64 (code c - 256)
  else code c.

Definition FNV_OFFSET : Z := 14695981039346656037.
Definition FNV_PRIME : Z := 1099511628211.

(** [hash = (hash ^ (uint64_t) p[0]) * 1099511628211ULL] *)
Definition hash_char (hash : Z) (c : ascii) : Z :=
  u64 (Z.lxor hash (char_to_u64 c) * FNV_PRIME).

(** [for (const char* p = s; *p; p++) hash = ...] *)
Fixpoint hash_string (hash : Z) (s : cstring) : Z :=
  match s with
  | [] => hash
  | c :: rest => hash_string (hash_char hash c) rest
  end.

(** [for (int i = 0; i < 64 && secret[i]; i++) hash = ...] *)
Fixpoint hash_secret (i : Z) (hash : Z) (secret : cstring) : Z :=
  if i <? 64 then
    match secret with
    | [] => hash
    | c :: rest => hash_secret (i + 1) (hash_char hash c) rest
    end
  else hash.

Definition compute_hash (server port secret : cstring) : Z :=
  let hash := FNV_OFFSET in
  let hash := hash_string hash server in
  let hash := u64 (Z.lxor hash (code ":"%char) * FNV_PRIME) in
  let hash := hash_string hash port in
  let hash := u64 (Z.lxor hash (code ":"%char) * FNV_PRIME) in
  hash_secret 0 hash secret.
End Hash.

(** The digest the specification describes: FNV-1a over a sequence of
    bytes (each a number below 256). *)
Definition fnv1a_step (acc : Z) (byte : Z) : Z :=
  u64 (Z.lxor acc byte * 1099511628211).

Definition fnv1a (data : list Z) : Z :=
  fold_left fnv1a_step data 14695981039346656037.

Definition hashed_bytes (server port secret : cstring) : list Z :=
  map code server ++ [code ":"%char] ++ map code port ++ [code ":"%char]
    ++ map code (firstn 64 secret).

(** A byte of the 7-bit ASCII range. *)
Definition ascii7 (c : ascii) : Prop := code c < 128.

(** ** validate_proxy *)

Definition isspace (c : ascii) : bool :=
  (code c =? 32) || ((9 <=? code c) && (code c <=? 13)).

Definition isdigit (c : ascii) : bool := (48 <=? code c) && (code c <=? 57).

Definition LONG_MAX : Z := 2 ^ 63 - 1.
Definition LONG_MIN : Z := - 2 ^ 63.

Fixpoint skip_spaces (s : cstring) : cstring :=
  match s with
  | c :: rest => if isspace c then skip_spaces rest else s
  | [] => []
  end.

Fixpoint strtol_digits (acc : Z) (s : cstring) : Z * cstring :=
  match s with
  | c :: rest =>
      if isdigit c then strtol_digits (acc * 10 + (code c - 48)) rest
      else (acc, s)
  | [] => (acc, [])
  end.

Definition strtol_clamp (v : Z) : Z :=
  if v >? LONG_MAX then LONG_MAX else if v <? LONG_MIN then LONG_MIN else v.

(** [strtol(nptr, &endptr, 10)]: the value, and the offset of [endptr]
    from [nptr] (0 when no conversion was performed). *)
Definition strtol (nptr : cstring) : Z * Z :=
  let s1 := skip_spaces nptr in
  let '(negative, s2) :=
    match s1 with
    | c :: rest =>
        if code c =? 45 then (true, rest)
        else if code c =? 43 then (false, rest)
        else (false, s1)
    | [] => (false, s1)
    end in
  match s2 with
  | c :: _ =>
      if isdigit c then
        let '(v, rest) := strtol_digits 0 s2 in
        (strtol_clamp (if negative then - v else v), strlen nptr - strlen rest)
      else (0, 0)
  | [] => (0, 0)
  end.

Definition is_hex (c : ascii) : bool :=
  ((48 <=? code c) && (code c <=? 57))
  || ((97 <=? code c) && (code c <=? 102))
  || ((65 <=? code c) && (code c <=? 70)).

Definition is_pad (c : ascii) : bool := code c =? 61.

(** The four characters the secret scan lets pass without counting. *)
Definition is_blank (c : ascii) : bool :=
  (code c =? 32) || (code c =? 9) || (code c =? 10) || (code c =? 13).

(** [for (size_t i = 0; i < secret_len && i < 128; i++) ...]; [None] is the
    [return 0] inside the loop, otherwise the two counters. *)
Fixpoint scan_secret (i : Z) (s : cstring) (valid_chars hex_chars : Z)
  : option (Z * Z) :=
  match s with
  | [] => Some (valid_chars, hex_chars)
  | c :: rest =>
      if i <? 128 then
        if is_hex c then scan_secret (i + 1) rest (valid_chars + 1) (hex_chars + 1)
        else if is_pad c then scan_secret (i + 1) rest (valid_chars + 1) hex_chars
        else if negb (is_blank c) then None
        else scan_secret (i + 1) rest valid_chars hex_chars
      else Some (valid_chars, hex_chars)
  end.

(** A [const char*] argument is [None] for the null pointer. *)
Definition validate_proxy (server port secret : option cstring) : bool :=
  match server, port, secret with
  | Some server, Some port, Some secret =>
      let server_len := strlen server in
      let port_len := strlen port in
      let secret_len := strlen secret in
      if (server_len <? 4) || (server_len >? 253) then false
      else if (port_len <? 1) || (port_len >? 15) then false
      else if (secret_len <? 16) || (secret_len >? 511) then false
      else
        let '(port_value, endptr) := strtol port in
        if (endptr =? 0) || negb (endptr =? port_len)
           || (port_value <? 1) || (port_value >? 65535)
        then false
        else
          match scan_secret 0 secret 0 0 with
          | None => false
          | Some (valid_chars, hex_chars) =>
              (valid_chars >=? 16) && (hex_chars >=? 8)
          end
  | _, _, _ => false
  end.

(** ** sanitize_string *)

Definition is_printable (c : ascii) : bool := (32 <=? code c) && (code c <? 127).

(** The four characters the scan compares a printable byte against. *)
Definition is_space_char (c : ascii) : bool := is_blank c.

(** The [while ( *read_ptr)] loop.  [written] is the text between [str] and
    [write_ptr]; the write pointer never passes the read pointer, so the
    bytes still to be read are the ones the caller passed. *)
Fixpoint sanitize_scan (to_read : cstring) (written : cstring) (space_flag : bool)
  : cstring :=
  match to_read with
  | [] => written
  | c :: rest =>
      if is_printable c then
        if is_space_char c then
          if negb space_flag && (0 <? strlen written)
          then sanitize_scan rest (written ++ [" "%char]) true
          else sanitize_scan rest written space_flag
        else sanitize_scan rest (written ++ [c]) false
      else sanitize_scan rest written space_flag
  end.

(** The trailing loop, on the reversed text: it removes a final space or tab
    while one is left. *)
Fixpoint trim_trailing_rev (rev_written : cstring) : cstring :=
  match rev_written with
  | c :: rest =>
      if (code c =? 32) || (code c =? 9) then trim_trailing_rev rest
      else rev_written
  | [] => []
  end.

Definition trim_trailing (written : cstring) : cstring :=
  rev (trim_trailing_rev (rev written)).

(** [sanitize_string] rewrites its buffer in place; the embedding returns
    the new contents.  The null pointer is left alone. *)
Definition sanitize_string (str : option cstring) : option cstring :=
  match str with
  | None => None
  | Some s => Some (trim_trailing (sanitize_scan s [] false))
  end.

(** The field of a record after [sanitize_string(field)]. *)
Definition sanitized (s : cstring) : cstring :=
  trim_trailing (sanitize_scan s [] false).

(** *** sanitize_string on the buffer itself

    The function works in place, with a read and a write pointer into the
    same array.  [sanitize_buffer] follows it on the array: [peek] reads a
    cell, [poke] assigns one, and the pointers are offsets from [str]. *)

Definition peek (buf : list ascii) (i : nat) : ascii := nth i buf zero.

Definition poke (buf : list ascii) (i : nat) (c : ascii) : list ascii :=
  firstn i buf ++ c :: skipn (S i) buf.

(** The [while ( *read_ptr)] loop; [fuel] bounds the cells it may visit. *)
Fixpoint scan_buffer (fuel : nat) (buf : list ascii) (read_ptr write_ptr : nat)
    (space_flag : bool) : list ascii * nat :=
  match fuel with
  | O => (buf, write_ptr)
  | S fuel' =>
      let c := peek buf read_ptr in
      if is_nul c then (buf, write_ptr)
      else if is_printable c then
        if is_space_char c then
          if negb space_flag && (0 <? write_ptr)%nat
          then scan_buffer fuel' (poke buf write_ptr " "%char)
                 (S read_ptr) (S write_ptr) true
          else scan_buffer fuel' buf (S read_ptr) write_ptr space_flag
        else scan_buffer fuel' (poke buf write_ptr c)
               (S read_ptr) (S write_ptr) false
      else scan_buffer fuel' buf (S read_ptr) write_ptr space_flag
  end.

(** [while (write_ptr > str && (write_ptr[-1] == ' ' || write_ptr[-1] == '\t'))
       *(--write_ptr) = 0;] *)
Fixpoint trim_buffer (fuel : nat) (buf : list ascii) (write_ptr : nat)
  : list ascii :=
  match fuel, write_ptr with
  | S fuel', S before =>
      let c := peek buf before in
      if (code c =? 32) || (code c =? 9)
      then trim_buffer fuel' (poke buf before zero) before
      else buf
  | _, _ => buf
  end.

Definition sanitize_buffer (buf : list ascii) : list ascii :=
  let '(buf, write_ptr) := scan_buffer (List.length buf) buf 0 0 false in
  let buf := poke buf write_ptr zero in
  trim_buffer (List.length buf) buf write_ptr.

(** ** Records, the store and the statistics *)

Record ProxyRecord := {
  server : cstring;
  port : cstring;
  secret : cstring;
  connection_url : cstring;
  source : cstring;
  country : cstring;
  type : cstring;
  hash_value : Z;
  discovery_time : Z;
  last_verified : Z;
  active : Z;
  verified : Z;
  speed_score : Z
}.

(** [ProxyRecord new_proxy = {0};] and every cell of the [calloc]ed store. *)
Definition zero_record : ProxyRecord :=
  {| server := []; port := []; secret := []; connection_url := [];
     source := []; country := []; type := []; hash_value := 0;
     discovery_time := 0; last_verified := 0; active := 0; verified := 0;
     speed_score := 0 |}.

Record SystemStatistics := {
  processed_urls : Z;
  completed_cycles : Z;
  network_errors : Z;
  parse_errors : Z;
  unique_proxies : Z;
  active_workers : Z;
  total_requests : Z;
  successful_proxies : Z;
  total_bytes : Z;
  last_cycle_proxies : Z
}.

Definition zero_stats : SystemStatistics :=
  {| processed_urls := 0; completed_cycles := 0; network_errors := 0;
     parse_errors := 0; unique_proxies := 0; active_workers := 0;
     total_requests := 0; successful_proxies := 0; total_bytes := 0;
     last_cycle_proxies := 0 |}.

(** The shared state the merge and the checkpoint work on.  [proxy_storage]
    lists the cells [0 .. stats.total_proxies - 1] of the array in index
    order; [stats.total_proxies] is its length ([total_proxies]), and the
    assignment [proxy_storage[current_total++] = r] appends [r]. *)
Record World := {
  proxy_storage : list ProxyRecord;
  stats : SystemStatistics
}.

Definition total_proxies (w : World) : Z := Z.of_nat (List.length (proxy_storage w)).

(** The state [main] hands to [autonomous_operation]. *)
Definition initial_world : World :=
  {| proxy_storage := []; stats := zero_stats |}.

(** What a thread observes of its environment.  [active_loads] stands for the
    termination request, which arrives at a moment the program does not
    choose: [None] when none arrives, [Some n] when the next [n] loads of
    [program_active] still return 1 and every later one returns 0.
    [time_calls] counts the calls of [time(NULL)] made so far. *)
Record Env := {
  active_loads : option nat;
  time_calls : nat
}.

(** [atomic_load(&program_active)] *)
Definition load_program_active (e : Env) : bool * Env :=
  match active_loads e with
  | None => (true, e)
  | Some O => (false, e)
  | Some (S n) => (true, {| active_loads := Some n; time_calls := time_calls e |})
  end.

(** The flag as the next load would see it. *)
Definition program_active (e : Env) : bool :=
  match active_loads e with
  | Some O => false
  | _ => true
  end.

(** ** The collaborators *)

Definition PCRE2_UNSET : Z := 2 ^ 64 - 1.

Class Collaborators := {
  (** The entries of [PARSE_PATTERNS] before the [NULL] sentinel. *)
  PARSE_PATTERNS : list cstring;
  pcre2_code : Type;
  (** The call [pcre2_compile(pattern, PCRE2_ZERO_TERMINATED,
      MULTILINE | DOTALL | CASELESS, NULL, NULL, NULL)] of the pattern
      loop; [None] is the null pointer. *)
  pcre2_compile : cstring -> option pcre2_code;
  (** Whether [pcre2_match_data_create_from_pattern] returns a block. *)
  pcre2_match_data_create_from_pattern : pcre2_code -> bool;
  (** [pcre2_match(code, subject, length, start_offset, 0, match_data, NULL)]:
      the return code and the output vector it leaves in [match_data]. *)
  pcre2_match : pcre2_code -> list ascii -> Z -> Z -> Z * (nat -> Z);
  (** The value of the [n]-th call of [time(NULL)] whose result the program
      keeps (the calls inside [log_message] are not counted). *)
  time_ : nat -> Z;
  (** [strftime(buf, 64, "%Y-%m-%d %H:%M:%S", localtime(&t))] *)
  strftime_local : Z -> cstring
}.

(** What the PCRE2 documentation promises of a successful match started at
    [start_offset]: the match ends (ovector[1]) at or after the start offset
    and inside the subject. *)
Definition matcher_contract `{Collaborators} : Prop :=
  forall code subject length start_offset rc ovector,
    0 <= start_offset < length -> length < 2 ^ 64 - 1 ->
    pcre2_match code subject length start_offset = (rc, ovector) ->
    4 <= rc ->
    start_offset <= ovector 1%nat <= length.


(** ** The extraction engine *)

Definition tolower (c : ascii) : Z :=
  if (65 <=? code c) && (code c <=? 90) then code c + 32 else code c.

(** [strncasecmp(s1, s2, n) == 0] *)
Fixpoint strncasecmp_eq (s1 s2 : cstring) (n : nat) : bool :=
  match n with
  | O => true
  | S n' =>
      match s1, s2 with
      | [], [] => true
      | c1 :: r1, c2 :: r2 => (tolower c1 =? tolower c2) && strncasecmp_eq r1 r2 n'
      | _, _ => false
      end
  end.

(** One round of a prefix loop: when the field starts with the label, the
    [memmove] drops it and the field is sanitized again. *)
Definition strip_prefix (field prefix : cstring) : cstring :=
  if strncasecmp_eq field prefix (List.length prefix)
  then sanitized (skipn (List.length prefix) field)
  else field.

Definition strip_prefixes (prefixes : list cstring) (field : cstring) : cstring :=
  fold_left strip_prefix prefixes field.

Definition field_prefixes : list cstring :=
  map bytes ["Server:"; "server:"; "SERVER:"; "Host:"; "host:"; "HOST:"]%string.
Definition port_prefixes : list cstring :=
  map bytes ["Port:"; "port:"; "PORT:"]%string.
Definition secret_prefixes : list cstring :=
  map bytes ["Secret:"; "secret:"; "SECRET:"; "Key:"; "key:"; "KEY:"]%string.

(** [strncpy(dst, content + start, n); dst[n] = 0] *)
Definition strncpy_from (content : list ascii) (start n : Z) : cstring :=
  until_nul (firstn (Z.to_nat n) (skipn (Z.to_nat start) content)).

(** The loop that classifies the server. *)
Fixpoint is_ip (s : cstring) : bool :=
  match s with
  | [] => true
  | c :: rest =>
      if ((code c <? 48) || (code c >? 57)) && negb (code c =? 46) then false
      else is_ip rest
  end.

(** [snprintf(url, 512, "tg://proxy?server=%s&port=%s&secret=%s", ...)]: the
    formatted text, cut after 511 bytes. *)
Definition proxy_url (server port secret : cstring) : cstring :=
  bytes "tg://proxy?server=" ++ server ++ bytes "&port=" ++ port
    ++ bytes "&secret=" ++ secret.

Definition snprintf_url (server port secret : cstring) : cstring :=
  firstn 511 (proxy_url server port secret).

(** The scan of the batch (or of the store) for a record with this hash. *)
Fixpoint duplicate_found (records : list ProxyRecord) (h : Z) : bool :=
  match records with
  | [] => false
  | r :: rest => if hash_value r =? h then true else duplicate_found rest h
  end.

Definition size_t_sub (a b : Z) : Z := (a - b) mod 2 ^ 64.

Section Engine.
Context {T : Target} {C : Collaborators}.

(** [time(NULL)] *)
Definition time_now (e : Env) : Z * Env :=
  (time_ (time_calls e),
   {| active_loads := active_loads e; time_calls := S (time_calls e) |}).

(** The first half of the body of the match loop, from
    [pcre2_get_ovector_pointer] to the last prefix loop: the three
    captured fields, copied, sanitized and freed of their labels.
    [None] when a capture is unset or a length is out of bounds. *)
Definition captured_fields (content : list ascii) (match_vector : nat -> Z)
  : option (cstring * cstring * cstring) :=
  let unset i := match_vector i =? PCRE2_UNSET in
  let valid_match :=
    negb (unset 2%nat || unset 3%nat || unset 4%nat
          || unset 5%nat || unset 6%nat || unset 7%nat) in
  if negb valid_match then None else
  let server_length := size_t_sub (match_vector 3%nat) (match_vector 2%nat) in
  let port_length := size_t_sub (match_vector 5%nat) (match_vector 4%nat) in
  let secret_length := size_t_sub (match_vector 7%nat) (match_vector 6%nat) in
  if negb ((0 <? server_length) && (server_length <? 256)
           && (0 <? port_length) && (port_length <? 16)
           && (secret_length >=? 16) && (secret_length <? 512))
  then None else
  let server := strncpy_from content (match_vector 2%nat) server_length in
  let port := strncpy_from content (match_vector 4%nat) port_length in
  let secret := strncpy_from content (match_vector 6%nat) secret_length in
  let server := sanitized server in
  let port := sanitized port in
  let secret := sanitized secret in
  let server := strip_prefixes field_prefixes server in
  let port := strip_prefixes port_prefixes port in
  let secret := strip_prefixes secret_prefixes secret in
  Some (server, port, secret).

(** The record the second half builds from fields that passed
    [validate_proxy]. *)
Definition new_record (server port secret src : cstring) (t1 t2 : Z)
  : ProxyRecord :=
  {| server := server; port := port; secret := secret;
     connection_url := snprintf_url server port secret;
     source := firstn 255 src;
     country := bytes "UN";
     type := if is_ip server then bytes "IPv4" else bytes "Domain";
     hash_value := compute_hash server port secret;
     discovery_time := t1; last_verified := t2;
     active := 1; verified := 0; speed_score := 50 |}.

(** The body of the match loop up to the update of [current_offset]: what
    one match does to the batch. *)
Definition process_match (content : list ascii) (src : cstring)
    (match_vector : nat -> Z) (discovered : list ProxyRecord) (e : Env)
  : list ProxyRecord * Env :=
  match captured_fields content match_vector with
  | None => (discovered, e)
  | Some (server, port, secret) =>
      if negb (validate_proxy (Some server) (Some port) (Some secret))
      then (discovered, e)
      else
        let '(t1, e) := time_now e in
        let '(t2, e) := time_now e in
        let new_proxy := new_record server port secret src t1 t2 in
        if duplicate_found discovered (hash_value new_proxy) then (discovered, e)
        else if Z.of_nat (List.length discovered) <? PROXY_BATCH_SIZE
        then (discovered ++ [new_proxy], e)
        else (discovered, e)
  end.

(** The [while] loop over the matches of one compiled pattern.  The loop
    has no bound of its own: [fuel] counts the iterations the embedding
    is willing to follow, and [None] says it ran out. *)
Fixpoint match_loop (fuel : nat) (compiled_pattern : pcre2_code)
    (content : list ascii) (content_length : Z) (src : cstring)
    (current_offset : Z) (discovered : list ProxyRecord) (e : Env)
  : option (list ProxyRecord * Env) :=
  match fuel with
  | O => None
  | S fuel' =>
      if negb (current_offset <? content_length) then Some (discovered, e)
      else if negb (Z.of_nat (List.length discovered) <? PROXY_BATCH_SIZE)
      then Some (discovered, e)
      else
        let '(running, e) := load_program_active e in
        if negb running then Some (discovered, e)
        else
          let '(match_result, match_vector) :=
            pcre2_match compiled_pattern content content_length current_offset in
          if match_result <? 4 then Some (discovered, e)
          else
            let '(discovered, e) :=
              process_match content src match_vector discovered e in
            let current_offset := u64 (match_vector 1%nat + 1) in
            if current_offset >=? content_length then Some (discovered, e)
            else match_loop fuel' compiled_pattern content content_length src
                   current_offset discovered e
  end.

(** The [for] loop over [PARSE_PATTERNS]. *)
Fixpoint pattern_loop (fuel : nat) (patterns : list cstring)
    (content : list ascii) (content_length : Z) (src : cstring)
    (discovered : list ProxyRecord) (e : Env)
  : option (list ProxyRecord * Env) :=
  match patterns with
  | [] => Some (discovered, e)
  | pattern :: patterns' =>
      let '(running, e) := load_program_active e in
      if negb running then Some (discovered, e)
      else
        match pcre2_compile pattern with
        | None => pattern_loop fuel patterns' content content_length src discovered e
        | Some compiled_pattern =>
            if negb (pcre2_match_data_create_from_pattern compiled_pattern)
            then pattern_loop fuel patterns' content content_length src discovered e
            else
              match match_loop fuel compiled_pattern content content_length src
                      0 discovered e with
              | None => None
              | Some (discovered, e) =>
                  pattern_loop fuel patterns' content content_length src discovered e
              end
        end
  end.

(** [atomic_fetch_add] on an [atomic_uint] counter. *)
Definition fetch_add (counter n : Z) : Z := u32 (counter + n).

Definition count_added (s : SystemStatistics) : SystemStatistics :=
  {| processed_urls := processed_urls s;
     completed_cycles := completed_cycles s;
     network_errors := network_errors s;
     parse_errors := parse_errors s;
     unique_proxies := fetch_add (unique_proxies s) 1;
     active_workers := active_workers s;
     total_requests := total_requests s;
     successful_proxies := fetch_add (successful_proxies s) 1;
     total_bytes := total_bytes s;
     last_cycle_proxies := last_cycle_proxies s |}.

Definition add_last_cycle (s : SystemStatistics) (added_count : Z)
  : SystemStatistics :=
  {| processed_urls := processed_urls s;
     completed_cycles := completed_cycles s;
     network_errors := network_errors s;
     parse_errors := parse_errors s;
     unique_proxies := unique_proxies s;
     active_workers := active_workers s;
     total_requests := total_requests s;
     successful_proxies := successful_proxies s;
     total_bytes := total_bytes s;
     last_cycle_proxies := fetch_add (last_cycle_proxies s) added_count |}.

(** The [for] loop of the merge, run under [storage_mutex]:
    [for (i = 0; i < discovery_count && current_total < PROXY_CAPACITY; i++)]. *)
Fixpoint merge_loop (discovered : list ProxyRecord)
    (storage : list ProxyRecord) (added_count : Z) (s : SystemStatistics)
  : list ProxyRecord * Z * SystemStatistics :=
  match discovered with
  | [] => (storage, added_count, s)
  | d :: rest =>
      if negb (Z.of_nat (List.length storage) <? PROXY_CAPACITY)
      then (storage, added_count, s)
      else if duplicate_found storage (hash_value d)
      then merge_loop rest storage added_count s
      else merge_loop rest (storage ++ [d]) (added_count + 1) (count_added s)
  end.

(** The critical section [if (discovery_count > 0) { lock ... unlock }]. *)
Definition merge_batch (discovered : list ProxyRecord) (w : World) : World :=
  if 0 <? Z.of_nat (List.length discovered) then
    let '(storage, added_count, s) :=
      merge_loop discovered (proxy_storage w) 0 (stats w) in
    {| proxy_storage := storage; stats := add_last_cycle s added_count |}
  else w.

(** The number of iterations one match loop is followed for: each one
    moves the offset forward, so the length of the content is enough
    (see [match_loop_terminates]). *)
Definition match_fuel (content_length : Z) : nat := S (Z.to_nat content_length).

(** [extract_proxies_from_content(content, content_length, source)].
    [content] is [None] for the null pointer; [malloc_ok] is whether the
    allocation of the batch succeeds. *)
Definition extract_proxies_from_content (malloc_ok : bool)
    (content : option (list ascii)) (content_length : Z) (src : cstring)
    (w : World) (e : Env) : option (World * Env) :=
  match content with
  | None => Some (w, e)
  | Some content =>
      if content_length =? 0 then Some (w, e)
      else
        let '(running, e) := load_program_active e in
        if negb running then Some (w, e)
        else if negb malloc_ok then Some (w, e)
        else
          match pattern_loop (match_fuel content_length) PARSE_PATTERNS
                  content content_length src [] e with
          | None => None
          | Some (discovered_proxies, e) =>
              Some (merge_batch discovered_proxies w, e)
          end
  end.
End Engine.

(** ** The checkpoint writer *)

(** The values [save_proxies_to_json] builds with jansson. *)
#[local] Unset Elimination Schemes.
Inductive json :=
| JString (s : cstring)
| JInteger (z : Z)
| JArray (items : list json)
| JObject (members : list (cstring * json)).
#[local] Set Elimination Schemes.

Definition hex_digit (d : Z) : ascii :=
  ascii_of_N (Z.to_N (if d <? 10 then 48 + d else 87 + d)).

(** The last [n] hexadecimal digits of [z], most significant first. *)
Fixpoint hex_digits (n : nat) (z : Z) : cstring :=
  match n with
  | O => []
  | S n' => hex_digits n' (z / 16) ++ [hex_digit (z mod 16)]
  end.

(** [snprintf(hash_str, 17, "%016llx", hash_value)] for a [uint64_t]. *)
Definition format_016llx (hash : Z) : cstring := hex_digits 16 (u64 hash).

(** Decimal digits of a natural number, for ["%d"] and ["%u"]. *)
Fixpoint decimal_digits (fuel : nat) (z : Z) : cstring :=
  match fuel with
  | O => []
  | S fuel' =>
      (if z <? 10 then [] else decimal_digits fuel' (z / 10))
        ++ [ascii_of_N (Z.to_N (48 + z mod 10))]
  end.

Definition format_d (z : Z) : cstring :=
  if z <? 0 then "-"%char :: decimal_digits 20 (- z) else decimal_digits 20 z.

(** What a checkpoint leaves on disk: [None] for a file that could not be
    opened.  The text file is the list of its lines. *)
Record Checkpoint := {
  proxies_json : option json;
  proxies_txt : option (list cstring)
}.

(** The five header lines and the empty line of [proxies.txt];
    [processed] and [unique] are the two counters as loaded when the
    header is printed. *)
Definition txt_header (time_string : cstring) (current_total : Z)
    (processed unique : Z) : list cstring :=
  [ bytes "# MTPROTO PROXY LIST";
    bytes "# Updated: " ++ time_string;
    bytes "# Total proxies: " ++ format_d current_total;
    bytes "# Sources: " ++ format_d processed ++ bytes " URLs processed";
    bytes "# Unique proxies: " ++ format_d unique;
    [] ].

Section Writer.
Context {C : Collaborators}.

Definition proxy_obj (r : ProxyRecord) : json :=
  JObject
    [ (bytes "server", JString (server r));
      (bytes "port", JString (port r));
      (bytes "secret", JString (secret r));
      (bytes "url", JString (connection_url r));
      (bytes "source", JString (source r));
      (bytes "type", JString (type r));
      (bytes "country", JString (country r));
      (bytes "speed_score", JInteger (speed_score r));
      (bytes "discovered", JString (strftime_local (discovery_time r)));
      (bytes "last_verified", JString (strftime_local (last_verified r)));
      (bytes "hash", JString (format_016llx (hash_value r))) ].

(** [for (i = 0; i < current_total; i++) if (proxy_storage[i].active) ...]
    of the JSON part, over the cells [0 .. current_total - 1]. *)
Fixpoint proxies_array (cells : list ProxyRecord) : list json :=
  match cells with
  | [] => []
  | r :: rest =>
      if active r =? 0 then proxies_array rest
      else proxy_obj r :: proxies_array rest
  end.

(** The same loop of the text part: one [fprintf("%s\n", connection_url)]
    for each active cell. *)
Fixpoint url_lines (cells : list ProxyRecord) : list cstring :=
  match cells with
  | [] => []
  | r :: rest =>
      if active r =? 0 then url_lines rest
      else connection_url r :: url_lines rest
  end.

(** The cells the two loops visit: [proxy_storage[0 .. current_total - 1]]
    of the array as it is when they run. *)
Definition cells_read (current_total : Z) (storage : list ProxyRecord)
  : list ProxyRecord :=
  firstn (Z.to_nat current_total) storage.

(** [save_proxies_to_json()] as it runs beside the workers.
    [current_total] is [stats.total_proxies] as sampled once at the start.
    Everything else is read where it is used, without [storage_mutex]:
    [unique_json] and [processed_json] are the counters as loaded for the
    members of the JSON root and [storage_json] the array as the first
    loop reads it; [processed_txt] and [unique_txt] are the counters as
    loaded for the header of the text file and [storage_txt] the array as
    the second loop reads it.  [root_ok], [json_open] and [txt_open] say
    whether [json_object()] and the two [fopen] calls succeed. *)
Definition write_checkpoint (root_ok json_open txt_open : bool)
    (current_time : Z) (current_total : Z)
    (unique_json processed_json processed_txt unique_txt : Z)
    (storage_json storage_txt : list ProxyRecord) : option Checkpoint :=
  let time_string := strftime_local current_time in
  if negb root_ok then None
  else
    let cells := cells_read current_total storage_json in
    let root :=
      JObject
        [ (bytes "version", JString (bytes "2.0"));
          (bytes "updated", JString time_string);
          (bytes "total_proxies", JInteger current_total);
          (bytes "unique_proxies", JInteger unique_json);
          (bytes "sources_processed", JInteger processed_json);
          (bytes "proxies", JArray (proxies_array cells)) ] in
    let txt :=
      txt_header time_string current_total processed_txt unique_txt
        ++ url_lines (cells_read current_total storage_txt) in
    Some {| proxies_json := if json_open then Some root else None;
            proxies_txt := if txt_open then Some txt else None |}.

(** [save_proxies_to_json()] while nothing else touches the shared state:
    every load sees the one world. *)
Definition save_proxies_to_json (root_ok json_open txt_open : bool)
    (w : World) (e : Env) : option Checkpoint * Env :=
  (write_checkpoint root_ok json_open txt_open (time_ (time_calls e))
     (total_proxies w)
     (unique_proxies (stats w)) (processed_urls (stats w))
     (processed_urls (stats w)) (unique_proxies (stats w))
     (proxy_storage w) (proxy_storage w),
   {| active_loads := active_loads e; time_calls := S (time_calls e) |}).
End Writer.

(** ** write_callback *)

(** A download buffer: [data] is [None] for the null pointer, otherwise the
    bytes of the block by offset; [capacity] is the size of the block. *)
Record DynamicBuffer := {
  data : option (Z -> ascii);
  size : Z;
  capacity : Z
}.

(** [memcpy(block + at, content, n)] on the bytes of a block. *)
Definition memcpy_at (block : Z -> ascii) (at_ : Z) (content : list ascii)
  : Z -> ascii :=
  fun i =>
    if (at_ <=? i) && (i <? at_ + Z.of_nat (List.length content))
    then nth (Z.to_nat (i - at_)) content zero
    else block i.

Definition store_at (block : Z -> ascii) (at_ : Z) (c : ascii) : Z -> ascii :=
  fun i => if i =? at_ then c else block i.

(** What a call of [write_callback] does: it returns a count and leaves a
    buffer, or it writes outside the block it was given: at offset
    [written_to] of a block of [block_size] bytes. *)
Inductive callback_result :=
| Returned (count : Z) (buffer : option DynamicBuffer)
| WroteOutside (written_to block_size : Z).

(** [write_callback(content, element_size, element_count, user_buffer)].
    [content] holds [element_size * element_count] bytes; [running] is what
    the load of [program_active] returns and [realloc_ok] whether [realloc]
    succeeds. *)
Definition write_callback (content : list ascii) (element_size element_count : Z)
    (user_buffer : option DynamicBuffer) (running realloc_ok : bool)
  : callback_result :=
  let total_size := u64 (element_size * element_count) in
  match user_buffer with
  | None => Returned 0 None
  | Some buffer =>
      if negb running then Returned 0 (Some buffer)
      else
        let grown :=
          if u64 (size buffer + total_size + 1) >? capacity buffer then
            let new_capacity := u64 (capacity buffer * 2) in
            let new_capacity :=
              if new_capacity <? u64 (size buffer + total_size + 1)
              then u64 (size buffer + total_size + 1) else new_capacity in
            let new_capacity :=
              if new_capacity >? BUFFER_CAPACITY then BUFFER_CAPACITY
              else new_capacity in
            if realloc_ok then
              Some {| data := Some (match data buffer with
                                    | Some block => block
                                    | None => fun _ => zero
                                    end);
                      size := size buffer;
                      capacity := new_capacity |}
            else None
          else Some buffer in
        match grown with
        | None => Returned 0 (Some buffer)
        | Some buffer =>
            match data buffer with
            | None => Returned total_size (Some buffer)
            | Some block =>
                (* memcpy(data + size, content, total_size);
                   size += total_size; data[size] = 0 *)
                if size buffer + total_size + 1 >? capacity buffer
                then WroteOutside (size buffer + total_size) (capacity buffer)
                else
                  Returned total_size
                    (Some {| data := Some (store_at
                                             (memcpy_at block (size buffer) content)
                                             (size buffer + total_size) zero);
                             size := u64 (size buffer + total_size);
                             capacity := capacity buffer |})
            end
        end
  end.

(** ** Sequences of merges *)

Section Runs.
Context {T : Target} {C : Collaborators}.

(** The store after the batches of a list have been merged in order. *)
Definition merge_all (batches : list (list ProxyRecord)) (w : World) : World :=
  fold_left (fun w batch => merge_batch batch w) batches w.

(** One document handed to [extract_proxies_from_content]: the buffer a
    worker downloaded, its source tag, and what the worker meets while it
    runs. *)
Record Feed := {
  feed_malloc_ok : bool;
  feed_content : option (list ascii);
  feed_length : Z;
  feed_source : cstring;
  feed_env : Env
}.

Definition feed (f : Feed) (w : World) : option (World * Env) :=
  extract_proxies_from_content (feed_malloc_ok f) (feed_content f)
    (feed_length f) (feed_source f) w (feed_env f).

(** The worlds the program can be in: the initial one, and those a call of
    [extract_proxies_from_content] leaves.  Workers extract on buffers of
    their own and merge under [storage_mutex], so the calls act on the
    store one after the other. *)
Inductive reachable : World -> Prop :=
| reachable_initial : reachable initial_world
| reachable_extract : forall w f w' e',
    reachable w -> feed f w = Some (w', e') -> reachable w'.
End Runs.

Definition hashes (records : list ProxyRecord) : list Z := map hash_value records.

(** How many of the records carry the hash [h]. *)
Definition count_hash (h : Z) (records : list ProxyRecord) : nat :=
  List.length (filter (fun r => hash_value r =? h) records).

(** ** The wording of the specification, for comparison *)

(** Section 4.2 step 2 as worded: strip the non-printable bytes, collapse
    the runs of whitespace, trim trailing whitespace. *)
Fixpoint collapse_runs (in_run : bool) (s : cstring) : cstring :=
  match s with
  | [] => []
  | c :: rest =>
      if is_blank c then
        if in_run then collapse_runs true rest
        else " "%char :: collapse_runs true rest
      else c :: collapse_runs false rest
  end.

Fixpoint drop_leading_blanks (s : cstring) : cstring :=
  match s with
  | c :: rest => if is_blank c then drop_leading_blanks rest else s
  | [] => []
  end.

Definition drop_trailing_blanks (s : cstring) : cstring :=
  rev (drop_leading_blanks (rev s)).

Definition worded_sanitize (s : cstring) : cstring :=
  drop_trailing_blanks (collapse_runs false (filter is_printable s)).

(** The same with the blanks at the front removed as well. *)
Definition both_ends_sanitize (s : cstring) : cstring :=
  drop_trailing_blanks
    (drop_leading_blanks (collapse_runs false (filter is_printable s))).

(** [long_prefix p s]: [p] is an initial segment of [s]. *)
Definition is_prefix (p s : cstring) : Prop := exists rest, s = p ++ rest.

(** Section 4.2 step 4 as worded.  A port "parses as an integer" the way
    [strtol] reads one: blanks, an optional sign, then decimal digits. *)
Definition decimal_value (digits : cstring) : Z :=
  fold_left (fun acc c => acc * 10 + (code c - 48)) digits 0.

Definition parses_as (text : cstring) (value : Z) : Prop :=
  exists blanks sign digits,
    text = blanks ++ sign ++ digits
    /\ forallb isspace blanks = true
    /\ (sign = [] /\ value = decimal_value digits
        \/ sign = ["+"%char] /\ value = decimal_value digits
        \/ sign = ["-"%char] /\ value = - decimal_value digits)
    /\ digits <> []
    /\ forallb isdigit digits = true.

Definition decimal_step (acc : Z) (c : ascii) : Z := acc * 10 + (code c - 48).

(** The test [validate_proxy] applies to what [strtol] returns. *)
Definition port_rejected (port : cstring) : bool :=
  let '(port_value, endptr) := strtol port in
  (endptr =? 0) || negb (endptr =? strlen port)
  || (port_value <? 1) || (port_value >? 65535).

Definition secret_char_ok (c : ascii) : bool := is_hex c || is_pad c || is_blank c.

Definition count_chars (f : ascii -> bool) (s : cstring) : Z :=
  Z.of_nat (List.length (filter f s)).

Definition worded_valid (server port secret : cstring) : Prop :=
  4 <= strlen server <= 253
  /\ (exists v, parses_as port v /\ 1 <= v <= 65535)
  /\ 16 <= strlen secret <= 511
  /\ forallb secret_char_ok secret = true
  /\ 8 <= count_chars is_hex secret
  /\ 16 <= count_chars (fun c => is_hex c || is_pad c) secret.

(** What the code checks: the port is at most 15 characters long, and of
    the secret only the first 128 characters are examined. *)
Definition checked_valid (server port secret : cstring) : Prop :=
  4 <= strlen server <= 253
  /\ 1 <= strlen port <= 15
  /\ (exists v, parses_as port v /\ 1 <= v <= 65535)
  /\ 16 <= strlen secret <= 511
  /\ forallb secret_char_ok (firstn 128 secret) = true
  /\ 8 <= count_chars is_hex (firstn 128 secret)
  /\ 16 <= count_chars (fun c => is_hex c || is_pad c) (firstn 128 secret).

(** The test [if (proxy_storage[i].active)] of the checkpoint loops. *)
Definition is_active (r : ProxyRecord) : bool := negb (active r =? 0).


(** The fields every record is created with. *)
Definition created_fields (r : ProxyRecord) : Prop :=
  validate_proxy (Some (server r)) (Some (port r)) (Some (secret r)) = true
  /\ country r = bytes "UN"
  /\ active r = 1
  /\ verified r = 0
  /\ speed_score r = 50
  /\ (forallb (fun c => isdigit c || (code c =? 46)) (server r) = true
      -> type r = bytes "IPv4")
  /\ (forallb (fun c => isdigit c || (code c =? 46)) (server r) = false
      -> type r = bytes "Domain").

(** What the engine derives from the three fields of a record. *)
Definition derived_fields {T : Target} (r : ProxyRecord) : Prop :=
  hash_value r = compute_hash (server r) (port r) (secret r)
  /\ connection_url r = snprintf_url (server r) (port r) (secret r).

(** ** A small stand-in for the collaborators

    Enough of PCRE2 to run the engine on a sample document: a compiled
    pattern is the table of the matches the pattern has in that document,
    and a search returns the first one that starts at or after the offset. *)

Definition sample_document : list ascii :=
  bytes "Server: 1.2.3.4 Port: 443 Secret: deadbeefdeadbeefdeadbeef".

Definition table_search (table : list (list Z)) (subject : list ascii)
    (length start_offset : Z) : Z * (nat -> Z) :=
  match find (fun ov => (start_offset <=? nth 0 ov PCRE2_UNSET)
                        && (nth 0 ov PCRE2_UNSET <=? nth 1 ov PCRE2_UNSET)
                        && (nth 1 ov PCRE2_UNSET <=? length)) table with
  | Some ov => (4, fun i => nth i ov PCRE2_UNSET)
  | None => (-1, fun _ => PCRE2_UNSET)
  end.

Definition same_text (a b : cstring) : bool :=
  String.eqb (string_of_list_ascii a) (string_of_list_ascii b).

(** The collaborators for a list of patterns, each with its table of
    matches, or with [None] when it does not compile. *)
Definition table_collaborators
    (tables : list (cstring * option (list (list Z)))) : Collaborators :=
  {| PARSE_PATTERNS := map fst tables;
     pcre2_code := list (list Z);
     pcre2_compile := fun pattern =>
       match find (fun entry => same_text pattern (fst entry)) tables with
       | Some (_, compiled) => compiled
       | None => None
       end;
     pcre2_match_data_create_from_pattern := fun _ => true;
     pcre2_match := table_search;
     time_ := fun n => 1761000000 + Z.of_nat n;
     strftime_local := format_d |}.

(** The labelled pattern finds the triple of the sample document; a bare
    pattern finds it again. *)
Definition sample_collaborators : Collaborators :=
  table_collaborators
    [ (bytes "labelled", Some [[0; 58; 8; 15; 22; 25; 34; 58]]);
      (bytes "uncompilable", None);
      (bytes "bare", Some [[8; 58; 8; 15; 22; 25; 34; 58]]) ].

Definition sample_env : Env := {| active_loads := None; time_calls := 0 |}.

Definition sample_feed : Feed :=
  {| feed_malloc_ok := true;
     feed_content := Some sample_document;
     feed_length := 58;
     feed_source := bytes "https://t.me/s/ProxyMTProto";
     feed_env := sample_env |}.

(** The world after the sample document has been fed once. *)
Definition sample_world : World :=
  match @feed x86_64_linux sample_collaborators sample_feed initial_world with
  | Some (w, _) => w
  | None => initial_world
  end.

(** A document with a secret of 480 hex digits, as the pattern
    [(host):(port):(hex digits, 16 to 512 of them)] finds it. *)
Definition long_secret_document : list ascii :=
  bytes "1.2.3.4:443:" ++ repeat "a"%char 480.

Definition long_secret_collaborators : Collaborators :=
  table_collaborators [ (bytes "colon", Some [[0; 492; 0; 7; 8; 11; 12; 492]]) ].

Definition long_secret_feed : Feed :=
  {| feed_malloc_ok := true;
     feed_content := Some long_secret_document;
     feed_length := 492;
     feed_source := bytes "https://t.me/s/ProxyMTProto";
     feed_env := sample_env |}.

(** A store filled to its capacity. *)
Definition full_world : World :=
  {| proxy_storage := repeat zero_record (Z.to_nat PROXY_CAPACITY);
     stats := zero_stats |}.

(** ** The scheduler and the shutdown path *)

Definition URL_CAPACITY : nat := 800.
Definition SAVE_INTERVAL : Z := 10.

(** How an attempt to start the task of one URL ends: [malloc] of the task
    fails, [strdup] of the URL fails, [pthread_create] fails, or the worker
    thread is created. *)
Inductive spawn_result := TaskAllocFailed | UrlAllocFailed | CreateFailed | Created.

Class Threads := {
  (** The entries of [TARGET_URLS] before the [NULL] sentinel. *)
  TARGET_URLS : list cstring;
  (** The outcome of the attempt for URL [i] in cycle [c]. *)
  spawn : nat -> nat -> spawn_result
}.

(** Whether a checkpoint can have what it needs: for the call of
    [save_proxies_to_json] that makes clock reading number [n], whether
    [json_object()] returns an object and whether the [fopen] of
    proxies.json and the one of proxies.txt succeed. *)
Class Files := {
  json_object_ok : nat -> bool;
  fopen_json_ok : nat -> bool;
  fopen_txt_ok : nat -> bool
}.

(** What the controlling thread does that the shutdown property speaks of.
    [Launched i flag]: [pthread_create] started the worker of URL [i];
    [flag] is what a load of [program_active] returns at that moment.
    [Joined]: a [pthread_join] returned.  [Waited n]: the drain loop of
    [cleanup_resources] slept [n] times.  [Saved k]: a call of
    [save_proxies_to_json] returned while [stats.active_workers] was [k];
    its two flags say whether proxies.json and proxies.txt were written.
    [Released]: the store was freed. *)
Inductive event :=
| Launched (url_index : nat) (flag : bool)
| Joined
| Waited (seconds : nat)
| Saved (workers : Z) (json_written txt_written : bool)
| Released.

Record Controller := {
  ctl_env : Env;
  ctl_workers : Z;
  ctl_last_save : Z;
  ctl_trace : list event
}.

Definition with_env (c : Controller) (e : Env) : Controller :=
  {| ctl_env := e; ctl_workers := ctl_workers c;
     ctl_last_save := ctl_last_save c; ctl_trace := ctl_trace c |}.

Definition with_workers (c : Controller) (k : Z) : Controller :=
  {| ctl_env := ctl_env c; ctl_workers := k;
     ctl_last_save := ctl_last_save c; ctl_trace := ctl_trace c |}.

Definition emit (c : Controller) (ev : event) : Controller :=
  {| ctl_env := ctl_env c; ctl_workers := ctl_workers c;
     ctl_last_save := ctl_last_save c; ctl_trace := ctl_trace c ++ [ev] |}.

Section Scheduler.
Context {C : Collaborators} {Th : Threads} {F : Files}.

(** [while (url_count < URL_CAPACITY && TARGET_URLS[url_count] != NULL)] *)
Definition url_count : nat := Nat.min (List.length TARGET_URLS) URL_CAPACITY.

(** A call of [save_proxies_to_json] as the controller sees it: one call
    of [time(NULL)], then the two files.  When [json_object()] fails the
    function returns before it opens a file; a file that cannot be opened
    is left out without a word. *)
Definition checkpoint (c : Controller) : Controller :=
  let call := time_calls (ctl_env c) in
  let '(_, e) := time_now (ctl_env c) in
  let root_ok := json_object_ok call in
  emit (with_env c e)
    (Saved (ctl_workers c) (root_ok && fopen_json_ok call)
       (root_ok && fopen_txt_ok call)).

(** [for (i = 0; i < batch_size && current_url_index < url_count;
         i++, current_url_index++)]; [todo] is [batch_size - i]. *)
Fixpoint launch_loop (cycle : nat) (todo : nat) (current_url_index : nat)
    (workers_launched : nat) (c : Controller) : nat * nat * Controller :=
  match todo with
  | O => (current_url_index, workers_launched, c)
  | S todo' =>
      if negb (current_url_index <? url_count)%nat
      then (current_url_index, workers_launched, c)
      else
        match spawn cycle current_url_index with
        | TaskAllocFailed | UrlAllocFailed =>
            launch_loop cycle todo' (S current_url_index) workers_launched c
        | CreateFailed =>
            (* atomic_fetch_add, then atomic_fetch_sub in the else branch *)
            let c := with_workers c (ctl_workers c + 1) in
            let c := with_workers c (ctl_workers c - 1) in
            launch_loop cycle todo' (S current_url_index) workers_launched c
        | Created =>
            let c := with_workers c (ctl_workers c + 1) in
            let c := emit c (Launched current_url_index
                               (program_active (ctl_env c))) in
            launch_loop cycle todo' (S current_url_index) (S workers_launched) c
        end
  end.

(** [for (i = 0; i < workers_launched; i++) pthread_join(workers[i], NULL)]:
    when a join returns the worker has run to its end, where it
    decrements [stats.active_workers]. *)
Fixpoint join_loop (workers_launched : nat) (c : Controller) : Controller :=
  match workers_launched with
  | O => c
  | S n => join_loop n (emit (with_workers c (ctl_workers c - 1)) Joined)
  end.

(** [while (current_url_index < url_count && atomic_load(&program_active))] *)
Fixpoint batch_loop (fuel : nat) (cycle : nat) (current_url_index : nat)
    (c : Controller) : option (nat * Controller) :=
  match fuel with
  | O => None
  | S fuel' =>
      if negb (current_url_index <? url_count)%nat
      then Some (current_url_index, c)
      else
        let '(running, e) := load_program_active (ctl_env c) in
        let c := with_env c e in
        if negb running then Some (current_url_index, c)
        else
          let batch_size :=
            Nat.min (Z.to_nat CONCURRENT_DOWNLOADS) (url_count - current_url_index) in
          let '(current_url_index, workers_launched, c) :=
            launch_loop cycle batch_size current_url_index 0 c in
          let c := join_loop workers_launched c in
          let '(running, e) := load_program_active (ctl_env c) in
          let c := with_env c e in
          if negb running then Some (current_url_index, c)
          else batch_loop fuel' cycle current_url_index c
  end.

(** [for (int i = 0; i < 8 && atomic_load(&program_active); i++) sleep(1)] *)
Fixpoint pause_loop (todo : nat) (c : Controller) : Controller :=
  match todo with
  | O => c
  | S todo' =>
      let '(running, e) := load_program_active (ctl_env c) in
      let c := with_env c e in
      if negb running then c else pause_loop todo' c
  end.

(** The [while (atomic_load(&program_active))] loop of
    [autonomous_operation]; [fuel] bounds the number of cycles followed. *)
Fixpoint cycle_loop (fuel : nat) (cycle_number : nat) (c : Controller)
  : option Controller :=
  match fuel with
  | O => None
  | S fuel' =>
      let '(running, e) := load_program_active (ctl_env c) in
      let c := with_env c e in
      if negb running then Some c
      else
        let cycle_number := S cycle_number in
        match batch_loop (S url_count) cycle_number 0 c with
        | None => None
        | Some (_, c) =>
            let '(now, e) := time_now (ctl_env c) in
            let c := with_env c e in
            let c :=
              if now - ctl_last_save c >=? SAVE_INTERVAL then
                let c := checkpoint c in
                {| ctl_env := ctl_env c; ctl_workers := ctl_workers c;
                   ctl_last_save := now; ctl_trace := ctl_trace c |}
              else c in
            cycle_loop fuel' cycle_number (pause_loop 8 c)
        end
  end.

Definition autonomous_operation (fuel : nat) (c : Controller)
  : option Controller :=
  let '(_, e) := time_now (ctl_env c) in      (* stats.initialization_time *)
  let '(last_save, e) := time_now e in
  let '(_, e) := time_now e in                (* last_stats *)
  let c := {| ctl_env := e; ctl_workers := ctl_workers c;
              ctl_last_save := last_save; ctl_trace := ctl_trace c |} in
  cycle_loop fuel 0 (checkpoint c).

(** [while (atomic_load(&stats.active_workers) > 0 && wait_count < 30)]:
    the number of seconds slept.  Nothing but a worker changes the
    counter, and the controller has joined every worker it created. *)
Fixpoint drain_loop (todo : nat) (wait_count : nat) (c : Controller) : nat :=
  match todo with
  | O => wait_count
  | S todo' =>
      if ctl_workers c >? 0 then drain_loop todo' (S wait_count) c
      else wait_count
  end.

Definition cleanup_resources (c : Controller) : Controller :=
  (* atomic_store(&program_active, 0) *)
  let c := with_env c {| active_loads := Some O;
                         time_calls := time_calls (ctl_env c) |} in
  let c := emit c (Waited (drain_loop 30 0 c)) in
  let c := checkpoint c in
  emit c Released.

(** [main]: the exit status and what the controller did.  The three flags
    say whether [curl_global_init], the [calloc] of the store and the
    initialisation of the mutexes succeed. *)
Definition main (fuel : nat) (curl_ok calloc_ok mutex_ok : bool) (e : Env)
  : option (Z * list event) :=
  let c := {| ctl_env := e; ctl_workers := 0; ctl_last_save := 0;
              ctl_trace := [] |} in
  if negb curl_ok then Some (1, [])
  else if negb calloc_ok then Some (1, [])
  else if negb mutex_ok then Some (1, [])
  else
    match autonomous_operation fuel c with
    | None => None
    | Some c => Some (0, ctl_trace (cleanup_resources c))
    end.

(** The start of [fetch_url_content]: whether it gets as far as
    [curl_easy_perform].  [curl_ok] and [malloc_ok] say whether the
    handle and the 1 MB buffer can be had. *)
Definition fetch_starts (curl_ok malloc_ok : bool) (e : Env) : bool * Env :=
  let '(running, e) := load_program_active e in
  if negb running then (false, e)
  else if negb curl_ok then (false, e)
  else if negb malloc_ok then (false, e)
  else (true, e).

(** [url_worker(task)] up to the transfer: whether a transfer is started,
    and [stats.active_workers] after the worker's last statement.  [task]
    is [None] for a null task and [Some None] for a task without URL. *)
Definition url_worker (task : option (option cstring))
    (curl_ok malloc_ok : bool) (workers : Z) (e : Env) : bool * Z * Env :=
  let '(running, e) := load_program_active e in
  let '(started, e) :=
    match task with
    | Some (Some _) =>
        if running then fetch_starts curl_ok malloc_ok e else (false, e)
    | _ => (false, e)
    end in
  (started, workers - 1, e).
End Scheduler.

(** The launches a trace records with the flag already down. *)
Definition late_launch (ev : event) : bool :=
  match ev with
  | Launched _ false => true
  | _ => false
  end.

Definition is_launch (ev : event) : bool :=
  match ev with
  | Launched _ _ => true
  | _ => false
  end.

Definition is_join (ev : event) : bool :=
  match ev with
  | Joined => true
  | _ => false
  end.

Definition launches (trace : list event) : nat := List.length (filter is_launch trace).
Definition joins (trace : list event) : nat := List.length (filter is_join trace).
Definition late_launches (trace : list event) : nat :=
  List.length (filter late_launch trace).

(** Once a worker has been created with the flag down, the joins of its
    batch are the last the trace shows of workers: none is created after
    one of these joins. *)
Definition no_batch_after_late (trace : list event) : Prop :=
  forall before i after waiting rest,
    trace = before ++ Launched i false :: after ->
    after = waiting ++ Joined :: rest ->
    launches rest = O.

(** What a stretch of the scheduling loops does, from controller state [c]
    to [c']: it appends launches and joins to the trace, as many of the
    one as of the other, and checkpoints taken with the counter where it
    was; it leaves the counter where it was; it launches at most one batch
    with the flag down, after which the flag is seen down and no further
    batch follows; and it launches nothing when it starts with the flag
    down. *)
Definition stretch (c c' : Controller) : Prop :=
  exists evs,
    ctl_trace c' = ctl_trace c ++ evs
    /\ ctl_workers c' = ctl_workers c
    /\ launches evs = joins evs
    /\ (late_launches evs <= Z.to_nat CONCURRENT_DOWNLOADS)%nat
    /\ (late_launches evs <> O -> program_active (ctl_env c') = false)
    /\ (program_active (ctl_env c) = false ->
        launches evs = O /\ program_active (ctl_env c') = false)
    /\ Forall (fun ev => (exists json txt, ev = Saved (ctl_workers c) json txt)
                         \/ is_launch ev = true \/ is_join ev = true) evs
    /\ no_batch_after_late evs.

(** How many loads of the flag may still return 1 never grows: [e'] is
    what a thread sees later than [e]. *)
Definition loads_kept (e e' : Env) : Prop :=
  forall n, active_loads e = Some n ->
            exists n', active_loads e' = Some n' /\ (n' <= n)%nat.

(** A file system on which every checkpoint can be written. *)
Definition sample_files : Files :=
  {| json_object_ok := fun _ => true;
     fopen_json_ok := fun _ => true;
     fopen_txt_ok := fun _ => true |}.

(** A catalogue of 45 sources whose workers all start. *)
Definition sample_threads : Threads :=
  {| TARGET_URLS := repeat (bytes "https://t.me/s/ProxyMTProto") 45;
     spawn := fun _ _ => Created |}.

(** ** The request disguise: user agents and delays *)

Definition USER_AGENT_POOL_SIZE : Z := 30.
Definition ROTATION_DELAY_MS : Z := 100.

Definition USER_AGENTS : list cstring :=
  map bytes
    [ "Mozilla/5.0 (Windows NT 10.0; Win64; x64) AppleWebKit/537.36 (KHTML, like Gecko) Chrome/122.0.0.0 Safari/537.36";
      "Mozilla/5.0 (Macintosh; Intel Mac OS X 10_15_7) AppleWebKit/537.36 (KHTML, like Gecko) Chrome/122.0.0.0 Safari/537.36";
      "Mozilla/5.0 (X11; Linux x86_64) AppleWebKit/537.36 (KHTML, like Gecko) Chrome/122.0.0.0 Safari/537.36";
      "Mozilla/5.0 (Windows NT 10.0; Win64; x64; rv:123.0) Gecko/20100101 Firefox/123.0";
      "Mozilla/5.0 (iPhone; CPU iPhone OS 17_4 like Mac OS X) AppleWebKit/605.1.15 (KHTML, like Gecko) Version/17.4 Mobile/15E148 Safari/604.1";
      "Mozilla/5.0 (Linux; Android 14; SM-S928B) AppleWebKit/537.36 (KHTML, like Gecko) Chrome/122.0.0.0 Mobile Safari/537.36";
      "Mozilla/5.0 (Windows NT 10.0; Win64; x64) AppleWebKit/537.36 (KHTML, like Gecko) Chrome/121.0.0.0 Safari/537.36";
      "Mozilla/5.0 (Macintosh; Intel Mac OS X 10_15_7) AppleWebKit/537.36 (KHTML, like Gecko) Chrome/121.0.0.0 Safari/537.36";
      "Mozilla/5.0 (X11; Linux x86_64) AppleWebKit/537.36 (KHTML, like Gecko) Chrome/121.0.0.0 Safari/537.36";
      "Mozilla/5.0 (Windows NT 10.0; Win64; x64; rv:122.0) Gecko/20100101 Firefox/122.0";
      "Mozilla/5.0 (Macintosh; Intel Mac OS X 10.15; rv:123.0) Gecko/20100101 Firefox/123.0";
      "Mozilla/5.0 (iPad; CPU OS 17_4 like Mac OS X) AppleWebKit/605.1.15 (KHTML, like Gecko) Version/17.4 Mobile/15E148 Safari/604.1";
      "Mozilla/5.0 (Linux; Android 13; SM-S901B) AppleWebKit/537.36 (KHTML, like Gecko) Chrome/122.0.0.0 Mobile Safari/537.36";
      "Mozilla/5.0 (Windows NT 10.0; Win64; x64) AppleWebKit/537.36 (KHTML, like Gecko) Edge/122.0.0.0 Safari/537.36";
      "Mozilla/5.0 (X11; Ubuntu; Linux x86_64; rv:123.0) Gecko/20100101 Firefox/123.0";
      "Mozilla/5.0 (Linux; Android 12; Pixel 6) AppleWebKit/537.36 (KHTML, like Gecko) Chrome/122.0.0.0 Mobile Safari/537.36";
      "Mozilla/5.0 (Macintosh; Intel Mac OS X 10_15_7) AppleWebKit/605.1.15 (KHTML, like Gecko) Version/17.0 Safari/605.1.15";
      "Mozilla/5.0 (Windows NT 10.0; Win64; x64) AppleWebKit/537.36 (KHTML, like Gecko) Chrome/119.0.0.0 Safari/537.36";
      "Mozilla/5.0 (Linux; Android 11; SM-G991B) AppleWebKit/537.36 (KHTML, like Gecko) Chrome/122.0.0.0 Mobile Safari/537.36";
      "Mozilla/5.0 (Windows NT 10.0; Win64; x64) AppleWebKit/537.36 (KHTML, like Gecko) Chrome/118.0.0.0 Safari/537.36";
      "Mozilla/5.0 (Macintosh; Intel Mac OS X 10_14_6) AppleWebKit/537.36 (KHTML, like Gecko) Chrome/122.0.0.0 Safari/537.36";
      "Mozilla/5.0 (X11; Linux x86_64) AppleWebKit/537.36 (KHTML, like Gecko) Chrome/120.0.0.0 Safari/537.36";
      "Mozilla/5.0 (Windows NT 6.1; Win64; x64) AppleWebKit/537.36 (KHTML, like Gecko) Chrome/122.0.0.0 Safari/537.36";
      "Mozilla/5.0 (Linux; Android 10; SM-G973F) AppleWebKit/537.36 (KHTML, like Gecko) Chrome/122.0.0.0 Mobile Safari/537.36";
      "Mozilla/5.0 (iPhone; CPU iPhone OS 16_6 like Mac OS X) AppleWebKit/605.1.15 (KHTML, like Gecko) Version/16.6 Mobile/15E148 Safari/604.1";
      "Mozilla/5.0 (Linux; Android 9; SM-G960F) AppleWebKit/537.36 (KHTML, like Gecko) Chrome/122.0.0.0 Mobile Safari/537.36";
      "Mozilla/5.0 (Windows NT 10.0; Win64; x64) AppleWebKit/537.36 (KHTML, like Gecko) Edge/121.0.0.0 Safari/537.36";
      "Mozilla/5.0 (Macintosh; Intel Mac OS X 10_15_7) AppleWebKit/537.36 (KHTML, like Gecko) Chrome/120.0.0.0 Safari/537.36";
      "Mozilla/5.0 (X11; Linux x86_64; rv:122.0) Gecko/20100101 Firefox/122.0";
      "Mozilla/5.0 (Linux; Android 8.0.0; SM-G950F) AppleWebKit/537.36 (KHTML, like Gecko) Chrome/122.0.0.0 Mobile Safari/537.36" ]%string.

(** [get_random_user_agent()] for the value [rand()] returned:
    [USER_AGENTS[rand() % USER_AGENT_POOL_SIZE]], with the remainder of C's
    truncating division; [None] for an index outside the array. *)
Definition get_random_user_agent (rand : Z) : option cstring :=
  let index := Z.rem rand USER_AGENT_POOL_SIZE in
  if index <? 0 then None else nth_error USER_AGENTS (Z.to_nat index).

(** [random_delay()]: the argument of its [usleep], in microseconds. *)
Definition random_delay (rand : Z) : Z :=
  (Z.rem rand ROTATION_DELAY_MS + 50) * 1000.

(** The pause of the launch loop after each task:
    [usleep(10000 + (rand() % 15000))]. *)
Definition launch_pause (rand : Z) : Z := 10000 + Z.rem rand 15000.

(** ** handle_interrupt *)

(** [atomic_store(&program_active, 0)]: every later load returns 0. *)
Definition handle_interrupt (e : Env) : Env :=
  {| active_loads := Some O; time_calls := time_calls e |}.

(** ** fetch_url_content and url_worker *)

Definition with_stats (w : World) (s : SystemStatistics) : World :=
  {| proxy_storage := proxy_storage w; stats := s |}.

(** [atomic_fetch_add(&stats.total_requests, 1)] *)
Definition count_request (s : SystemStatistics) : SystemStatistics :=
  {| processed_urls := processed_urls s;
     completed_cycles := completed_cycles s;
     network_errors := network_errors s;
     parse_errors := parse_errors s;
     unique_proxies := unique_proxies s;
     active_workers := active_workers s;
     total_requests := fetch_add (total_requests s) 1;
     successful_proxies := successful_proxies s;
     total_bytes := total_bytes s;
     last_cycle_proxies := last_cycle_proxies s |}.

(** [atomic_fetch_add(&stats.network_errors, 1)] *)
Definition count_network_error (s : SystemStatistics) : SystemStatistics :=
  {| processed_urls := processed_urls s;
     completed_cycles := completed_cycles s;
     network_errors := fetch_add (network_errors s) 1;
     parse_errors := parse_errors s;
     unique_proxies := unique_proxies s;
     active_workers := active_workers s;
     total_requests := total_requests s;
     successful_proxies := successful_proxies s;
     total_bytes := total_bytes s;
     last_cycle_proxies := last_cycle_proxies s |}.

(** [atomic_fetch_add(&stats.processed_urls, 1)] *)
Definition count_processed_url (s : SystemStatistics) : SystemStatistics :=
  {| processed_urls := fetch_add (processed_urls s) 1;
     completed_cycles := completed_cycles s;
     network_errors := network_errors s;
     parse_errors := parse_errors s;
     unique_proxies := unique_proxies s;
     active_workers := active_workers s;
     total_requests := total_requests s;
     successful_proxies := successful_proxies s;
     total_bytes := total_bytes s;
     last_cycle_proxies := last_cycle_proxies s |}.

(** [atomic_fetch_add(&stats.total_bytes, content_buffer.size)] *)
Definition add_total_bytes (s : SystemStatistics) (n : Z) : SystemStatistics :=
  {| processed_urls := processed_urls s;
     completed_cycles := completed_cycles s;
     network_errors := network_errors s;
     parse_errors := parse_errors s;
     unique_proxies := unique_proxies s;
     active_workers := active_workers s;
     total_requests := total_requests s;
     successful_proxies := successful_proxies s;
     total_bytes := fetch_add (total_bytes s) n;
     last_cycle_proxies := last_cycle_proxies s |}.

(** An [int] after wrap-around. *)
Definition i32 (z : Z) : Z := (z + 2 ^ 31) mod 2 ^ 32 - 2 ^ 31.

(** [atomic_fetch_add(&stats.active_workers, n)] on the [atomic_int]. *)
Definition add_active_workers (s : SystemStatistics) (n : Z) : SystemStatistics :=
  {| processed_urls := processed_urls s;
     completed_cycles := completed_cycles s;
     network_errors := network_errors s;
     parse_errors := parse_errors s;
     unique_proxies := unique_proxies s;
     active_workers := i32 (active_workers s + n);
     total_requests := total_requests s;
     successful_proxies := successful_proxies s;
     total_bytes := total_bytes s;
     last_cycle_proxies := last_cycle_proxies s |}.

Definition CURLE_OK : Z := 0.
Definition CURLE_WRITE_ERROR : Z := 23.

(** What libcurl and the network do during one [curl_easy_perform]: the
    body arrives in [chunks], each handed to the write function in one
    call with an element size of 1; [transfer_result] is the code the
    transfer ends with when the write function accepts every chunk;
    [response_code] is what [CURLINFO_RESPONSE_CODE] reports afterwards;
    [realloc_succeeds n] says whether a [realloc] made during call [n] of
    the write function succeeds. *)
Record Transfer := {
  chunks : list (list ascii);
  transfer_result : Z;
  response_code : Z;
  realloc_succeeds : nat -> bool
}.

(** How a computation that runs [write_callback] or the match loops ends:
    with a result, with a write outside a block (after which C says
    nothing), or with the fuel of the embedding used up. *)
Inductive outcome (A : Type) :=
| Done (a : A)
| Overrun (written_to block_size : Z)
| Unfinished.
Arguments Done {A} a.
Arguments Overrun {A} written_to block_size.
Arguments Unfinished {A}.

(** The calls of the write function.  libcurl aborts the transfer with
    [CURLE_WRITE_ERROR] when the function returns another count than the
    size of the chunk. *)
Fixpoint write_chunks (realloc_ok : nat -> bool) (final_result : Z)
    (todo : list (list ascii)) (call : nat) (buffer : DynamicBuffer) (e : Env)
  : outcome (Z * DynamicBuffer * Env) :=
  match todo with
  | [] => Done (final_result, buffer, e)
  | chunk :: rest =>
      let '(running, e) := load_program_active e in
      match write_callback chunk 1 (strlen chunk) (Some buffer) running
              (realloc_ok call) with
      | Returned count (Some buffer) =>
          if count =? strlen chunk
          then write_chunks realloc_ok final_result rest (S call) buffer e
          else Done (CURLE_WRITE_ERROR, buffer, e)
      | Returned count None => Done (CURLE_WRITE_ERROR, buffer, e)
      | WroteOutside written_to block_size => Overrun written_to block_size
      end
  end.

Definition curl_easy_perform (t : Transfer) (buffer : DynamicBuffer) (e : Env)
  : outcome (Z * DynamicBuffer * Env) :=
  write_chunks (realloc_succeeds t) (transfer_result t) (chunks t) 0 buffer e.

(** [content_buffer] before the transfer: a block of 1 MB fresh from
    [malloc], whose bytes are [fresh], with [data[0] = 0]. *)
Definition initial_buffer (fresh : Z -> ascii) : DynamicBuffer :=
  {| data := Some (store_at fresh 0 zero); size := 0;
     capacity := 1 * 1024 * 1024 |}.

(** The bytes [data[0 .. size - 1]] that the extraction is handed. *)
Definition buffer_bytes (buffer : DynamicBuffer) : option (list ascii) :=
  match data buffer with
  | Some block =>
      Some (map (fun i => block (Z.of_nat i)) (seq 0 (Z.to_nat (size buffer))))
  | None => None
  end.

Section Fetch.
Context {T : Target} {C : Collaborators}.

(** [fetch_url_content(url)]: the value returned and the state left.
    [curl_ok] says whether [setup_curl_handle] returns a handle,
    [malloc_ok] whether the 1 MB buffer can be had, [batch_ok] whether
    the extraction can allocate its batch. *)
Definition fetch_url_content (curl_ok malloc_ok batch_ok : bool)
    (fresh : Z -> ascii) (t : Transfer) (url : cstring) (w : World) (e : Env)
  : outcome (Z * World * Env) :=
  let '(running, e) := load_program_active e in
  if negb running then Done (0, w, e)
  else if negb curl_ok
  then Done (0, with_stats w (count_network_error (stats w)), e)
  else if negb malloc_ok then Done (0, w, e)
  else
    let content_buffer := initial_buffer fresh in
    let w := with_stats w (count_request (stats w)) in
    match curl_easy_perform t content_buffer e with
    | Overrun written_to block_size => Overrun written_to block_size
    | Unfinished => Unfinished
    | Done (result, content_buffer, e) =>
        if (result =? CURLE_OK) && (size content_buffer >? 0) then
          if response_code t =? 200 then
            let w :=
              with_stats w (add_total_bytes (stats w) (size content_buffer)) in
            match extract_proxies_from_content batch_ok
                    (buffer_bytes content_buffer) (size content_buffer) url
                    w e with
            | None => Unfinished
            | Some (w, e) =>
                Done (1, with_stats w (count_processed_url (stats w)), e)
            end
          else Done (0, with_stats w (count_network_error (stats w)), e)
        else Done (0, with_stats w (count_network_error (stats w)), e)
    end.

(** [url_worker(task_data)] in full: the state the thread leaves.  [task]
    is [None] for a null task and [Some None] for a task without URL. *)
Definition run_url_worker (task : option (option cstring))
    (curl_ok malloc_ok batch_ok : bool) (fresh : Z -> ascii) (t : Transfer)
    (w : World) (e : Env) : outcome (World * Env) :=
  let '(running, e) := load_program_active e in
  let fetched :=
    match task with
    | Some (Some url) =>
        if running
        then fetch_url_content curl_ok malloc_ok batch_ok fresh t url w e
        else Done (0, w, e)
    | _ => Done (0, w, e)
    end in
  match fetched with
  | Done (_, w, e) => Done (with_stats w (add_active_workers (stats w) (-1)), e)
  | Overrun written_to block_size => Overrun written_to block_size
  | Unfinished => Unfinished
  end.

(** The counters the merge owns are [unique_proxies] and
    [successful_proxies]; every other statement of the program that
    touches the statistics leaves these two alone. *)
Definition counters_only (s s' : SystemStatistics) : Prop :=
  unique_proxies s' = unique_proxies s
  /\ successful_proxies s' = successful_proxies s.

(** The states the program passes through.  The store changes in the
    critical section of [extract_proxies_from_content] only, and every
    counter is updated atomically, so the threads act on the shared state
    one step after the other: a step is a call of the extraction, a whole
    call of [fetch_url_content] or of [url_worker], or one update of a
    counter by any of them or by the scheduler. *)
Inductive operates : World -> Prop :=
| operates_initial : operates initial_world
| operates_extract : forall w f w' e',
    operates w -> feed f w = Some (w', e') -> operates w'
| operates_fetch : forall w curl_ok malloc_ok batch_ok fresh t url e success w' e',
    operates w ->
    fetch_url_content curl_ok malloc_ok batch_ok fresh t url w e
    = Done (success, w', e') ->
    operates w'
| operates_worker : forall w task curl_ok malloc_ok batch_ok fresh t e w' e',
    operates w ->
    run_url_worker task curl_ok malloc_ok batch_ok fresh t w e = Done (w', e') ->
    operates w'
| operates_count : forall w s',
    operates w -> counters_only (stats w) s' -> operates (with_stats w s').
End Fetch.

(** ** display_statistics *)

(** The three numbers of the line [Uptime: %02d:%02d:%02d]: [time_t]
    arithmetic with C's truncating division, each result converted to
    [int]. *)
Definition display_uptime (now initialization_time : Z) : Z * Z * Z :=
  let uptime := now - initialization_time in
  let hours := i32 (Z.quot uptime 3600) in
  let minutes := i32 (Z.quot (Z.rem uptime 3600) 60) in
  let seconds := i32 (Z.rem uptime 60) in
  (hours, minutes, seconds).

(** ** Notions the further properties are stated with *)

(** A buffer that holds the bytes [received] and their terminator inside
    its block. *)
Definition buffer_holds (buffer : DynamicBuffer) (received : list ascii) : Prop :=
  exists block,
    data buffer = Some block
    /\ size buffer = strlen received
    /\ (forall i, (i < List.length received)%nat ->
                  block (Z.of_nat i) = nth i received zero)
    /\ block (size buffer) = zero
    /\ size buffer + 1 <= capacity buffer <= BUFFER_CAPACITY.

(** The text [sanitize_string] leaves: printable bytes only, no two spaces
    in a row, no space at either end. *)
Fixpoint single_spaced (s : cstring) : bool :=
  match s with
  | c1 :: rest =>
      match rest with
      | c2 :: _ => negb ((code c1 =? 32) && (code c2 =? 32)) && single_spaced rest
      | [] => true
      end
  | [] => true
  end.

Definition starts_with_space (s : cstring) : bool :=
  match s with
  | c :: _ => code c =? 32
  | [] => false
  end.

Definition normal_form (s : cstring) : bool :=
  forallb is_printable s && single_spaced s
  && negb (starts_with_space s) && negb (starts_with_space (rev s)).

(** Whether some label of the list starts the field, letter case aside. *)
Definition labelled (prefixes : list cstring) (field : cstring) : bool :=
  existsb (fun prefix => strncasecmp_eq field prefix (List.length prefix)) prefixes.

(** The strings of a record fit the arrays of [ProxyRecord] with their
    terminators: [server[256]], [port[16]], [secret[512]],
    [connection_url[512]], [source[256]], [country[3]], [type[16]]; and
    the hash is a [uint64_t]. *)
Definition record_fits (r : ProxyRecord) : Prop :=
  strlen (server r) < 256 /\ strlen (port r) < 16 /\ strlen (secret r) < 512
  /\ strlen (connection_url r) < 512 /\ strlen (source r) < 256
  /\ strlen (country r) < 3 /\ strlen (type r) < 16
  /\ 0 <= hash_value r < 2 ^ 64.

(** A port as the store holds it: an optional plus sign and decimal digits
    that read as a number from 1 to 65535. *)
Definition port_shape (p : cstring) : Prop :=
  exists sign digits,
    p = sign ++ digits
    /\ (sign = [] \/ sign = ["+"%char])
    /\ digits <> []
    /\ forallb isdigit digits = true
    /\ 1 <= decimal_value digits <= 65535.

Definition record_clean (r : ProxyRecord) : Prop :=
  normal_form (server r) = true
  /\ normal_form (port r) = true
  /\ normal_form (secret r) = true
  /\ port_shape (port r)
  /\ forallb (fun c => is_hex c || is_pad c || (code c =? 32))
       (firstn 128 (secret r)) = true.

(** [json_object_get]: the value of the first member with this key. *)
Definition json_member (key : cstring) (j : json) : option json :=
  match j with
  | JObject members =>
      match find (fun m => same_text (fst m) key) members with
      | Some (_, v) => Some v
      | None => None
      end
  | _ => None
  end.

(** The URL indices of the workers a trace records as created, in the
    order of their creation. *)
Fixpoint launched_indices (trace : list event) : list nat :=
  match trace with
  | Launched i _ :: rest => i :: launched_indices rest
  | _ :: rest => launched_indices rest
  | [] => []
  end.

(** The URLs of [first .. first + n - 1] whose worker can be created in
    this cycle. *)
Definition creatable {Th : Threads} (cycle first n : nat) : list nat :=
  filter (fun i => match spawn cycle i with Created => true | _ => false end)
    (seq first n).

(** What a run of batches from URL [first] on leaves in the trace, one
    batch for each entry of [flags]: a batch covers the next 20 URLs, or
    what is left of the catalogue, and is the creation of its workers,
    each recorded with the flag of the batch, followed by one join for
    each of them; the next batch begins after the last of these joins. *)
Fixpoint batches_from {Th : Threads} (cycle first : nat) (flags : list bool)
  : list event :=
  match flags with
  | [] => []
  | flag :: rest =>
      let batch_size :=
        Nat.min (Z.to_nat CONCURRENT_DOWNLOADS) (url_count - first) in
      let started := creatable cycle first batch_size in
      map (fun i => Launched i flag) started
        ++ repeat Joined (List.length started)
        ++ batches_from cycle (first + batch_size) rest
  end.


(** The counters of the merge agree with the store. *)
Definition store_counted (w : World) : Prop :=
  total_proxies w <= PROXY_CAPACITY
  /\ unique_proxies (stats w) = total_proxies w
  /\ successful_proxies (stats w) = total_proxies w.

(** The counters that [fetch_url_content] and the scheduler own; the
    merge leaves them alone. *)
Definition same_traffic (s s' : SystemStatistics) : Prop :=
  processed_urls s' = processed_urls s
  /\ network_errors s' = network_errors s
  /\ total_requests s' = total_requests s
  /\ total_bytes s' = total_bytes s
  /\ active_workers s' = active_workers s
  /\ completed_cycles s' = completed_cycles s
  /\ parse_errors s' = parse_errors s.

(** ** Further sample runs *)

(** A catalogue of three sources; the task of the second cannot be
    allocated. *)
Definition small_threads : Threads :=
  {| TARGET_URLS := [ bytes "https://t.me/s/ProxyMTProto";
                      bytes "https://t.me/s/mtproxy";
                      bytes "https://mtpro.xyz/proxy-list" ];
     spawn := fun _ i => if Nat.eqb i 1 then TaskAllocFailed else Created |}.

(** A response that arrives in two chunks. *)
Definition sample_transfer : Transfer :=
  {| chunks := [ bytes "Server: 1.2.3.4 Port: 443 ";
                 bytes "Secret: deadbeefdeadbeefdeadbeef" ];
     transfer_result := CURLE_OK;
     response_code := 200;
     realloc_succeeds := fun _ => true |}.

(** The world after the sample response has been fetched. *)
Definition fetched_world : World :=
  match @fetch_url_content x86_64_linux sample_collaborators true true true
          (fun _ => "x"%char) sample_transfer
          (bytes "https://t.me/s/ProxyMTProto") initial_world sample_env with
  | Done (_, w, _) => w
  | _ => initial_world
  end.


(** The world after the document with the long secret has been fed. *)
Definition long_secret_world : World :=
  match @feed x86_64_linux long_secret_collaborators long_secret_feed
          initial_world with
  | Some (w, _) => w
  | None => initial_world
  end.

(** * Properties *)
(** ** Bytes *)

Lemma code_range (c : ascii) : 0 <= code c < 256.
Proof.
  unfold code. pose proof (N_ascii_bounded c). lia.
Qed.

Lemma strlen_nonneg (s : cstring) : 0 <= strlen s.
Proof. unfold strlen. lia. Qed.

Lemma strlen_app (s t : cstring) : strlen (s ++ t) = strlen s + strlen t.
Proof. unfold strlen. rewrite length_app. lia. Qed.

Lemma strlen_cons (c : ascii) (s : cstring) : strlen (c :: s) = 1 + strlen s.
Proof. unfold strlen. simpl List.length. lia. Qed.

(** ** compute_hash (C1) *)

Section HashFacts.
Context {T : Target}.

Lemma hash_char_step (h : Z) (c : ascii) :
  hash_char h c = fnv1a_step h (char_to_u64 c).
Proof. reflexivity. Qed.

Lemma hash_string_fold (s : cstring) (h : Z) :
  hash_string h s = fold_left fnv1a_step (map char_to_u64 s) h.
Proof.
  revert h. induction s as [|c s IH]; intro h; simpl; [reflexivity|].
  rewrite IH. reflexivity.
Qed.

Lemma hash_secret_firstn (s : cstring) (i h : Z) :
  0 <= i <= 64 ->
  hash_secret i h s = hash_string h (firstn (Z.to_nat (64 - i)) s).
Proof.
  revert i h. induction s as [|c s IH]; intros i h Hi.
  - cbn [hash_secret]. rewrite firstn_nil. destruct (i <? 64); reflexivity.
  - cbn [hash_secret]. destruct (Z.ltb_spec i 64) as [Hlt|Hge].
    + rewrite IH by lia.
      replace (Z.to_nat (64 - i)) with (S (Z.to_nat (64 - (i + 1)))) by lia.
      reflexivity.
    + replace (Z.to_nat (64 - i)) with O by lia. reflexivity.
Qed.

(** The hash depends on the secret through its first 64 bytes only. *)
Lemma compute_hash_unfold (server port secret : cstring) :
  compute_hash server port secret =
  fold_left fnv1a_step
    (map char_to_u64 server ++ [code ":"%char] ++ map char_to_u64 port
       ++ [code ":"%char] ++ map char_to_u64 (firstn 64 secret))
    FNV_OFFSET.
Proof.
  unfold compute_hash. rewrite hash_secret_firstn by lia.
  rewrite !hash_string_fold, !fold_left_app. reflexivity.
Qed.

Lemma char_to_u64_plain (c : ascii) :
  (plain_char_signed = true -> ascii7 c) -> char_to_u64 c = code c.
Proof.
  intro H. unfold char_to_u64.
  destruct plain_char_signed; simpl; [|reflexivity].
  specialize (H eq_refl). unfold ascii7 in H.
  destruct (Z.leb_spec 128 (code c)); [lia|reflexivity].
Qed.

Lemma map_char_to_u64_plain (s : cstring) :
  (plain_char_signed = true -> Forall ascii7 s) ->
  map char_to_u64 s = map code s.
Proof.
  intro H. apply map_ext_in. intros c Hc. apply char_to_u64_plain.
  intro Hs. specialize (H Hs). rewrite Forall_forall in H. auto.
Qed.
End HashFacts.

(** C1 (as amended).  On strings of 7-bit bytes, and on all strings where
    plain [char] is unsigned, [compute_hash] is the FNV-1a digest of the
    bytes of the server, a colon, the bytes of the port, a colon and the
    first 64 bytes of the secret.  And on every target and for all strings,
    7-bit or not, two triples that agree on server, port and the first 64
    bytes of the secret get the same hash. *)
Theorem compute_hash_is_fnv1a {T : Target} (server port secret : cstring) :
  ((plain_char_signed = true ->
    Forall ascii7 server /\ Forall ascii7 port /\ Forall ascii7 (firstn 64 secret)) ->
   compute_hash server port secret = fnv1a (hashed_bytes server port secret))
  /\ (forall server' port' secret',
        server' = server -> port' = port ->
        firstn 64 secret' = firstn 64 secret ->
        compute_hash server' port' secret' = compute_hash server port secret).
Proof.
  split.
  - intro Hplain. rewrite compute_hash_unfold. unfold fnv1a, hashed_bytes.
    rewrite !map_char_to_u64_plain by (intro Hs; apply Hplain, Hs).
    reflexivity.
  - intros server' port' secret' -> -> Hsecret.
    rewrite !compute_hash_unfold, Hsecret. reflexivity.
Qed.

Lemma compute_hash_is_fnv1a_witness :
  @compute_hash x86_64_linux (bytes "1.2.3.4") (bytes "443")
    (bytes "deadbeefdeadbeefdeadbeef")
  = fnv1a (hashed_bytes (bytes "1.2.3.4") (bytes "443")
             (bytes "deadbeefdeadbeefdeadbeef"))
  /\ @compute_hash x86_64_linux (bytes "caf" ++ ["233"%char]) (bytes "443")
       (repeat "255"%char 64 ++ bytes "one tail")
     = @compute_hash x86_64_linux (bytes "caf" ++ ["233"%char]) (bytes "443")
         (repeat "255"%char 64 ++ bytes "another").
Proof.
  split.
  - apply (proj1 (@compute_hash_is_fnv1a x86_64_linux (bytes "1.2.3.4")
                    (bytes "443") (bytes "deadbeefdeadbeefdeadbeef"))).
    intros _. repeat split; repeat constructor; vm_compute; reflexivity.
  - apply (proj2 (@compute_hash_is_fnv1a x86_64_linux
                    (bytes "caf" ++ ["233"%char]) (bytes "443")
                    (repeat "255"%char 64 ++ bytes "another")));
      reflexivity.
Defined.

(** Where plain [char] is signed, a byte above 0x7f is sign-extended before
    the XOR, and the result is not the FNV-1a digest of the bytes. *)
Lemma compute_hash_sign_extends :
  @compute_hash x86_64_linux (bytes "caf" ++ ["233"%char] ++ bytes ".example.org")
    (bytes "443") (bytes "deadbeefdeadbeefdeadbeef")
  <> fnv1a (hashed_bytes (bytes "caf" ++ ["233"%char] ++ bytes ".example.org")
              (bytes "443") (bytes "deadbeefdeadbeefdeadbeef")).
Proof. vm_compute. discriminate. Qed.
(** ** sanitize_string (C6) *)

Lemma sanitize_scan_collapse (s written : cstring) (space_flag : bool) :
  sanitize_scan s written space_flag =
  written ++ collapse_runs (space_flag || (strlen written =? 0))
               (filter is_printable s).
Proof.
  revert written space_flag.
  induction s as [|c s IH]; intros written space_flag.
  - simpl. rewrite app_nil_r. reflexivity.
  - cbn [sanitize_scan filter]. destruct (is_printable c) eqn:Hp.
    + unfold is_space_char. cbn [collapse_runs].
      destruct (is_blank c) eqn:Hb.
      * destruct space_flag; cbn [negb andb orb].
        -- apply IH.
        -- destruct (Z.ltb_spec 0 (strlen written)) as [Hpos|Hzero].
           ++ rewrite IH, <- app_assoc.
              replace (strlen written =? 0) with false
                by (symmetry; apply Z.eqb_neq; lia).
              reflexivity.
           ++ rewrite IH.
              replace (strlen written =? 0) with true
                by (symmetry; apply Z.eqb_eq; pose proof (strlen_nonneg written); lia).
              reflexivity.
      * rewrite IH, <- app_assoc. rewrite strlen_app, strlen_cons.
        replace (strlen written + (1 + strlen []) =? 0) with false
          by (symmetry; apply Z.eqb_neq;
              pose proof (strlen_nonneg written); unfold strlen at 2; simpl; lia).
        reflexivity.
    + apply IH.
Qed.

Lemma collapse_runs_no_leading_blank (t : cstring) :
  drop_leading_blanks (collapse_runs true t) = collapse_runs true t.
Proof.
  induction t as [|c t IH]; [reflexivity|].
  cbn [collapse_runs]. destruct (is_blank c) eqn:Hb; [exact IH|].
  cbn [drop_leading_blanks]. rewrite Hb. reflexivity.
Qed.

Lemma collapse_runs_drop_leading (t : cstring) :
  collapse_runs true t = drop_leading_blanks (collapse_runs false t).
Proof.
  destruct t as [|c t]; [reflexivity|].
  cbn [collapse_runs]. destruct (is_blank c) eqn:Hb.
  - cbn [drop_leading_blanks].
    replace (is_blank " "%char) with true by reflexivity.
    symmetry. apply collapse_runs_no_leading_blank.
  - cbn [drop_leading_blanks]. rewrite Hb. reflexivity.
Qed.

Lemma collapse_runs_printable (b : bool) (t : cstring) :
  Forall (fun c => is_printable c = true) t ->
  Forall (fun c => is_printable c = true) (collapse_runs b t).
Proof.
  intro H. revert b. induction H as [|c t Hc Ht IH]; intro b; [constructor|].
  cbn [collapse_runs]. destruct (is_blank c); [destruct b|]; auto.
Qed.

Lemma filter_printable (s : cstring) :
  Forall (fun c => is_printable c = true) (filter is_printable s).
Proof.
  apply Forall_forall. intros c Hc. apply filter_In in Hc. apply Hc.
Qed.

Lemma drop_leading_blanks_suffix (s : cstring) :
  exists blanks, s = blanks ++ drop_leading_blanks s
                 /\ Forall (fun c => is_blank c = true) blanks.
Proof.
  induction s as [|c s [blanks [Heq Hall]]].
  - exists []. split; [reflexivity|constructor].
  - cbn [drop_leading_blanks]. destruct (is_blank c) eqn:Hb.
    + exists (c :: blanks). split; [simpl; f_equal; exact Heq|].
      constructor; assumption.
    + exists []. split; [reflexivity|constructor].
Qed.

Lemma drop_leading_blanks_printable (s : cstring) :
  Forall (fun c => is_printable c = true) s ->
  Forall (fun c => is_printable c = true) (drop_leading_blanks s).
Proof.
  intro H. destruct (drop_leading_blanks_suffix s) as [blanks [Heq _]].
  rewrite Heq in H. apply Forall_app in H. apply H.
Qed.

(** On printable text the trailing loop, which looks for spaces and tabs,
    removes exactly the trailing blanks. *)
Lemma trim_trailing_rev_blanks (s : cstring) :
  Forall (fun c => is_printable c = true) s ->
  trim_trailing_rev s = drop_leading_blanks s.
Proof.
  induction 1 as [|c s Hc Hs IH]; [reflexivity|].
  cbn [trim_trailing_rev drop_leading_blanks].
  assert (Heq : (code c =? 32) || (code c =? 9) = is_blank c).
  { unfold is_blank. unfold is_printable in Hc.
    apply andb_prop in Hc. destruct Hc as [Hlo _]. apply Z.leb_le in Hlo.
    destruct (Z.eqb_spec (code c) 32); [reflexivity|].
    destruct (Z.eqb_spec (code c) 9); [lia|].
    destruct (Z.eqb_spec (code c) 10); [lia|].
    destruct (Z.eqb_spec (code c) 13); [lia|]. reflexivity. }
  rewrite Heq, IH. reflexivity.
Qed.

Lemma sanitized_both_ends (s : cstring) : sanitized s = both_ends_sanitize s.
Proof.
  unfold sanitized, both_ends_sanitize, trim_trailing, drop_trailing_blanks.
  rewrite sanitize_scan_collapse. cbn [app orb].
  replace (strlen [] =? 0) with true by reflexivity.
  rewrite collapse_runs_drop_leading.
  rewrite trim_trailing_rev_blanks; [reflexivity|].
  apply Forall_rev, drop_leading_blanks_printable, collapse_runs_printable,
    filter_printable.
Qed.

Lemma collapse_runs_app (b : bool) (x y : cstring) :
  exists rest, collapse_runs b (x ++ y) = collapse_runs b x ++ rest.
Proof.
  revert b. induction x as [|c x IH]; intro b.
  - exists (collapse_runs b y). reflexivity.
  - cbn [app collapse_runs]. destruct (is_blank c).
    + destruct b.
      * apply IH.
      * destruct (IH true) as [rest Hr]. exists rest. rewrite Hr. reflexivity.
    + destruct (IH false) as [rest Hr]. exists rest. rewrite Hr. reflexivity.
Qed.

Lemma drop_trailing_blanks_split (s : cstring) :
  exists blanks, s = drop_trailing_blanks s ++ blanks
                 /\ Forall (fun c => is_blank c = true) blanks.
Proof.
  unfold drop_trailing_blanks.
  destruct (drop_leading_blanks_suffix (rev s)) as [blanks [Heq Hall]].
  exists (rev blanks). split; [|apply Forall_rev; exact Hall].
  rewrite <- rev_app_distr, <- Heq, rev_involutive. reflexivity.
Qed.

Lemma drop_leading_blanks_head (s : cstring) (c : ascii) (t : cstring) :
  drop_leading_blanks s = c :: t -> is_blank c = false.
Proof.
  induction s as [|d s IH]; [discriminate|].
  cbn [drop_leading_blanks]. destruct (is_blank d) eqn:Hd; [exact IH|].
  intro H. injection H as <- _. exact Hd.
Qed.

Lemma drop_trailing_blanks_last (s t : cstring) (c : ascii) :
  drop_trailing_blanks s = t ++ [c] -> is_blank c = false.
Proof.
  unfold drop_trailing_blanks. intro H.
  apply (f_equal (@rev ascii)) in H.
  rewrite rev_involutive, rev_app_distr in H. cbn in H.
  eapply drop_leading_blanks_head. exact H.
Qed.

(** Text that ends in no blank and starts [y] also starts [y] without its
    trailing blanks. *)
Lemma prefix_of_trimmed (p y : cstring) :
  (forall t c, p = t ++ [c] -> is_blank c = false) ->
  is_prefix p y -> is_prefix p (drop_trailing_blanks y).
Proof.
  intros Hlast [r Hy].
  destruct (drop_trailing_blanks_split y) as [blanks [Hsplit Hblanks]].
  remember (drop_trailing_blanks y) as d eqn:Hd. clear Hd.
  rewrite Hy in Hsplit.
  apply app_eq_app in Hsplit. destruct Hsplit as [l [[Hp Hb]|[Ht Hr]]].
  - destruct l as [|c0 l0] using rev_ind.
    + rewrite app_nil_r in Hp. subst d. exists []. rewrite app_nil_r. reflexivity.
    + rewrite app_assoc in Hp.
      specialize (Hlast _ _ Hp).
      rewrite Hb in Hblanks. apply Forall_app in Hblanks.
      destruct Hblanks as [Hl _]. apply Forall_app in Hl.
      destruct Hl as [_ Hc]. inversion Hc; subst. congruence.
  - exists l. exact Ht.
Qed.

Lemma sanitized_prefix (s t : cstring) :
  is_prefix (sanitized s) (sanitized (s ++ t)).
Proof.
  rewrite !sanitized_both_ends. unfold both_ends_sanitize.
  rewrite filter_app, <- !collapse_runs_drop_leading.
  destruct (collapse_runs_app true (filter is_printable s) (filter is_printable t))
    as [rest Hrest].
  rewrite Hrest.
  apply prefix_of_trimmed.
  - intros u c. apply drop_trailing_blanks_last.
  - destruct (drop_trailing_blanks_split (collapse_runs true (filter is_printable s)))
      as [blanks [Hsplit _]].
    exists (blanks ++ rest). rewrite app_assoc, <- Hsplit. reflexivity.
Qed.

Lemma collapse_runs_length (b : bool) (t : cstring) :
  strlen (collapse_runs b t) <= strlen t.
Proof.
  revert b. induction t as [|c t IH]; intro b; [reflexivity|].
  pose proof (IH true). pose proof (IH false).
  cbn [collapse_runs]. destruct (is_blank c); [destruct b|];
    rewrite ?strlen_cons; lia.
Qed.

Lemma sanitized_length (s : cstring) : strlen (sanitized s) <= strlen s.
Proof.
  rewrite sanitized_both_ends. unfold both_ends_sanitize.
  rewrite <- collapse_runs_drop_leading.
  destruct (drop_trailing_blanks_split (collapse_runs true (filter is_printable s)))
    as [blanks [Hsplit _]].
  pose proof (collapse_runs_length true (filter is_printable s)) as Hc.
  rewrite Hsplit, strlen_app in Hc.
  pose proof (strlen_nonneg blanks).
  assert (strlen (filter is_printable s) <= strlen s).
  { unfold strlen. pose proof (filter_length_le is_printable s). lia. }
  lia.
Qed.

(** C6 (as amended).  [sanitize_string] removes the bytes outside
    0x20..0x7e (tab, CR and LF among them), turns every run of spaces into
    one space, and drops the blanks at both ends, not only the trailing
    ones.  The result is a function of the input alone, never longer than
    the input, and the result for an initial segment of an input is an
    initial segment of the result for the whole input. *)
Theorem sanitize_string_both_ends (s : cstring) :
  sanitize_string (Some s) = Some (both_ends_sanitize s)
  /\ strlen (both_ends_sanitize s) <= strlen s
  /\ forall t, exists rest,
       sanitize_string (Some (s ++ t)) = Some (both_ends_sanitize s ++ rest).
Proof.
  split; [|split].
  - cbn [sanitize_string]. f_equal. apply sanitized_both_ends.
  - rewrite <- sanitized_both_ends. apply sanitized_length.
  - intro t. destruct (sanitized_prefix s t) as [rest Hrest].
    exists rest. cbn [sanitize_string]. rewrite <- sanitized_both_ends.
    f_equal. exact Hrest.
Qed.

(** The wording promises only that trailing whitespace is trimmed; a
    leading blank is dropped too. *)
Lemma sanitize_string_drops_leading_blank :
  sanitize_string (Some (bytes " 1.2.3.4")) <> Some (worded_sanitize (bytes " 1.2.3.4")).
Proof. vm_compute. discriminate. Qed.
(** ** validate_proxy (C3) *)

Lemma count_chars_cons (f : ascii -> bool) (c : ascii) (s : cstring) :
  count_chars f (c :: s) = (if f c then 1 else 0) + count_chars f s.
Proof.
  unfold count_chars. cbn [filter]. destruct (f c); cbn [List.length]; lia.
Qed.

Lemma scan_secret_spec (s : cstring) (i valid_chars hex_chars : Z) :
  0 <= i <= 128 ->
  scan_secret i s valid_chars hex_chars =
  let seen := firstn (Z.to_nat (128 - i)) s in
  if forallb secret_char_ok seen
  then Some (valid_chars + count_chars (fun c => is_hex c || is_pad c) seen,
             hex_chars + count_chars is_hex seen)
  else None.
Proof.
  revert i valid_chars hex_chars.
  induction s as [|c s IH]; intros i v h Hi; cbn zeta.
  - rewrite firstn_nil. cbn. rewrite !Z.add_0_r. reflexivity.
  - cbn [scan_secret]. destruct (Z.ltb_spec i 128) as [Hlt|Hge].
    + replace (Z.to_nat (128 - i)) with (S (Z.to_nat (128 - (i + 1)))) by lia.
      cbn [firstn forallb]. rewrite !count_chars_cons.
      unfold secret_char_ok at 1.
      destruct (is_hex c) eqn:Hhex; cbn [orb andb].
      { rewrite IH by lia. cbn zeta.
        destruct (forallb _ _); [|reflexivity]. f_equal; f_equal; lia. }
      destruct (is_pad c) eqn:Hpad; cbn [orb andb].
      { rewrite IH by lia. cbn zeta.
        destruct (forallb _ _); [|reflexivity]. f_equal; f_equal; lia. }
      destruct (is_blank c) eqn:Hblank; cbn [negb orb andb]; [|reflexivity].
      rewrite IH by lia. cbn zeta.
      destruct (forallb _ _); [|reflexivity]. f_equal; f_equal; lia.
    + replace (Z.to_nat (128 - i)) with O by lia.
      cbn. rewrite !Z.add_0_r. reflexivity.
Qed.

Lemma decimal_value_fold (digits : cstring) :
  decimal_value digits = fold_left decimal_step digits 0.
Proof. reflexivity. Qed.

Lemma isdigit_range (c : ascii) : isdigit c = true -> 48 <= code c <= 57.
Proof.
  unfold isdigit. intro H. apply andb_prop in H. destruct H as [H1 H2].
  apply Z.leb_le in H1. apply Z.leb_le in H2. lia.
Qed.

Lemma isdigit_not_space (c : ascii) : isdigit c = true -> isspace c = false.
Proof.
  intro H. apply isdigit_range in H. unfold isspace.
  destruct (Z.eqb_spec (code c) 32); [lia|].
  destruct (Z.leb_spec 9 (code c)); [|reflexivity].
  destruct (Z.leb_spec (code c) 13); [lia|reflexivity].
Qed.

Lemma strtol_digits_all (digits : cstring) (acc : Z) :
  forallb isdigit digits = true ->
  strtol_digits acc digits = (fold_left decimal_step digits acc, []).
Proof.
  revert acc. induction digits as [|c ds IH]; intros acc H; [reflexivity|].
  cbn [forallb] in H. apply andb_prop in H. destruct H as [Hc Hds].
  cbn [strtol_digits fold_left]. rewrite Hc. apply IH, Hds.
Qed.

Lemma strtol_digits_split (s : cstring) (acc : Z) :
  exists digits rest,
    s = digits ++ rest /\ forallb isdigit digits = true
    /\ strtol_digits acc s = (fold_left decimal_step digits acc, rest).
Proof.
  revert acc. induction s as [|c s IH]; intro acc.
  - exists [], []. repeat split.
  - cbn [strtol_digits]. destruct (isdigit c) eqn:Hc.
    + destruct (IH (acc * 10 + (code c - 48))) as [ds [rest [Hs [Hds Hrun]]]].
      exists (c :: ds), rest. split; [simpl; f_equal; exact Hs|].
      split; [cbn [forallb]; rewrite Hc; exact Hds|]. exact Hrun.
    + exists [], (c :: s). repeat split.
Qed.

Lemma decimal_fold_bounds (digits : cstring) (acc : Z) :
  forallb isdigit digits = true -> 0 <= acc ->
  0 <= fold_left decimal_step digits acc
       < (acc + 1) * 10 ^ Z.of_nat (List.length digits).
Proof.
  revert acc. induction digits as [|c ds IH]; intros acc H Hacc.
  - cbn. lia.
  - cbn [forallb] in H. apply andb_prop in H. destruct H as [Hc Hds].
    apply isdigit_range in Hc. cbn [fold_left List.length].
    specialize (IH (decimal_step acc c) Hds). unfold decimal_step in *.
    assert (Hstep : 0 <= acc * 10 + (code c - 48)) by lia.
    specialize (IH Hstep). split; [lia|].
    rewrite Nat2Z.inj_succ, Z.pow_succ_r by lia.
    assert (Hpow : 0 < 10 ^ Z.of_nat (List.length ds))
      by (apply Z.pow_pos_nonneg; lia).
    nia.
Qed.

Lemma decimal_value_small (digits : cstring) :
  forallb isdigit digits = true -> strlen digits <= 15 ->
  0 <= decimal_value digits <= LONG_MAX.
Proof.
  intros H Hlen. rewrite decimal_value_fold.
  pose proof (decimal_fold_bounds digits 0 H ltac:(lia)) as [Hlo Hhi].
  split; [exact Hlo|].
  assert (10 ^ Z.of_nat (List.length digits) <= 10 ^ 15)
    by (apply Z.pow_le_mono_r; unfold strlen in Hlen; lia).
  unfold LONG_MAX. lia.
Qed.

Lemma skip_spaces_app (blanks rest : cstring) :
  forallb isspace blanks = true ->
  (forall c t, rest = c :: t -> isspace c = false) ->
  skip_spaces (blanks ++ rest) = rest.
Proof.
  intros Hb Hrest. induction blanks as [|b bs IH].
  - cbn [app]. destruct rest as [|c t]; [reflexivity|].
    cbn [skip_spaces]. rewrite (Hrest c t eq_refl). reflexivity.
  - cbn [forallb] in Hb. apply andb_prop in Hb. destruct Hb as [Hb Hbs].
    cbn [app skip_spaces]. rewrite Hb. apply IH, Hbs.
Qed.

Lemma skip_spaces_split (s : cstring) :
  exists blanks,
    s = blanks ++ skip_spaces s /\ forallb isspace blanks = true.
Proof.
  induction s as [|c s [blanks [Hs Hb]]].
  - exists []. split; reflexivity.
  - cbn [skip_spaces]. destruct (isspace c) eqn:Hc.
    + exists (c :: blanks). split; [simpl; f_equal; exact Hs|].
      cbn [forallb]. rewrite Hc. exact Hb.
    + exists []. split; reflexivity.
Qed.

Lemma strtol_clamp_id (v : Z) : LONG_MIN <= v <= LONG_MAX -> strtol_clamp v = v.
Proof.
  intro H. unfold strtol_clamp.
  destruct (Z.gtb_spec v LONG_MAX); [lia|].
  destruct (Z.ltb_spec v LONG_MIN); [lia|reflexivity].
Qed.

Lemma strtol_clamp_port (v : Z) :
  1 <= strtol_clamp v <= 65535 -> strtol_clamp v = v.
Proof.
  unfold strtol_clamp, LONG_MAX, LONG_MIN.
  destruct (Z.gtb_spec v (2 ^ 63 - 1)); [lia|].
  destruct (Z.ltb_spec v (- 2 ^ 63)); [lia|reflexivity].
Qed.

Lemma port_accepted_parses (port : cstring) :
  port_rejected port = false ->
  exists v, parses_as port v /\ 1 <= v <= 65535.
Proof.
  unfold port_rejected, strtol.
  destruct (skip_spaces_split port) as [blanks [Hport Hblanks]].
  remember (skip_spaces port) as s1 eqn:Hs1. clear Hs1.
  set (signed := match s1 with
                 | c :: rest =>
                     if code c =? 45 then (true, rest)
                     else if code c =? 43 then (false, rest) else (false, s1)
                 | [] => (false, s1)
                 end).
  assert (Hsign : exists sign, s1 = sign ++ snd signed
            /\ (sign = [] /\ fst signed = false
                \/ sign = ["+"%char] /\ fst signed = false
                \/ sign = ["-"%char] /\ fst signed = true)).
  { subst signed. destruct s1 as [|c rest].
    - exists []. split; [reflexivity|]. left. split; reflexivity.
    - destruct (Z.eqb_spec (code c) 45) as [H45|H45].
      + exists [c]. split; [reflexivity|]. right. right. split; [|reflexivity].
        f_equal. unfold code in H45.
        apply (f_equal Z.to_N) in H45. rewrite N2Z.id in H45.
        apply (f_equal ascii_of_N) in H45. rewrite ascii_N_embedding in H45.
        exact H45.
      + destruct (Z.eqb_spec (code c) 43) as [H43|H43].
        * exists [c]. split; [reflexivity|]. right. left. split; [|reflexivity].
          f_equal. unfold code in H43.
          apply (f_equal Z.to_N) in H43. rewrite N2Z.id in H43.
          apply (f_equal ascii_of_N) in H43. rewrite ascii_N_embedding in H43.
          exact H43.
        * exists []. split; [reflexivity|]. left. split; reflexivity. }
  destruct signed as [negative s2]. cbn [fst snd] in Hsign.
  destruct Hsign as [sign [Hs1 Hsigns]].
  destruct s2 as [|c s2'].
  { cbn. discriminate. }
  destruct (isdigit c) eqn:Hc.
  2:{ cbn. discriminate. }
  destruct (strtol_digits_split (c :: s2') 0) as [digits [rest [Hs2 [Hdigits Hrun]]]].
  rewrite Hrun. intro Hok.
  apply orb_false_elim in Hok. destruct Hok as [Hok Hhi].
  apply orb_false_elim in Hok. destruct Hok as [Hok Hlo].
  apply orb_false_elim in Hok. destruct Hok as [Hzero Hend].
  apply negb_false_iff in Hend. apply Z.eqb_eq in Hend.
  assert (Hrest : rest = []).
  { assert (strlen rest = 0) by lia. destruct rest; [reflexivity|].
    rewrite strlen_cons in H. pose proof (strlen_nonneg rest). lia. }
  subst rest. rewrite app_nil_r in Hs2.
  apply Z.ltb_ge in Hlo. rewrite Z.gtb_ltb in Hhi. apply Z.ltb_ge in Hhi.
  pose proof (strtol_clamp_port _ (conj Hlo Hhi)) as Hclamp.
  rewrite Hclamp in Hlo, Hhi.
  exists (if negative then - fold_left decimal_step digits 0
          else fold_left decimal_step digits 0).
  split; [|lia].
  exists blanks, sign, digits. rewrite <- Hs2.
  split; [rewrite Hport at 1; rewrite Hs1; reflexivity|].
  split; [exact Hblanks|].
  split.
  { rewrite decimal_value_fold, Hs2.
    destruct Hsigns as [[-> ->]|[[-> ->]|[-> ->]]]; auto. }
  split; [discriminate|]. rewrite Hs2. exact Hdigits.
Qed.

Lemma port_parses_accepted (port : cstring) (v : Z) :
  strlen port <= 15 -> parses_as port v -> 1 <= v <= 65535 ->
  port_rejected port = false.
Proof.
  intros Hlen [blanks [sign [digits [Hport [Hblanks [Hsign [Hne Hdigits]]]]]]] Hv.
  destruct digits as [|d ds]; [congruence|]. clear Hne.
  assert (Hd : isdigit d = true)
    by (cbn [forallb] in Hdigits; apply andb_prop in Hdigits; apply Hdigits).
  assert (Hdlen : strlen (d :: ds) <= 15).
  { rewrite Hport, !strlen_app in Hlen.
    pose proof (strlen_nonneg blanks). pose proof (strlen_nonneg sign). lia. }
  pose proof (decimal_value_small (d :: ds) Hdigits Hdlen) as Hsmall.
  assert (Hpos : sign <> ["-"%char]).
  { intro Hs. destruct Hsign as [[? ?]|[[? ?]|[_ Hval]]]; try congruence. lia. }
  assert (Hval : v = decimal_value (d :: ds))
    by (destruct Hsign as [[_ ?]|[[_ ?]|[? _]]]; congruence).
  assert (Hskip : skip_spaces port = sign ++ d :: ds).
  { rewrite Hport. apply skip_spaces_app; [exact Hblanks|].
    intros c t Hct.
    destruct Hsign as [[-> _]|[[-> _]|[-> _]]]; cbn [app] in Hct;
      injection Hct as <- _; [apply isdigit_not_space, Hd| |]; reflexivity. }
  unfold port_rejected, strtol. rewrite Hskip.
  assert (Hrun : strtol_digits 0 (d :: ds) = (decimal_value (d :: ds), []))
    by (apply strtol_digits_all, Hdigits).
  pose proof (isdigit_range d Hd) as Hdr.
  assert (Hfinal :
    (let '(port_value, endptr) :=
       (strtol_clamp (decimal_value (d :: ds)), strlen port - strlen []) in
     (endptr =? 0) || negb (endptr =? strlen port)
     || (port_value <? 1) || (port_value >? 65535)) = false).
  { rewrite strtol_clamp_id by (unfold LONG_MIN; lia).
    replace (strlen port - strlen []) with (strlen port)
      by (unfold strlen at 3; simpl; lia).
    assert (1 <= strlen port).
    { rewrite Hport, !strlen_app, strlen_cons.
      pose proof (strlen_nonneg blanks). pose proof (strlen_nonneg sign).
      pose proof (strlen_nonneg ds). lia. }
    rewrite Z.eqb_refl.
    replace (strlen port =? 0) with false by (symmetry; apply Z.eqb_neq; lia).
    replace (decimal_value (d :: ds) <? 1) with false
      by (symmetry; apply Z.ltb_ge; lia).
    replace (decimal_value (d :: ds) >? 65535) with false
      by (symmetry; rewrite Z.gtb_ltb; apply Z.ltb_ge; lia).
    reflexivity. }
  destruct Hsign as [[-> _]|[[-> _]|[-> _]]]; [| |congruence].
  - cbn [app].
    replace (code d =? 45) with false by (symmetry; apply Z.eqb_neq; lia).
    replace (code d =? 43) with false by (symmetry; apply Z.eqb_neq; lia).
    rewrite Hd, Hrun. exact Hfinal.
  - cbn [app].
    replace (code "+"%char =? 45) with false by reflexivity.
    replace (code "+"%char =? 43) with true by reflexivity.
    rewrite Hd, Hrun. exact Hfinal.
Qed.

Lemma validate_proxy_unfold (server port secret : cstring) :
  validate_proxy (Some server) (Some port) (Some secret) =
  if (strlen server <? 4) || (strlen server >? 253) then false
  else if (strlen port <? 1) || (strlen port >? 15) then false
  else if (strlen secret <? 16) || (strlen secret >? 511) then false
  else if port_rejected port then false
  else
    let seen := firstn 128 secret in
    forallb secret_char_ok seen
    && (count_chars (fun c => is_hex c || is_pad c) seen >=? 16)
    && (count_chars is_hex seen >=? 8).
Proof.
  unfold validate_proxy, port_rejected.
  destruct (strtol port) as [port_value endptr].
  rewrite scan_secret_spec by lia. cbn zeta.
  replace (Z.to_nat (128 - 0)) with 128%nat by reflexivity.
  destruct (forallb secret_char_ok (firstn 128 secret)); reflexivity.
Qed.

Lemma length_window (len lo hi : Z) :
  (len <? lo) || (len >? hi) = false <-> lo <= len <= hi.
Proof.
  rewrite orb_false_iff, Z.ltb_ge, Z.gtb_ltb, Z.ltb_ge. lia.
Qed.

Lemma validate_proxy_iff_checked (server port secret : cstring) :
  validate_proxy (Some server) (Some port) (Some secret) = true
  <-> checked_valid server port secret.
Proof.
  rewrite validate_proxy_unfold. unfold checked_valid. cbn zeta. split.
  - destruct (_ || _) eqn:Hserver; [discriminate|].
    destruct (_ || _) eqn:Hport in |- *; [discriminate|].
    destruct (_ || _) eqn:Hsecret in |- *; [discriminate|].
    destruct (port_rejected port) eqn:Hparse; [discriminate|].
    apply length_window in Hserver, Hport, Hsecret.
    intro H. apply andb_prop in H. destruct H as [H Hhex].
    apply andb_prop in H. destruct H as [Hall Hvalid].
    rewrite Z.geb_le in Hhex, Hvalid.
    repeat split; try lia; try assumption.
    apply port_accepted_parses, Hparse.
  - intros (Hserver & Hport & [v [Hparse Hv]] & Hsecret & Hall & Hhex & Hvalid).
    apply length_window in Hserver, Hport, Hsecret.
    rewrite Hserver, Hport, Hsecret.
    rewrite (port_parses_accepted port v) by (try assumption; apply length_window in Hport; lia).
    rewrite Hall. cbn [andb].
    apply andb_true_intro. split; apply Z.geb_le; assumption.
Qed.

Lemma validate_proxy_port_rejected (server port secret : cstring) :
  port_rejected port = true ->
  validate_proxy (Some server) (Some port) (Some secret) = false.
Proof.
  intro H. rewrite validate_proxy_unfold, H.
  repeat match goal with |- (if ?b then _ else _) = _ => destruct b end;
    reflexivity.
Qed.

(** C3 (as amended).  [validate_proxy] accepts a triple exactly when the
    server has 4 to 253 characters; the port has 1 to 15 characters and is
    read completely by [strtol] (blanks, an optional sign, decimal digits)
    as a number from 1 to 65535; and the secret has 16 to 511 characters,
    of which the first 128 are hex digits, '=' or blanks, at least 8 of
    them hex digits and at least 16 hex digits or '='.  It rejects the
    ports "0", "65536" and "abc", a secret of length 10, a secret with
    another character among its first 128, and a server of more than 253
    characters. *)
Theorem validate_proxy_checked (server port secret : cstring) :
  (validate_proxy (Some server) (Some port) (Some secret) = true
   <-> checked_valid server port secret)
  /\ validate_proxy (Some server) (Some (bytes "0")) (Some secret) = false
  /\ validate_proxy (Some server) (Some (bytes "65536")) (Some secret) = false
  /\ validate_proxy (Some server) (Some (bytes "abc")) (Some secret) = false
  /\ (strlen secret = 10 ->
      validate_proxy (Some server) (Some port) (Some secret) = false)
  /\ ((exists c, In c (firstn 128 secret) /\ secret_char_ok c = false) ->
      validate_proxy (Some server) (Some port) (Some secret) = false)
  /\ (253 < strlen server ->
      validate_proxy (Some server) (Some port) (Some secret) = false).
Proof.
  split; [apply validate_proxy_iff_checked|].
  repeat split.
  - apply validate_proxy_port_rejected. reflexivity.
  - apply validate_proxy_port_rejected. reflexivity.
  - apply validate_proxy_port_rejected. reflexivity.
  - intro Hlen. apply not_true_is_false. intro H.
    apply validate_proxy_iff_checked in H.
    destruct H as (_ & _ & _ & Hsecret & _). lia.
  - intros [c [Hin Hc]]. apply not_true_is_false. intro H.
    apply validate_proxy_iff_checked in H.
    destruct H as (_ & _ & _ & _ & Hall & _).
    rewrite forallb_forall in Hall. rewrite (Hall c Hin) in Hc. discriminate.
  - intro Hlen. apply not_true_is_false. intro H.
    apply validate_proxy_iff_checked in H.
    destruct H as (Hserver & _). lia.
Qed.

(** A character that is none of hex digit, '=' and blank goes unnoticed
    after the first 128 characters of the secret. *)
Lemma validate_proxy_skips_tail :
  validate_proxy (Some (bytes "1.2.3.4")) (Some (bytes "443"))
    (Some (repeat "a"%char 128 ++ bytes "!!")) = true
  /\ ~ worded_valid (bytes "1.2.3.4") (bytes "443")
         (repeat "a"%char 128 ++ bytes "!!").
Proof.
  split; [reflexivity|].
  intros (_ & _ & _ & Hall & _). vm_compute in Hall. discriminate.
Qed.

(** A sign is part of what [strtol] reads: the port "+443" is accepted. *)
Example validate_proxy_signed_port :
  validate_proxy (Some (bytes "1.2.3.4")) (Some (bytes "+443"))
    (Some (bytes "deadbeefdeadbeefdeadbeef")) = true.
Proof. reflexivity. Qed.

(** A port of more than 15 characters is rejected although it reads as
    a number in range. *)
Lemma validate_proxy_long_port :
  validate_proxy (Some (bytes "1.2.3.4")) (Some (bytes "0000000000000443"))
    (Some (bytes "deadbeefdeadbeefdeadbeef")) = false
  /\ worded_valid (bytes "1.2.3.4") (bytes "0000000000000443")
       (bytes "deadbeefdeadbeefdeadbeef").
Proof.
  split; [reflexivity|].
  unfold worded_valid. repeat split; try (vm_compute; congruence).
  exists 443. split; [|lia].
  exists [], [], (bytes "0000000000000443").
  repeat split; try reflexivity; try discriminate. left. split; reflexivity.
Qed.

(** ** The merge (C2, C5) *)

Lemma duplicate_found_spec (records : list ProxyRecord) (h : Z) :
  duplicate_found records h = true <-> In h (hashes records).
Proof.
  induction records as [|r rs IH]; cbn [duplicate_found hashes map In].
  - split; [discriminate|tauto].
  - destruct (Z.eqb_spec (hash_value r) h) as [Heq|Hne].
    + split; auto.
    + rewrite IH. unfold hashes. split; [auto|]. intros [H|H]; [contradiction|exact H].
Qed.

Lemma duplicate_found_hashes (a b : list ProxyRecord) (h : Z) :
  hashes a = hashes b -> duplicate_found a h = duplicate_found b h.
Proof.
  intro H. destruct (duplicate_found a h) eqn:Ha.
  - symmetry. apply duplicate_found_spec. rewrite <- H.
    apply duplicate_found_spec, Ha.
  - symmetry. apply not_true_is_false. intro Hb.
    apply duplicate_found_spec in Hb. rewrite <- H in Hb.
    apply duplicate_found_spec in Hb. congruence.
Qed.

Lemma hashes_app (a b : list ProxyRecord) : hashes (a ++ b) = hashes a ++ hashes b.
Proof. apply map_app. Qed.

Lemma hashes_length (a : list ProxyRecord) :
  List.length (hashes a) = List.length a.
Proof. apply length_map. Qed.

(** What the merge loop returns, in terms of the records it appended. *)
Lemma merge_loop_appends (discovered storage : list ProxyRecord)
    (added_count : Z) (s : SystemStatistics) :
  exists added,
    fst (fst (merge_loop discovered storage added_count s)) = storage ++ added
    /\ incl added discovered
    /\ snd (fst (merge_loop discovered storage added_count s))
       = added_count + Z.of_nat (List.length added)
    /\ (added = [] -> snd (merge_loop discovered storage added_count s) = s).
Proof.
  revert storage added_count s.
  induction discovered as [|d rest IH]; intros storage added_count s.
  - exists []. cbn. rewrite app_nil_r. repeat split; [apply incl_refl|lia].
  - cbn [merge_loop].
    destruct (Z.of_nat (List.length storage) <? PROXY_CAPACITY); cbn [negb].
    2:{ exists []. cbn. rewrite app_nil_r.
        repeat split; [apply incl_nil_l|lia]. }
    destruct (duplicate_found storage (hash_value d)).
    + destruct (IH storage added_count s) as [added (H1 & H2 & H3 & H4)].
      exists added. repeat split; try assumption. apply incl_tl, H2.
    + destruct (IH (storage ++ [d]) (added_count + 1) (count_added s))
        as [added (H1 & H2 & H3 & H4)].
      exists (d :: added). rewrite H1, H3, <- app_assoc.
      repeat split.
      * apply incl_cons; [left; reflexivity|apply incl_tl, H2].
      * cbn [List.length]. lia.
      * discriminate.
Qed.

Lemma merge_loop_bounded (discovered storage : list ProxyRecord)
    (added_count : Z) (s : SystemStatistics) :
  Z.of_nat (List.length storage) <= PROXY_CAPACITY ->
  Z.of_nat (List.length (fst (fst (merge_loop discovered storage added_count s))))
  <= PROXY_CAPACITY.
Proof.
  revert storage added_count s.
  induction discovered as [|d rest IH]; intros storage added_count s Hle;
    [exact Hle|].
  cbn [merge_loop].
  destruct (Z.ltb_spec (Z.of_nat (List.length storage)) PROXY_CAPACITY) as [Hlt|Hge];
    cbn [negb]; [|exact Hle].
  destruct (duplicate_found storage (hash_value d)); apply IH; [exact Hle|].
  rewrite length_app. cbn [List.length]. lia.
Qed.

Lemma merge_loop_nodup (discovered storage : list ProxyRecord)
    (added_count : Z) (s : SystemStatistics) :
  NoDup (hashes storage) ->
  NoDup (hashes (fst (fst (merge_loop discovered storage added_count s)))).
Proof.
  revert storage added_count s.
  induction discovered as [|d rest IH]; intros storage added_count s Hnd;
    [exact Hnd|].
  cbn [merge_loop].
  destruct (Z.of_nat (List.length storage) <? PROXY_CAPACITY); cbn [negb];
    [|exact Hnd].
  destruct (duplicate_found storage (hash_value d)) eqn:Hdup; apply IH;
    [exact Hnd|].
  rewrite hashes_app. cbn [hashes map].
  apply NoDup_app; [exact Hnd|repeat constructor; intros []|].
  intros h Hin [Hh|[]]. subst h.
  apply duplicate_found_spec in Hin. congruence.
Qed.

(** When the loop is over, the store is full or holds every hash of the
    batch. *)
Lemma merge_loop_covers (discovered storage : list ProxyRecord)
    (added_count : Z) (s : SystemStatistics) :
  let storage' := fst (fst (merge_loop discovered storage added_count s)) in
  PROXY_CAPACITY <= Z.of_nat (List.length storage')
  \/ incl (hashes discovered) (hashes storage').
Proof.
  revert storage added_count s.
  induction discovered as [|d rest IH]; intros storage added_count s; cbn zeta.
  - right. apply incl_nil_l.
  - cbn [merge_loop].
    destruct (Z.ltb_spec (Z.of_nat (List.length storage)) PROXY_CAPACITY) as [Hlt|Hge];
      cbn [negb]; [|left; exact Hge].
    destruct (duplicate_found storage (hash_value d)) eqn:Hdup.
    + destruct (IH storage added_count s) as [Hfull|Hincl]; [left; exact Hfull|].
      right. cbn [hashes map]. apply incl_cons; [|exact Hincl].
      destruct (merge_loop_appends rest storage added_count s) as [added [Heq _]].
      rewrite Heq, hashes_app. apply in_or_app. left.
      apply duplicate_found_spec, Hdup.
    + destruct (IH (storage ++ [d]) (added_count + 1) (count_added s))
        as [Hfull|Hincl]; [left; exact Hfull|].
      right. cbn [hashes map]. apply incl_cons; [|exact Hincl].
      destruct (merge_loop_appends rest (storage ++ [d]) (added_count + 1)
                  (count_added s)) as [added [Heq _]].
      rewrite Heq, !hashes_app. apply in_or_app. left. apply in_or_app. right.
      left. reflexivity.
Qed.

(** A batch whose hashes are all stored, or any batch once the store is
    full, leaves store and statistics as they are. *)
Lemma merge_loop_nothing_new (discovered storage : list ProxyRecord)
    (added_count : Z) (s : SystemStatistics) :
  PROXY_CAPACITY <= Z.of_nat (List.length storage)
  \/ incl (hashes discovered) (hashes storage) ->
  merge_loop discovered storage added_count s = (storage, added_count, s).
Proof.
  revert storage added_count s.
  induction discovered as [|d rest IH]; intros storage added_count s H;
    [reflexivity|].
  cbn [merge_loop].
  destruct (Z.ltb_spec (Z.of_nat (List.length storage)) PROXY_CAPACITY) as [Hlt|Hge];
    cbn [negb]; [|reflexivity].
  destruct H as [Hfull|Hincl]; [lia|].
  assert (Hd : duplicate_found storage (hash_value d) = true).
  { apply duplicate_found_spec, Hincl. left. reflexivity. }
  rewrite Hd. apply IH. right. intros h Hh. apply Hincl. right. exact Hh.
Qed.

Lemma merge_batch_storage (batch : list ProxyRecord) (w : World) :
  proxy_storage (merge_batch batch w)
  = fst (fst (merge_loop batch (proxy_storage w) 0 (stats w))).
Proof.
  unfold merge_batch. destruct batch as [|r rs]; [reflexivity|].
  replace (0 <? Z.of_nat (List.length (r :: rs))) with true
    by (symmetry; apply Z.ltb_lt; cbn [List.length]; lia).
  destruct (merge_loop (r :: rs) (proxy_storage w) 0 (stats w)) as [[st a] s].
  reflexivity.
Qed.

Lemma merge_batch_appends (batch : list ProxyRecord) (w : World) :
  exists added,
    proxy_storage (merge_batch batch w) = proxy_storage w ++ added
    /\ incl added batch.
Proof.
  rewrite merge_batch_storage.
  destruct (merge_loop_appends batch (proxy_storage w) 0 (stats w))
    as [added (H1 & H2 & _)].
  exists added. split; assumption.
Qed.

Lemma merge_batch_nothing_new (batch : list ProxyRecord) (w : World) :
  PROXY_CAPACITY <= total_proxies w
  \/ incl (hashes batch) (hashes (proxy_storage w)) ->
  proxy_storage (merge_batch batch w) = proxy_storage w
  /\ unique_proxies (stats (merge_batch batch w)) = unique_proxies (stats w)
  /\ successful_proxies (stats (merge_batch batch w)) = successful_proxies (stats w).
Proof.
  intro H. unfold merge_batch.
  destruct (0 <? Z.of_nat (List.length batch)); [|repeat split].
  rewrite merge_loop_nothing_new by exact H. repeat split.
Qed.

Lemma merge_all_appends (batches : list (list ProxyRecord)) (w : World) :
  exists added, proxy_storage (merge_all batches w) = proxy_storage w ++ added.
Proof.
  revert w. induction batches as [|b bs IH]; intro w.
  - exists []. cbn. rewrite app_nil_r. reflexivity.
  - cbn [merge_all fold_left]. destruct (IH (merge_batch b w)) as [added Ha].
    destruct (merge_batch_appends b w) as [added0 [Hb _]].
    exists (added0 ++ added). unfold merge_all in Ha. rewrite Ha, Hb, app_assoc.
    reflexivity.
Qed.

Lemma merge_all_bounded (batches : list (list ProxyRecord)) (w : World) :
  total_proxies w <= PROXY_CAPACITY ->
  total_proxies (merge_all batches w) <= PROXY_CAPACITY.
Proof.
  revert w. induction batches as [|b bs IH]; intros w Hle; [exact Hle|].
  cbn [merge_all fold_left]. apply IH. unfold total_proxies.
  rewrite merge_batch_storage. apply merge_loop_bounded, Hle.
Qed.

Lemma merge_all_nodup (batches : list (list ProxyRecord)) (w : World) :
  NoDup (hashes (proxy_storage w)) ->
  NoDup (hashes (proxy_storage (merge_all batches w))).
Proof.
  revert w. induction batches as [|b bs IH]; intros w Hnd; [exact Hnd|].
  cbn [merge_all fold_left]. apply IH.
  rewrite merge_batch_storage. apply merge_loop_nodup, Hnd.
Qed.

Lemma count_hash_cons (h : Z) (r : ProxyRecord) (rs : list ProxyRecord) :
  count_hash h (r :: rs)
  = ((if (hash_value r =? h)%Z then 1 else 0) + count_hash h rs)%nat.
Proof.
  unfold count_hash. cbn [filter]. destruct (hash_value r =? h); reflexivity.
Qed.

Lemma count_hash_absent (h : Z) (rs : list ProxyRecord) :
  ~ In h (hashes rs) -> count_hash h rs = O.
Proof.
  induction rs as [|r rs IH]; intro Hnot; [reflexivity|].
  rewrite count_hash_cons. cbn [hashes map In] in Hnot.
  destruct (Z.eqb_spec (hash_value r) h); [tauto|].
  apply IH. intro Hin. apply Hnot. right. exact Hin.
Qed.

Lemma nodup_count_hash (h : Z) (rs : list ProxyRecord) :
  NoDup (hashes rs) -> (count_hash h rs <= 1)%nat.
Proof.
  induction rs as [|r rs IH]; intro Hnd; [cbn; lia|].
  cbn [hashes map] in Hnd. inversion Hnd as [|x l Hnot Hrest]; subst.
  rewrite count_hash_cons. destruct (Z.eqb_spec (hash_value r) h) as [Heq|Hne].
  - subst h. rewrite count_hash_absent by exact Hnot. lia.
  - specialize (IH Hrest). lia.
Qed.

(** ** The shutdown flag as a thread observes it *)

Lemma load_result (e : Env) : fst (load_program_active e) = program_active e.
Proof.
  destruct e as [[[|n]|] calls]; reflexivity.
Qed.

Lemma load_down (e : Env) :
  program_active e = false -> load_program_active e = (false, e).
Proof.
  destruct e as [[[|n]|] calls]; cbn; try discriminate. reflexivity.
Qed.

(** A thread that still sees the flag up has seen it up at every earlier
    load. *)
Lemma load_was_active (e : Env) :
  program_active (snd (load_program_active e)) = true ->
  fst (load_program_active e) = true.
Proof.
  destruct e as [[[|n]|] calls]; cbn; try discriminate; reflexivity.
Qed.

Lemma load_active_before (e : Env) :
  program_active (snd (load_program_active e)) = true -> program_active e = true.
Proof.
  destruct e as [[[|n]|] calls]; cbn; congruence.
Qed.

Lemma load_stays_down (e : Env) :
  fst (load_program_active e) = false ->
  program_active (snd (load_program_active e)) = false.
Proof.
  destruct e as [[[|n]|] calls]; cbn; congruence.
Qed.

(** ** One match *)

Section EngineFacts.
Context {T : Target} {C : Collaborators}.

Lemma process_match_cases (content : list ascii) (src : cstring)
    (mv : nat -> Z) (d : list ProxyRecord) (e : Env) :
  exists e',
    active_loads e' = active_loads e
    /\ (process_match content src mv d e = (d, e')
        \/ exists server port secret t1 t2,
             process_match content src mv d e
             = (d ++ [new_record server port secret src t1 t2], e')
             /\ captured_fields content mv = Some (server, port, secret)
             /\ validate_proxy (Some server) (Some port) (Some secret) = true
             /\ duplicate_found d (compute_hash server port secret) = false
             /\ Z.of_nat (List.length d) < PROXY_BATCH_SIZE).
Proof.
  unfold process_match.
  destruct (captured_fields content mv) as [[[server port] secret]|].
  2:{ exists e. split; [reflexivity|left; reflexivity]. }
  destruct (validate_proxy _ _ _) eqn:Hvalid; cbn [negb].
  2:{ exists e. split; [reflexivity|left; reflexivity]. }
  cbn [time_now]. cbv zeta. cbn [hash_value new_record].
  destruct (duplicate_found d _) eqn:Hdup.
  { eexists. split; [|left; reflexivity]. reflexivity. }
  destruct (Z.ltb_spec (Z.of_nat (List.length d)) PROXY_BATCH_SIZE) as [Hlt|Hge].
  2:{ eexists. split; [|left; reflexivity]. reflexivity. }
  eexists. split; [|right; do 5 eexists; repeat split; eauto]. reflexivity.
Qed.

Lemma is_ip_forallb (s : cstring) :
  is_ip s = forallb (fun c => isdigit c || (code c =? 46)) s.
Proof.
  induction s as [|c s IH]; [reflexivity|].
  cbn [is_ip forallb]. rewrite IH. unfold isdigit.
  destruct (Z.ltb_spec (code c) 48), (Z.gtb_spec (code c) 57),
    (Z.eqb_spec (code c) 46), (Z.leb_spec 48 (code c)),
    (Z.leb_spec (code c) 57); cbn; try reflexivity; lia.
Qed.

Lemma new_record_created (sv pt sc src : cstring) (t1 t2 : Z) :
  validate_proxy (Some sv) (Some pt) (Some sc) = true ->
  created_fields (new_record sv pt sc src t1 t2).
Proof.
  intro Hvalid. unfold created_fields.
  cbn [new_record server port secret country active verified speed_score type].
  repeat split; try assumption; rewrite <- is_ip_forallb; intros ->; reflexivity.
Qed.

(** The hashes a match leaves in the batch depend on the content, the
    match and the hashes already there, not on the source tag, the clock
    or the moment of the termination request. *)
Lemma process_match_hashes (content : list ascii) (srcA srcB : cstring)
    (mv : nat -> Z) (dA dB : list ProxyRecord) (eA eB : Env) :
  hashes dA = hashes dB ->
  hashes (fst (process_match content srcA mv dA eA))
  = hashes (fst (process_match content srcB mv dB eB)).
Proof.
  intro Hd. unfold process_match.
  destruct (captured_fields content mv) as [[[server port] secret]|];
    [|exact Hd].
  destruct (validate_proxy _ _ _); cbn [negb]; [|exact Hd].
  cbn [time_now]. cbv zeta. cbn [hash_value new_record].
  rewrite (duplicate_found_hashes dA dB _ Hd).
  destruct (duplicate_found dB _); [exact Hd|].
  assert (Hlen : List.length dA = List.length dB)
    by (rewrite <- (hashes_length dA), <- (hashes_length dB), Hd; reflexivity).
  rewrite Hlen.
  destruct (Z.of_nat (List.length dB) <? PROXY_BATCH_SIZE); [|exact Hd].
  cbn [fst]. rewrite !hashes_app, Hd. reflexivity.
Qed.

Lemma process_match_env (content : list ascii) (src : cstring)
    (mv : nat -> Z) (d : list ProxyRecord) (e : Env) :
  active_loads (snd (process_match content src mv d e)) = active_loads e.
Proof.
  destruct (process_match_cases content src mv d e) as [e' [He H]].
  destruct H as [H|(sv & pt & sc & t1 & t2 & H & _)]; rewrite H; exact He.
Qed.

Lemma process_match_active (content : list ascii) (src : cstring)
    (mv : nat -> Z) (d : list ProxyRecord) (e : Env) :
  program_active (snd (process_match content src mv d e)) = program_active e.
Proof.
  unfold program_active. rewrite process_match_env. reflexivity.
Qed.

(** ** Invariants of the two loops *)

(** A property of batches that one match keeps is kept by the loops. *)
Section LoopInvariant.
Variable content : list ascii.
Variable content_length : Z.
Variable src : cstring.
Variable P : list ProxyRecord -> Prop.
Hypothesis P_match : forall mv d e,
  P d -> P (fst (process_match content src mv d e)).

Lemma match_loop_keeps (fuel : nat) (code : pcre2_code) (offset : Z)
    (d : list ProxyRecord) (e : Env) (d' : list ProxyRecord) (e' : Env) :
  P d ->
  match_loop fuel code content content_length src offset d e = Some (d', e') ->
  P d'.
Proof.
  revert offset d e. induction fuel as [|fuel IH]; intros offset d e Hd;
    [discriminate|].
  cbn [match_loop].
  destruct (offset <? content_length); cbn [negb];
    [|intro H; injection H as <- _; exact Hd].
  destruct (Z.of_nat (List.length d) <? PROXY_BATCH_SIZE); cbn [negb];
    [|intro H; injection H as <- _; exact Hd].
  destruct (load_program_active e) as [running e1].
  destruct running; cbn [negb]; [|intro H; injection H as <- _; exact Hd].
  destruct (pcre2_match code content content_length offset) as [rc mv].
  destruct (rc <? 4); [intro H; injection H as <- _; exact Hd|].
  pose proof (P_match mv d e1 Hd) as Hstep.
  destruct (process_match content src mv d e1) as [d1 e2]. cbn [fst] in Hstep.
  destruct (u64 (mv 1%nat + 1) >=? content_length);
    [intro H; injection H as <- _; exact Hstep|].
  apply IH, Hstep.
Qed.

Lemma pattern_loop_keeps (fuel : nat) (patterns : list cstring)
    (d : list ProxyRecord) (e : Env) (d' : list ProxyRecord) (e' : Env) :
  P d ->
  pattern_loop fuel patterns content content_length src d e = Some (d', e') ->
  P d'.
Proof.
  revert d e. induction patterns as [|pattern patterns IH]; intros d e Hd.
  - intro H. injection H as <- _. exact Hd.
  - cbn [pattern_loop].
    destruct (load_program_active e) as [running e1].
    destruct running; cbn [negb]; [|intro H; injection H as <- _; exact Hd].
    destruct (pcre2_compile pattern) as [code|]; [|apply IH, Hd].
    destruct (pcre2_match_data_create_from_pattern code); cbn [negb];
      [|apply IH, Hd].
    destruct (match_loop fuel code content content_length src 0 d e1)
      as [[d1 e2]|] eqn:Hloop; [|discriminate].
    apply IH. eapply match_loop_keeps; eauto.
Qed.
End LoopInvariant.

Lemma process_match_extends (content : list ascii) (src : cstring)
    (mv : nat -> Z) (d0 d : list ProxyRecord) (e : Env) :
  (exists added, d = d0 ++ added) ->
  exists added, fst (process_match content src mv d e) = d0 ++ added.
Proof.
  intros [added Hd].
  destruct (process_match_cases content src mv d e) as [e' [_ H]].
  destruct H as [H|(sv & pt & sc & t1 & t2 & H & _)]; rewrite H; cbn [fst].
  - exists added. exact Hd.
  - eexists. rewrite Hd, <- app_assoc. reflexivity.
Qed.

Lemma process_match_created (content : list ascii) (src : cstring)
    (mv : nat -> Z) (d : list ProxyRecord) (e : Env) :
  Forall created_fields d ->
  Forall created_fields (fst (process_match content src mv d e)).
Proof.
  intro Hd.
  destruct (process_match_cases content src mv d e) as [e' [_ H]].
  destruct H as [H|(sv & pt & sc & t1 & t2 & H & _ & Hvalid & _)];
    rewrite H; cbn [fst]; [exact Hd|].
  apply Forall_app. split; [exact Hd|].
  constructor; [|constructor]. apply new_record_created, Hvalid.
Qed.

Lemma pattern_loop_extends (fuel : nat) (patterns : list cstring)
    (content : list ascii) (content_length : Z) (src : cstring)
    (d : list ProxyRecord) (e : Env) (d' : list ProxyRecord) (e' : Env) :
  pattern_loop fuel patterns content content_length src d e = Some (d', e') ->
  exists added, d' = d ++ added.
Proof.
  apply (pattern_loop_keeps content content_length src
           (fun x => exists added, x = d ++ added)).
  - intros mv x e0. apply process_match_extends.
  - exists []. rewrite app_nil_r. reflexivity.
Qed.

Lemma match_loop_extends (fuel : nat) (code : pcre2_code)
    (content : list ascii) (content_length : Z) (src : cstring) (offset : Z)
    (d : list ProxyRecord) (e : Env) (d' : list ProxyRecord) (e' : Env) :
  match_loop fuel code content content_length src offset d e = Some (d', e') ->
  exists added, d' = d ++ added.
Proof.
  apply (match_loop_keeps content content_length src
           (fun x => exists added, x = d ++ added)).
  - intros mv x e0. apply process_match_extends.
  - exists []. rewrite app_nil_r. reflexivity.
Qed.
End EngineFacts.

(** ** Feeding the same content twice *)

Section Replay.
Context {T : Target} {C : Collaborators}.
Variable content : list ascii.
Variable content_length : Z.

Lemma match_loop_active_before (fuel : nat) (code : pcre2_code)
    (src : cstring) (offset : Z) (d : list ProxyRecord) (e : Env)
    (d' : list ProxyRecord) (e' : Env) :
  match_loop fuel code content content_length src offset d e = Some (d', e') ->
  program_active e' = true -> program_active e = true.
Proof.
  revert offset d e. induction fuel as [|fuel IH]; intros offset d e;
    [discriminate|].
  cbn [match_loop].
  destruct (offset <? content_length); cbn [negb];
    [|intro H; injection H as _ <-; auto].
  destruct (Z.of_nat (List.length d) <? PROXY_BATCH_SIZE); cbn [negb];
    [|intro H; injection H as _ <-; auto].
  pose proof (load_active_before e) as Hload.
  destruct (load_program_active e) as [running e1]. cbn [snd] in Hload.
  destruct running; cbn [negb]; [|intro H; injection H as _ <-; auto].
  destruct (pcre2_match code content content_length offset) as [rc mv].
  destruct (rc <? 4); [intro H; injection H as _ <-; auto|].
  pose proof (process_match_active content src mv d e1) as Hstep.
  destruct (process_match content src mv d e1) as [d1 e2]. cbn [snd] in Hstep.
  destruct (u64 (mv 1%nat + 1) >=? content_length).
  - intro H. injection H as _ <-. intro Ha. apply Hload. congruence.
  - intros H Ha. apply Hload. rewrite <- Hstep. eapply IH; eauto.
Qed.

Lemma pattern_loop_active_before (fuel : nat) (patterns : list cstring)
    (src : cstring) (d : list ProxyRecord) (e : Env)
    (d' : list ProxyRecord) (e' : Env) :
  pattern_loop fuel patterns content content_length src d e = Some (d', e') ->
  program_active e' = true -> program_active e = true.
Proof.
  revert d e. induction patterns as [|pattern patterns IH]; intros d e.
  - intro H. injection H as _ <-. auto.
  - cbn [pattern_loop].
    pose proof (load_active_before e) as Hload.
    destruct (load_program_active e) as [running e1]. cbn [snd] in Hload.
    destruct running; cbn [negb]; [|intro H; injection H as _ <-; auto].
    destruct (pcre2_compile pattern) as [code|];
      [|intros H Ha; apply Hload; eapply IH; eauto].
    destruct (pcre2_match_data_create_from_pattern code); cbn [negb];
      [|intros H Ha; apply Hload; eapply IH; eauto].
    destruct (match_loop fuel code content content_length src 0 d e1)
      as [[d1 e2]|] eqn:Hloop; [|discriminate].
    intros H Ha. apply Hload.
    eapply match_loop_active_before; [exact Hloop|]. eapply IH; eauto.
Qed.

Lemma pattern_loop_down (fuel : nat) (patterns : list cstring)
    (src : cstring) (d : list ProxyRecord) (e : Env) :
  program_active e = false ->
  pattern_loop fuel patterns content content_length src d e = Some (d, e).
Proof.
  intro Hdown. destruct patterns as [|pattern patterns]; [reflexivity|].
  cbn [pattern_loop]. rewrite (load_down e Hdown). reflexivity.
Qed.

Variables srcA srcB : cstring.

(** Two runs of the match loop from the same offset on batches with the
    same hashes: while the second sees the flag up it finds the same
    hashes as the first; when it sees it down it stops with some of them. *)
Lemma match_loop_replay (fuel : nat) (code : pcre2_code) (offset : Z)
    (dA dB : list ProxyRecord) (eA eB : Env)
    (dA' dB' : list ProxyRecord) (eA' eB' : Env) :
  hashes dA = hashes dB ->
  match_loop fuel code content content_length srcA offset dA eA = Some (dA', eA') ->
  program_active eA' = true ->
  match_loop fuel code content content_length srcB offset dB eB = Some (dB', eB') ->
  hashes dB' = hashes dA'
  \/ (program_active eB' = false /\ incl (hashes dB') (hashes dA')).
Proof.
  revert offset dA dB eA eB.
  induction fuel as [|fuel IH]; intros offset dA dB eA eB Hd HA Hactive HB;
    [discriminate|].
  pose proof (match_loop_extends _ _ _ _ _ _ _ _ _ _ HA) as [addedA HextA].
  pose proof (match_loop_active_before _ _ _ _ _ _ _ _ HA Hactive) as HeA.
  cbn [match_loop] in HA, HB.
  destruct (offset <? content_length); cbn [negb] in HA, HB.
  2:{ injection HA as <- _. injection HB as <- _. left. congruence. }
  assert (Hlen : List.length dA = List.length dB)
    by (rewrite <- (hashes_length dA), <- (hashes_length dB), Hd; reflexivity).
  rewrite Hlen in HA.
  destruct (Z.of_nat (List.length dB) <? PROXY_BATCH_SIZE); cbn [negb] in HA, HB.
  2:{ injection HA as <- _. injection HB as <- _. left. congruence. }
  pose proof (load_result eA) as HrA. rewrite HeA in HrA.
  destruct (load_program_active eA) as [runA eA1]. cbn [fst] in HrA. subst runA.
  cbn [negb] in HA.
  pose proof (load_stays_down eB) as HdownB.
  destruct (load_program_active eB) as [runB eB1]. cbn [fst snd] in HdownB.
  destruct runB; cbn [negb] in HB.
  2:{ injection HB as <- <-. right. split; [auto|].
      rewrite HextA, hashes_app, Hd. apply incl_appl, incl_refl. }
  destruct (pcre2_match code content content_length offset) as [rc mv].
  destruct (rc <? 4).
  { injection HA as <- _. injection HB as <- _. left. congruence. }
  pose proof (process_match_hashes content srcA srcB mv dA dB eA1 eB1 Hd) as Hstep.
  destruct (process_match content srcA mv dA eA1) as [dA1 eA2].
  destruct (process_match content srcB mv dB eB1) as [dB1 eB2].
  cbn [fst] in Hstep.
  destruct (u64 (mv 1%nat + 1) >=? content_length).
  { injection HA as <- _. injection HB as <- _. left. congruence. }
  eapply IH; eauto.
Qed.

Lemma pattern_loop_replay (fuel : nat) (patterns : list cstring)
    (dA dB : list ProxyRecord) (eA eB : Env)
    (dA' dB' : list ProxyRecord) (eA' eB' : Env) :
  hashes dA = hashes dB ->
  pattern_loop fuel patterns content content_length srcA dA eA = Some (dA', eA') ->
  program_active eA' = true ->
  pattern_loop fuel patterns content content_length srcB dB eB = Some (dB', eB') ->
  incl (hashes dB') (hashes dA').
Proof.
  revert dA dB eA eB.
  induction patterns as [|pattern patterns IH];
    intros dA dB eA eB Hd HA Hactive HB.
  { injection HA as <- _. injection HB as <- _. rewrite Hd. apply incl_refl. }
  pose proof (pattern_loop_extends _ _ _ _ _ _ _ _ _ HA) as [addedA HextA].
  pose proof (pattern_loop_active_before _ _ _ _ _ _ _ HA Hactive) as HeA.
  cbn [pattern_loop] in HA, HB.
  pose proof (load_result eA) as HrA. rewrite HeA in HrA.
  destruct (load_program_active eA) as [runA eA1]. cbn [fst] in HrA. subst runA.
  cbn [negb] in HA.
  destruct (load_program_active eB) as [runB eB1].
  destruct runB; cbn [negb] in HB.
  2:{ injection HB as <- _.
      rewrite HextA, hashes_app, Hd. apply incl_appl, incl_refl. }
  destruct (pcre2_compile pattern) as [code|]; [|eapply IH; eauto].
  destruct (pcre2_match_data_create_from_pattern code); cbn [negb] in HA, HB;
    [|eapply IH; eauto].
  destruct (match_loop fuel code content content_length srcA 0 dA eA1)
    as [[dA1 eA2]|] eqn:HloopA; [|discriminate].
  destruct (match_loop fuel code content content_length srcB 0 dB eB1)
    as [[dB1 eB2]|] eqn:HloopB; [|discriminate].
  pose proof (pattern_loop_active_before _ _ _ _ _ _ _ HA Hactive) as HeA2.
  destruct (match_loop_replay _ _ _ _ _ _ _ _ _ _ _ Hd HloopA HeA2 HloopB)
    as [Hsame|[Hdown Hincl]].
  - eapply IH; [symmetry; exact Hsame|exact HA|exact Hactive|exact HB].
  - rewrite (pattern_loop_down _ _ _ _ _ Hdown) in HB. injection HB as <- _.
    pose proof (pattern_loop_extends _ _ _ _ _ _ _ _ _ HA) as [added Hext].
    rewrite Hext, hashes_app. apply incl_appl, Hincl.
Qed.
End Replay.

(** ** Termination of the loops (C7) *)

Section Termination.
Context {T : Target} {C : Collaborators}.
Hypothesis contract : matcher_contract.
Variable content : list ascii.
Variable content_length : Z.
Variable src : cstring.
Hypothesis length_fits : content_length < 2 ^ 64 - 1.

Lemma next_offset_advances (code : pcre2_code) (offset rc : Z) (mv : nat -> Z) :
  0 <= offset < content_length ->
  pcre2_match code content content_length offset = (rc, mv) ->
  4 <= rc ->
  u64 (mv 1%nat + 1) = mv 1%nat + 1 /\ offset < u64 (mv 1%nat + 1).
Proof.
  intros Hoff Hm Hrc.
  pose proof (contract code content content_length offset rc mv Hoff
                length_fits Hm Hrc) as Hend.
  assert (Hu : u64 (mv 1%nat + 1) = mv 1%nat + 1)
    by (unfold u64; apply Z.mod_small; lia).
  rewrite Hu. split; [reflexivity|lia].
Qed.

Lemma match_loop_returns (fuel : nat) (code : pcre2_code) (offset : Z)
    (d : list ProxyRecord) (e : Env) :
  0 <= offset ->
  (Z.to_nat (content_length - offset) < fuel)%nat ->
  exists result,
    match_loop fuel code content content_length src offset d e = Some result.
Proof.
  revert offset d e. induction fuel as [|fuel IH]; intros offset d e Hoff Hfuel;
    [lia|].
  cbn [match_loop].
  destruct (Z.ltb_spec offset content_length) as [Hlt|Hge]; cbn [negb];
    [|eexists; reflexivity].
  destruct (Z.of_nat (List.length d) <? PROXY_BATCH_SIZE); cbn [negb];
    [|eexists; reflexivity].
  destruct (load_program_active e) as [running e1].
  destruct running; cbn [negb]; [|eexists; reflexivity].
  destruct (pcre2_match code content content_length offset) as [rc mv] eqn:Hm.
  destruct (Z.ltb_spec rc 4) as [Hrc|Hrc]; [eexists; reflexivity|].
  destruct (next_offset_advances code offset rc mv (conj Hoff Hlt) Hm Hrc)
    as [Hu Hadv].
  destruct (process_match content src mv d e1) as [d1 e2].
  destruct (Z.geb_spec (u64 (mv 1%nat + 1)) content_length) as [Hdone|Hmore];
    [eexists; reflexivity|].
  apply IH; lia.
Qed.

Lemma pattern_loop_returns (patterns : list cstring)
    (d : list ProxyRecord) (e : Env) :
  exists result,
    pattern_loop (match_fuel content_length) patterns content content_length
      src d e = Some result.
Proof.
  revert d e. induction patterns as [|pattern patterns IH]; intros d e;
    [eexists; reflexivity|].
  cbn [pattern_loop].
  destruct (load_program_active e) as [running e1].
  destruct running; cbn [negb]; [|eexists; reflexivity].
  destruct (pcre2_compile pattern) as [code|]; [|apply IH].
  destruct (pcre2_match_data_create_from_pattern code); cbn [negb]; [|apply IH].
  destruct (match_loop_returns (match_fuel content_length) code 0 d e1)
    as [[d1 e2] Hloop]; [lia|unfold match_fuel; lia|].
  rewrite Hloop. apply IH.
Qed.
End Termination.

(** ** Properties of the store and the engine *)

Section StoreProperties.
Context {T : Target} {C : Collaborators}.

(** The ways a call of [extract_proxies_from_content] ends: at once, or
    after the pattern loop with a merge. *)
Lemma feed_step (f : Feed) (w w' : World) (e' : Env) :
  feed f w = Some (w', e') ->
  (w' = w
   /\ (feed_content f = None \/ feed_length f = 0
       \/ program_active e' = false \/ feed_malloc_ok f = false))
  \/ exists content discovered,
       feed_content f = Some content
       /\ feed_length f <> 0
       /\ pattern_loop (match_fuel (feed_length f)) PARSE_PATTERNS content
            (feed_length f) (feed_source f) []
            (snd (load_program_active (feed_env f)))
          = Some (discovered, e')
       /\ w' = merge_batch discovered w.
Proof.
  unfold feed, extract_proxies_from_content.
  destruct (feed_content f) as [content|];
    [|intro H; injection H as <- _; left; split; [reflexivity|left; reflexivity]].
  destruct (Z.eqb_spec (feed_length f) 0) as [Hzero|Hzero];
    [intro H; injection H as <- _; left; split;
     [reflexivity|right; left; exact Hzero]|].
  pose proof (load_stays_down (feed_env f)) as Hdown.
  destruct (load_program_active (feed_env f)) as [running e1].
  cbn [fst snd] in Hdown.
  destruct running; cbn [negb];
    [|intro H; injection H as <- <-; left; split;
      [reflexivity|right; right; left; apply Hdown; reflexivity]].
  destruct (feed_malloc_ok f); cbn [negb];
    [|intro H; injection H as <- _; left; split;
      [reflexivity|right; right; right; reflexivity]].
  destruct (pattern_loop _ _ _ _ _ _ _) as [[discovered e2]|] eqn:Hloop;
    [|discriminate].
  intro H. injection H as <- <-. right.
  exists content, discovered. repeat split; assumption.
Qed.

Lemma feed_appends_created (f : Feed) (w w' : World) (e' : Env) :
  feed f w = Some (w', e') ->
  exists added,
    proxy_storage w' = proxy_storage w ++ added
    /\ Forall created_fields added.
Proof.
  intro H. apply feed_step in H.
  destruct H as [[-> _]|(content & discovered & _ & _ & Hloop & ->)].
  - exists []. rewrite app_nil_r. split; [reflexivity|constructor].
  - destruct (merge_batch_appends discovered w) as [added [Heq Hincl]].
    exists added. split; [exact Heq|].
    assert (Hall : Forall created_fields discovered).
    { eapply (pattern_loop_keeps content (feed_length f) (feed_source f)
                (Forall created_fields)); [|constructor|exact Hloop].
      intros mv d e0. apply process_match_created. }
    rewrite Forall_forall in *. intros r Hr. apply Hall, Hincl, Hr.
Qed.

Lemma reachable_created (w : World) :
  reachable w -> Forall created_fields (proxy_storage w).
Proof.
  induction 1 as [|w f w' e' Hreach IH Hfeed]; [constructor|].
  destruct (feed_appends_created f w w' e' Hfeed) as [added [Heq Hadded]].
  rewrite Heq. apply Forall_app. split; assumption.
Qed.

(** C8.  Every record of the store passed [validate_proxy] on its
    sanitized fields and carries country "UN", active 1, verified 0,
    speed score 50 and the type "IPv4" when its server consists of digits
    and dots, "Domain" otherwise; and a further extraction leaves the
    records already stored as they are, adding only records of that
    kind. *)
Theorem stored_records_created (w : World) :
  reachable w ->
  Forall created_fields (proxy_storage w)
  /\ forall f w' e',
       feed f w = Some (w', e') ->
       exists added,
         proxy_storage w' = proxy_storage w ++ added
         /\ Forall created_fields added.
Proof.
  intro Hreach. split; [|intros f w' e'; apply feed_appends_created].
  apply reachable_created, Hreach.
Qed.

(** C5.  Merging never takes the store past 1,000,000 records, whatever
    the batches; a merge only appends to the store; and a merge into a
    store that holds 1,000,000 records leaves the store and the count of
    unique proxies as they are. *)
Theorem merge_respects_capacity (w : World) (batch : list ProxyRecord) :
  total_proxies w <= PROXY_CAPACITY ->
  (forall batches, total_proxies (merge_all batches w) <= PROXY_CAPACITY)
  /\ (exists added, proxy_storage (merge_batch batch w) = proxy_storage w ++ added)
  /\ (total_proxies w = PROXY_CAPACITY ->
      proxy_storage (merge_batch batch w) = proxy_storage w
      /\ unique_proxies (stats (merge_batch batch w)) = unique_proxies (stats w)).
Proof.
  intro Hle. split; [|split].
  - intro batches. apply merge_all_bounded, Hle.
  - destruct (merge_batch_appends batch w) as [added [Heq _]].
    exists added. exact Heq.
  - intro Hfull.
    destruct (merge_batch_nothing_new batch w) as (H1 & H2 & _); [left; lia|].
    split; assumption.
Qed.

(** C2.  After any sequence of merges the store holds at most one record
    of each hash.  And when a document has been fed while the program
    kept running, feeding the same content again, after any further
    merges, adds no record and leaves the count of unique proxies as it
    is. *)
Theorem store_dedup_idempotent (batches : list (list ProxyRecord)) (h : Z) :
  (count_hash h (proxy_storage (merge_all batches initial_world)) <= 1)%nat
  /\ forall (w : World) (first again : Feed) (w1 : World) (e1 : Env)
            (later : list (list ProxyRecord)) (w2 : World) (e2 : Env),
       feed first w = Some (w1, e1) ->
       feed_malloc_ok first = true ->
       program_active e1 = true ->
       feed_content again = feed_content first ->
       feed_length again = feed_length first ->
       feed again (merge_all later w1) = Some (w2, e2) ->
       proxy_storage w2 = proxy_storage (merge_all later w1)
       /\ unique_proxies (stats w2) = unique_proxies (stats (merge_all later w1)).
Proof.
  split.
  { apply nodup_count_hash, merge_all_nodup. constructor. }
  intros w first again w1 e1 later w2 e2 Hfirst Hmalloc Hactive Hcontent
    Hlength Hagain.
  apply feed_step in Hagain.
  destruct Hagain as [[-> _]|(content & dB & HcB & Hnonzero & HloopB & ->)];
    [split; reflexivity|].
  assert (Hnothing :
    PROXY_CAPACITY <= total_proxies (merge_all later w1)
    \/ incl (hashes dB) (hashes (proxy_storage (merge_all later w1)))).
  { destruct (merge_all_appends later w1) as [grown Hgrown].
    apply feed_step in Hfirst.
    destruct Hfirst
      as [[_ [Hnull|[Hzero|[Hdown|Hfail]]]]|(contentA & dA & HcA & _ & HloopA & ->)];
      try congruence.
    rewrite Hcontent, HcA in HcB. injection HcB as ->.
    rewrite Hlength in HloopB.
    pose proof (pattern_loop_replay content (feed_length first)
                  (feed_source first) (feed_source again) _ _ [] [] _ _ _ _ _ _
                  eq_refl HloopA Hactive HloopB) as Hincl.
    pose proof (merge_loop_covers dA (proxy_storage w) 0 (stats w)) as Hcover.
    cbn zeta in Hcover. rewrite <- merge_batch_storage in Hcover.
    unfold total_proxies. rewrite Hgrown, length_app, hashes_app.
    destruct Hcover as [Hfull|Hall]; [left; lia|right].
    apply incl_appl. eapply incl_tran; eassumption. }
  destruct (merge_batch_nothing_new dB (merge_all later w1) Hnothing)
    as (H1 & H2 & _).
  split; assumption.
Qed.
End StoreProperties.

Lemma table_contract (tables : list (cstring * option (list (list Z)))) :
  @matcher_contract (table_collaborators tables).
Proof.
  intros code subject length start_offset rc ovector Hstart Hfits Hmatch Hrc.
  cbn [pcre2_match table_collaborators] in Hmatch. unfold table_search in Hmatch.
  destruct (find _ code) as [ov|] eqn:Hfind.
  - injection Hmatch as <- <-. apply find_some in Hfind.
    destruct Hfind as [_ Hov].
    apply andb_prop in Hov. destruct Hov as [Hov H2].
    apply andb_prop in Hov. destruct Hov as [H0 H1].
    apply Z.leb_le in H0, H1, H2. cbv beta. lia.
  - injection Hmatch as <- _. lia.
Qed.

Lemma full_world_total : total_proxies full_world = PROXY_CAPACITY.
Proof.
  unfold total_proxies, full_world. cbn [proxy_storage].
  rewrite repeat_length. apply Z2Nat.id. unfold PROXY_CAPACITY. lia.
Qed.

(** C7.  With a matcher that keeps the PCRE2 contract, the match loop over
    a buffer returns: the length of the buffer is fuel enough.  A match
    moves the scan offset to one byte past its end, which is beyond the
    offset the search started from, and the loop resumes there; and the
    loop returns at once when the offset has reached the end of the buffer,
    when the batch holds 5000 records, when the flag is down, and when
    there is no further match. *)
Theorem match_loop_terminates {T : Target} {C : Collaborators}
    (code : pcre2_code) (content : list ascii) (content_length : Z)
    (src : cstring) (offset : Z) (d : list ProxyRecord) (e : Env) :
  matcher_contract ->
  0 <= offset -> content_length < 2 ^ 64 - 1 ->
  (exists result,
     match_loop (match_fuel content_length) code content content_length src
       offset d e = Some result)
  /\ (forall fuel rc mv,
        offset < content_length ->
        Z.of_nat (List.length d) < PROXY_BATCH_SIZE ->
        program_active e = true ->
        pcre2_match code content content_length offset = (rc, mv) ->
        4 <= rc ->
        offset < mv 1%nat + 1
        /\ match_loop (S fuel) code content content_length src offset d e
           = let '(d1, e1) :=
               process_match content src mv d (snd (load_program_active e)) in
             if mv 1%nat + 1 >=? content_length then Some (d1, e1)
             else match_loop fuel code content content_length src
                    (mv 1%nat + 1) d1 e1)
  /\ (forall fuel,
        content_length <= offset ->
        match_loop (S fuel) code content content_length src offset d e
        = Some (d, e))
  /\ (forall fuel,
        PROXY_BATCH_SIZE <= Z.of_nat (List.length d) ->
        match_loop (S fuel) code content content_length src offset d e
        = Some (d, e))
  /\ (forall fuel,
        program_active e = false ->
        match_loop (S fuel) code content content_length src offset d e
        = Some (d, e))
  /\ (forall fuel rc mv,
        pcre2_match code content content_length offset = (rc, mv) ->
        rc < 4 ->
        exists e',
          match_loop (S fuel) code content content_length src offset d e
          = Some (d, e')).
Proof.
  intros contract Hoff Hfits.
  split; [|split; [|split; [|split; [|split]]]].
  - apply match_loop_returns; try assumption. unfold match_fuel. lia.
  - intros fuel rc mv Hlt Hroom Hact Hm Hrc.
    destruct (next_offset_advances contract content content_length Hfits
                code offset rc mv (conj Hoff Hlt) Hm Hrc) as [Hu Hadv].
    rewrite Hu in Hadv. split; [exact Hadv|].
    cbn [match_loop].
    replace (offset <? content_length) with true by (symmetry; apply Z.ltb_lt; lia).
    replace (Z.of_nat (List.length d) <? PROXY_BATCH_SIZE) with true
      by (symmetry; apply Z.ltb_lt; lia).
    cbn [negb]. pose proof (load_result e) as Hload. rewrite Hact in Hload.
    destruct (load_program_active e) as [running e1]. cbn [fst snd] in *.
    subst running. cbn [negb]. rewrite Hm.
    replace (rc <? 4) with false by (symmetry; apply Z.ltb_ge; lia).
    rewrite Hu. reflexivity.
  - intros fuel Hge. cbn [match_loop].
    replace (offset <? content_length) with false by (symmetry; apply Z.ltb_ge; lia).
    reflexivity.
  - intros fuel Hfull. cbn [match_loop].
    destruct (offset <? content_length); cbn [negb]; [|reflexivity].
    replace (Z.of_nat (List.length d) <? PROXY_BATCH_SIZE) with false
      by (symmetry; apply Z.ltb_ge; lia).
    reflexivity.
  - intros fuel Hdown. cbn [match_loop].
    destruct (offset <? content_length); cbn [negb]; [|reflexivity].
    destruct (Z.of_nat (List.length d) <? PROXY_BATCH_SIZE); cbn [negb];
      [|reflexivity].
    rewrite (load_down e Hdown). reflexivity.
  - intros fuel rc mv Hm Hrc. cbn [match_loop].
    destruct (offset <? content_length); cbn [negb]; [|eexists; reflexivity].
    destruct (Z.of_nat (List.length d) <? PROXY_BATCH_SIZE); cbn [negb];
      [|eexists; reflexivity].
    destruct (load_program_active e) as [running e1].
    destruct running; cbn [negb]; [|eexists; reflexivity].
    rewrite Hm.
    replace (rc <? 4) with true by (symmetry; apply Z.ltb_lt; lia).
    eexists; reflexivity.
Qed.

Lemma match_loop_terminates_witness :
  exists result,
    @match_loop x86_64_linux sample_collaborators (match_fuel 58)
      [[0; 58; 8; 15; 22; 25; 34; 58]] sample_document 58
      (bytes "https://t.me/s/ProxyMTProto") 0 [] sample_env = Some result.
Proof.
  apply (@match_loop_terminates x86_64_linux sample_collaborators
           [[0; 58; 8; 15; 22; 25; 34; 58]] sample_document 58
           (bytes "https://t.me/s/ProxyMTProto") 0 [] sample_env
           (table_contract _));
    lia.
Defined.

Lemma stored_records_created_witness :
  Forall created_fields (proxy_storage sample_world).
Proof.
  apply (@stored_records_created x86_64_linux sample_collaborators sample_world).
  apply (reachable_extract initial_world sample_feed sample_world
           {| active_loads := None; time_calls := 4 |}).
  - apply reachable_initial.
  - reflexivity.
Defined.

Lemma merge_respects_capacity_witness :
  proxy_storage (merge_batch [zero_record] full_world) = proxy_storage full_world.
Proof.
  apply (merge_respects_capacity full_world [zero_record]).
  - rewrite full_world_total. lia.
  - apply full_world_total.
Defined.

Lemma store_dedup_idempotent_witness :
  match @feed x86_64_linux sample_collaborators sample_feed sample_world with
  | Some (w2, _) =>
      proxy_storage w2 = proxy_storage sample_world
      /\ unique_proxies (stats w2) = unique_proxies (stats sample_world)
  | None => False
  end.
Proof.
  destruct (@feed x86_64_linux sample_collaborators sample_feed sample_world)
    as [[w2 e2]|] eqn:Hagain.
  - apply (proj2 (@store_dedup_idempotent x86_64_linux sample_collaborators [] 0)
             initial_world sample_feed
             sample_feed sample_world {| active_loads := None; time_calls := 4 |}
             [] w2 e2); try reflexivity.
    exact Hagain.
  - vm_compute in Hagain. discriminate.
Defined.

(** ** The checkpoint writer *)

Section WriterFacts.
Context {T : Target} {C : Collaborators}.

Lemma proxies_array_map (cells : list ProxyRecord) :
  proxies_array cells = map proxy_obj (filter is_active cells).
Proof.
  induction cells as [|r cells IH]; [reflexivity|].
  cbn [proxies_array filter]. unfold is_active at 1.
  destruct (active r =? 0); cbn [negb map]; rewrite IH; reflexivity.
Qed.

Lemma url_lines_map (cells : list ProxyRecord) :
  url_lines cells = map connection_url (filter is_active cells).
Proof.
  induction cells as [|r cells IH]; [reflexivity|].
  cbn [url_lines filter]. unfold is_active at 1.
  destruct (active r =? 0); cbn [negb map]; rewrite IH; reflexivity.
Qed.

(** Records merged after the count was sampled are not read. *)
Lemma cells_read_later (storage merged_later : list ProxyRecord) :
  cells_read (Z.of_nat (List.length storage)) (storage ++ merged_later) = storage.
Proof.
  unfold cells_read. rewrite Nat2Z.id, firstn_app, Nat.sub_diag, firstn_all.
  cbn [firstn]. apply app_nil_r.
Qed.





Lemma snprintf_url_cut (sv pt sc : cstring) :
  479 < strlen sv + strlen pt + strlen sc ->
  strlen (snprintf_url sv pt sc) = 511
  /\ strlen (proxy_url sv pt sc) = 32 + strlen sv + strlen pt + strlen sc.
Proof.
  intro Hlen.
  assert (Hfull : strlen (proxy_url sv pt sc)
                  = 32 + strlen sv + strlen pt + strlen sc).
  { unfold proxy_url. rewrite !strlen_app. unfold strlen.
    cbn [bytes list_ascii_of_string List.length]. lia. }
  split; [|exact Hfull].
  unfold snprintf_url, strlen in *. rewrite length_firstn. lia.
Qed.
End WriterFacts.

(** What [snprintf] does to a long URL, seen through a matcher whose
    patterns do compile.  The document ["1.2.3.4:443:" followed by 480 hex
    digits] then yields one record, which passes validation; the
    checkpoint writes one line for it after the header, and that line is
    the 511 bytes [snprintf] left in [connection_url], not the 522 bytes
    of [tg://proxy?server=1.2.3.4&port=443&secret=...] built from the
    record's fields. *)
Example long_url_cut_when_patterns_compile :
  exists w e r checkpoint_written e',
    @feed x86_64_linux long_secret_collaborators long_secret_feed initial_world
    = Some (w, e)
    /\ proxy_storage w = [r]
    /\ active r = 1
    /\ validate_proxy (Some (server r)) (Some (port r)) (Some (secret r)) = true
    /\ @save_proxies_to_json long_secret_collaborators true true true w e
       = (Some checkpoint_written, e')
    /\ proxies_txt checkpoint_written
       = Some (txt_header
                 (@strftime_local long_secret_collaborators
                    (@time_ long_secret_collaborators (time_calls e)))
                 (total_proxies w) (processed_urls (stats w))
                 (unique_proxies (stats w))
               ++ [connection_url r])
    /\ strlen (connection_url r) = 511
    /\ strlen (proxy_url (server r) (port r) (secret r)) = 522
    /\ connection_url r <> proxy_url (server r) (port r) (secret r).
Proof.
  destruct (@feed x86_64_linux long_secret_collaborators long_secret_feed
              initial_world) as [[w e]|] eqn:Hfeed;
    [|vm_compute in Hfeed; discriminate].
  exists w, e. vm_compute in Hfeed. injection Hfeed as <- <-.
  eexists. eexists. eexists.
  split; [reflexivity|]. split; [reflexivity|]. split; [reflexivity|].
  split; [vm_compute; reflexivity|].
  split; [reflexivity|]. split; [reflexivity|].
  split; [reflexivity|]. split; [reflexivity|].
  intro H. apply (f_equal (@List.length ascii)) in H. vm_compute in H. discriminate.
Qed.

(** ** write_callback and the allocation of the batch (C10) *)

(** C10, where the code departs from it.  A buffer grown to the ceiling of
    100 MB holds 104857590 bytes; a further chunk of 100 bytes cannot be
    held.  The callback clamps the new capacity to the ceiling, [realloc]
    succeeds, and the copy runs 90 bytes and the terminator past the end of
    the block; the callback would go on to return 100, not 0. *)
Theorem write_callback_overruns_at_ceiling :
  write_callback (repeat "x"%char 100) 1 100
    (Some {| data := Some (fun _ => "x"%char);
             size := BUFFER_CAPACITY - 10;
             capacity := BUFFER_CAPACITY |}) true true
  = WroteOutside (BUFFER_CAPACITY + 90) BUFFER_CAPACITY.
Proof. reflexivity. Qed.

(** The same for every chunk that does not fit under the ceiling. *)
Lemma write_callback_past_ceiling (content : list ascii)
    (element_size element_count : Z) (block : Z -> ascii) (sz cap : Z) :
  0 <= sz -> 0 <= cap <= BUFFER_CAPACITY ->
  0 <= element_size * element_count < 2 ^ 63 -> sz < 2 ^ 63 ->
  BUFFER_CAPACITY < sz + element_size * element_count + 1 ->
  write_callback content element_size element_count
    (Some {| data := Some block; size := sz; capacity := cap |}) true true
  = WroteOutside (sz + element_size * element_count) BUFFER_CAPACITY.
Proof.
  intros Hsz Hcap Htotal Hsz' Hover. unfold write_callback.
  cbn [negb data size capacity].
  assert (Hu : u64 (element_size * element_count) = element_size * element_count)
    by (unfold u64; apply Z.mod_small; lia).
  rewrite Hu.
  assert (Hn : u64 (sz + element_size * element_count + 1)
               = sz + element_size * element_count + 1)
    by (unfold u64; apply Z.mod_small; lia).
  rewrite Hn.
  replace (sz + element_size * element_count + 1 >? cap) with true
    by (symmetry; rewrite Z.gtb_ltb; apply Z.ltb_lt; lia).
  assert (Hc : u64 (cap * 2) = cap * 2)
    by (unfold u64; apply Z.mod_small; unfold BUFFER_CAPACITY in Hcap; lia).
  rewrite Hc.
  assert (Hover' : (sz + element_size * element_count + 1 >? BUFFER_CAPACITY) = true)
    by (rewrite Z.gtb_ltb; apply Z.ltb_lt; lia).
  destruct (Z.ltb_spec (cap * 2) (sz + element_size * element_count + 1)).
  - rewrite Hover'. cbn [data size capacity]. rewrite Hover'. reflexivity.
  - replace (cap * 2 >? BUFFER_CAPACITY) with true
      by (symmetry; rewrite Z.gtb_ltb; apply Z.ltb_lt; lia).
    cbn [data size capacity]. rewrite Hover'. reflexivity.
Qed.

(** What does hold: a failed [realloc] makes the callback return 0 and
    leave the buffer as it was. *)
Lemma write_callback_realloc_fails (content : list ascii)
    (element_size element_count : Z) (buffer : DynamicBuffer) :
  u64 (size buffer + u64 (element_size * element_count) + 1) > capacity buffer ->
  write_callback content element_size element_count (Some buffer) true false
  = Returned 0 (Some buffer).
Proof.
  intro Hgrow. unfold write_callback. cbn [negb].
  replace (u64 (size buffer + u64 (element_size * element_count) + 1)
           >? capacity buffer) with true
    by (symmetry; rewrite Z.gtb_ltb; apply Z.ltb_lt; lia).
  reflexivity.
Qed.


(** ** The scheduler and the shutdown path (C9) *)

Lemma late_le_launches (evs : list event) : (late_launches evs <= launches evs)%nat.
Proof.
  unfold late_launches, launches.
  induction evs as [|ev evs IH]; [reflexivity|].
  destruct ev as [i [|]| | |k json txt|];
    cbn [filter late_launch is_launch List.length]; lia.
Qed.

Lemma launches_app (a b : list event) : launches (a ++ b) = (launches a + launches b)%nat.
Proof. unfold launches. rewrite filter_app, length_app. reflexivity. Qed.

Lemma joins_app (a b : list event) : joins (a ++ b) = (joins a + joins b)%nat.
Proof. unfold joins. rewrite filter_app, length_app. reflexivity. Qed.

Lemma late_launches_app (a b : list event) :
  late_launches (a ++ b) = (late_launches a + late_launches b)%nat.
Proof. unfold late_launches. rewrite filter_app, length_app. reflexivity. Qed.

Lemma late_launches_cons (i : nat) (rest : list event) :
  late_launches (Launched i false :: rest) = S (late_launches rest).
Proof. reflexivity. Qed.

Lemma launches_cons_joined (rest : list event) :
  launches (Joined :: rest) = launches rest.
Proof. reflexivity. Qed.

(** A trace without a late launch has nothing to answer for. *)
Lemma no_batch_after_late_quiet (evs : list event) :
  late_launches evs = O -> no_batch_after_late evs.
Proof.
  intros Hquiet before i after waiting rest Heq _. subst evs.
  rewrite late_launches_app, late_launches_cons in Hquiet. lia.
Qed.

Lemma launches_repeat_joined (n : nat) : launches (repeat Joined n) = O.
Proof. induction n as [|n IH]; [reflexivity|exact IH]. Qed.

(** The trace of one batch: after its first join it holds joins only. *)
Lemma no_batch_after_late_batch (evs : list event) (flag : bool) (k : nat) :
  Forall (fun ev => exists i, ev = Launched i flag) evs ->
  no_batch_after_late (evs ++ repeat Joined k).
Proof.
  intros Hall before i after waiting rest Heq Hafter. subst after.
  assert (Hnone : joins evs = O).
  { unfold joins. clear Heq. induction Hall as [|ev evs' [j ->] _ IH];
      [reflexivity|exact IH]. }
  assert (Hsuffix : forall a, repeat Joined k = a ++ rest -> launches rest = O).
  { intros a H. apply (f_equal launches) in H.
    rewrite launches_app, launches_repeat_joined in H. lia. }
  replace (before ++ Launched i false :: waiting ++ Joined :: rest)
    with ((before ++ Launched i false :: waiting) ++ Joined :: rest) in Heq
    by (rewrite <- app_assoc; reflexivity).
  apply app_eq_app in Heq. destruct Heq as [l [[He1 He2]|[He1 He2]]].
  - (* the join would lie among the launches *)
    destruct l as [|ev l].
    + cbn [app] in He2. apply (Hsuffix [Joined]). rewrite <- He2. reflexivity.
    + cbn [app] in He2. injection He2 as <- He2.
      exfalso. rewrite He1, joins_app in Hnone.
      assert (Hone : joins (Joined :: l) = S (joins l)) by reflexivity. lia.
  - apply (Hsuffix (l ++ [Joined])). rewrite He2, <- app_assoc. reflexivity.
Qed.

(** Two stretches in a row: when the first holds a late launch the second
    must hold no launch at all. *)
Lemma no_batch_after_late_app (e1 e2 : list event) :
  no_batch_after_late e1 -> no_batch_after_late e2 ->
  (late_launches e1 <> O -> launches e2 = O) ->
  no_batch_after_late (e1 ++ e2).
Proof.
  intros H1 H2 Hquiet before i after waiting rest Heq Hafter.
  apply app_eq_app in Heq. destruct Heq as [l [[He1 He2]|[He1 He2]]].
  - (* the late launch of the first stretch, or the head of the second *)
    destruct l as [|ev l].
    + cbn [app] in He2. rewrite app_nil_r in He1.
      apply (H2 [] i after waiting rest); [symmetry; exact He2|exact Hafter].
    + cbn [app] in He2. injection He2 as <- He2.
      assert (Hz : launches e2 = O).
      { apply Hquiet. rewrite He1, late_launches_app, late_launches_cons. lia. }
      rewrite He2 in Hafter. symmetry in Hafter.
      apply app_eq_app in Hafter.
      destruct Hafter as [m [[Hm1 Hm2]|[Hm1 Hm2]]].
      * (* the join lies in the second stretch *)
        rewrite Hm2, launches_app in Hz.
        rewrite launches_cons_joined in Hz. lia.
      * destruct m as [|ev m].
        -- cbn [app] in Hm2. rewrite <- Hm2 in Hz.
           rewrite launches_cons_joined in Hz. exact Hz.
        -- cbn [app] in Hm2. injection Hm2 as <- Hm2.
           rewrite Hm2, launches_app, Hz, Nat.add_0_r.
           apply (H1 before i l waiting m); [exact He1|exact Hm1].
  - apply (H2 l i after waiting rest); [exact He2|exact Hafter].
Qed.

Lemma stretch_refl (c : Controller) : stretch c c.
Proof.
  exists []. rewrite app_nil_r. repeat split; auto; try (cbn; lia).
  apply no_batch_after_late_quiet. reflexivity.
Qed.

Lemma stretch_trans (a b c : Controller) : stretch a b -> stretch b c -> stretch a c.
Proof.
  intros (e1 & Ht1 & Hw1 & Hj1 & Hl1 & Hd1 & Hs1 & Hf1 & Hn1)
         (e2 & Ht2 & Hw2 & Hj2 & Hl2 & Hd2 & Hs2 & Hf2 & Hn2).
  exists (e1 ++ e2). rewrite Ht2, Ht1, app_assoc.
  rewrite launches_app, joins_app, late_launches_app.
  pose proof (late_le_launches e1). pose proof (late_le_launches e2).
  split; [reflexivity|]. split; [congruence|]. split; [lia|].
  assert (Hcase : late_launches e1 = O \/ late_launches e2 = O).
  { destruct (late_launches e1) as [|n] eqn:Hn; [left; reflexivity|right].
    destruct Hs2 as [Hz _]; [apply Hd1; discriminate|]. lia. }
  split; [lia|]. split.
  - intro Hlate. destruct (late_launches e2) as [|n] eqn:Hn.
    + destruct Hs2 as [_ Hdown]; [apply Hd1; lia|exact Hdown].
    + apply Hd2. discriminate.
  - split.
    + intro Hdown. destruct (Hs1 Hdown) as [Hz1 Hdown1].
      destruct (Hs2 Hdown1) as [Hz2 Hdown2]. split; [lia|exact Hdown2].
    + split.
      * apply Forall_app. split; [exact Hf1|].
        rewrite Hw1 in Hf2. exact Hf2.
      * apply no_batch_after_late_app; [exact Hn1|exact Hn2|].
        intro Hlate. apply Hs2, Hd1, Hlate.
Qed.

Lemma stretch_env (c : Controller) (e : Env) :
  (program_active (ctl_env c) = false -> program_active e = false) ->
  stretch c (with_env c e).
Proof.
  intro Hmono. exists []. cbn [with_env ctl_trace ctl_workers ctl_env].
  rewrite app_nil_r. repeat split; auto; try (cbn; lia).
  apply no_batch_after_late_quiet. reflexivity.
Qed.

Lemma stretch_load (c : Controller) :
  stretch c (with_env c (snd (load_program_active (ctl_env c)))).
Proof.
  apply stretch_env. intro Hdown. rewrite (load_down _ Hdown). exact Hdown.
Qed.

Section SchedulerFacts.
Context {C : Collaborators} {Th : Threads} {F : Files}.

Lemma time_now_active (e : Env) :
  program_active (snd (time_now e)) = program_active e.
Proof. reflexivity. Qed.

Lemma stretch_checkpoint (c : Controller) : stretch c (checkpoint c).
Proof.
  unfold checkpoint.
  cbn [time_now emit with_env ctl_trace ctl_workers ctl_env].
  eexists [Saved (ctl_workers c) _ _].
  split; [reflexivity|]. split; [reflexivity|]. split; [reflexivity|].
  split; [cbn; lia|]. split; [intro H; exfalso; apply H; reflexivity|].
  split; [intro H; split; [reflexivity|exact H]|].
  split; [constructor; [left; eexists _, _; reflexivity|constructor]|].
  apply no_batch_after_late_quiet. reflexivity.
Qed.

(** What the launch loop of a batch does: it creates [k] workers, at most
    [todo], counts them in and records them with the flag as it is; it
    loads nothing. *)
Lemma launch_loop_spec (cycle todo idx launched : nat) (c : Controller) :
  exists k evs,
    launch_loop cycle todo idx launched c
    = ((idx + Nat.min todo (url_count - idx))%nat, (launched + k)%nat,
       {| ctl_env := ctl_env c; ctl_workers := ctl_workers c + Z.of_nat k;
          ctl_last_save := ctl_last_save c;
          ctl_trace := ctl_trace c ++ evs |})
    /\ (k <= todo)%nat
    /\ List.length evs = k
    /\ Forall (fun ev => exists i,
                 ev = Launched i (program_active (ctl_env c))) evs.
Proof.
  revert idx launched c. induction todo as [|todo IH]; intros idx launched c.
  - exists O, []. cbn [launch_loop Nat.min]. rewrite !Nat.add_0_r, app_nil_r.
    rewrite Z.add_0_r. destruct c. repeat split; constructor.
  - cbn [launch_loop].
    destruct (Nat.ltb_spec idx url_count) as [Hlt|Hge]; cbn [negb].
    2:{ exists O, []. replace (url_count - idx)%nat with O by lia.
        rewrite Nat.min_0_r, !Nat.add_0_r, app_nil_r, Z.add_0_r.
        destruct c. repeat split; try constructor. lia. }
    replace (idx + Nat.min (S todo) (url_count - idx))%nat
      with (S idx + Nat.min todo (url_count - S idx))%nat by lia.
    destruct (spawn cycle idx).
    + destruct (IH (S idx) launched c) as (k & evs & Heq & Hk & Hlen & Hall).
      exists k, evs. rewrite Heq. repeat split; auto.
    + destruct (IH (S idx) launched c) as (k & evs & Heq & Hk & Hlen & Hall).
      exists k, evs. rewrite Heq. repeat split; auto.
    + destruct (IH (S idx) launched
                  (with_workers (with_workers c (ctl_workers c + 1))
                     (ctl_workers (with_workers c (ctl_workers c + 1)) - 1)))
        as (k & evs & Heq & Hk & Hlen & Hall).
      exists k, evs. rewrite Heq.
      cbn [with_workers ctl_env ctl_workers ctl_last_save ctl_trace] in *.
      repeat split; auto. do 2 f_equal. f_equal. lia.
    + destruct (IH (S idx) (S launched)
                  (emit (with_workers c (ctl_workers c + 1))
                     (Launched idx
                        (program_active
                           (ctl_env (with_workers c (ctl_workers c + 1)))))))
        as (k & evs & Heq & Hk & Hlen & Hall).
      cbn [emit with_workers ctl_env ctl_workers ctl_last_save ctl_trace] in *.
      exists (S k), (Launched idx (program_active (ctl_env c)) :: evs).
      rewrite Heq. repeat split.
      * f_equal; [f_equal; lia|]. f_equal; [lia|].
        rewrite <- app_assoc. reflexivity.
      * lia.
      * cbn [List.length]. lia.
      * constructor; [eexists; reflexivity|exact Hall].
Qed.

Lemma join_loop_spec (n : nat) (c : Controller) :
  join_loop n c
  = {| ctl_env := ctl_env c; ctl_workers := ctl_workers c - Z.of_nat n;
       ctl_last_save := ctl_last_save c;
       ctl_trace := ctl_trace c ++ repeat Joined n |}.
Proof.
  revert c. induction n as [|n IH]; intro c.
  - cbn [join_loop repeat]. rewrite app_nil_r, Z.sub_0_r. destruct c. reflexivity.
  - cbn [join_loop]. rewrite IH.
    cbn [emit with_workers ctl_env ctl_workers ctl_last_save ctl_trace repeat].
    f_equal; [lia|]. rewrite <- app_assoc. reflexivity.
Qed.

Lemma launches_of_launched (evs : list event) (flag : bool) :
  Forall (fun ev => exists i, ev = Launched i flag) evs ->
  launches evs = List.length evs /\ joins evs = O
  /\ late_launches evs = (if flag then O else List.length evs).
Proof.
  unfold launches, joins, late_launches.
  induction 1 as [|ev evs [i ->] Hall (IH1 & IH2 & IH3)];
    [destruct flag; repeat split|].
  cbn [filter is_launch is_join late_launch List.length].
  destruct flag; cbn [List.length]; rewrite ?IH1, ?IH2, ?IH3; repeat split.
Qed.

Lemma joins_of_joined (n : nat) :
  launches (repeat Joined n) = O /\ joins (repeat Joined n) = n
  /\ late_launches (repeat Joined n) = O.
Proof.
  unfold launches, joins, late_launches.
  induction n as [|n (IH1 & IH2 & IH3)]; [repeat split|].
  cbn [repeat filter is_launch is_join late_launch List.length].
  rewrite IH1, IH2, IH3. repeat split.
Qed.

(** One batch: the launch loop, then the join loop. *)
Lemma batch_spec (cycle todo idx : nat) (c : Controller) :
  (todo <= Z.to_nat CONCURRENT_DOWNLOADS)%nat ->
  exists idx' launched c1 evs,
    launch_loop cycle todo idx 0 c = (idx', launched, c1)
    /\ idx' = (idx + Nat.min todo (url_count - idx))%nat
    /\ ctl_trace (join_loop launched c1) = ctl_trace c ++ evs
    /\ ctl_workers (join_loop launched c1) = ctl_workers c
    /\ ctl_env (join_loop launched c1) = ctl_env c
    /\ launches evs = joins evs
    /\ (late_launches evs <= Z.to_nat CONCURRENT_DOWNLOADS)%nat
    /\ (program_active (ctl_env c) = true -> late_launches evs = O)
    /\ Forall (fun ev => (exists json txt, ev = Saved (ctl_workers c) json txt)
                         \/ is_launch ev = true \/ is_join ev = true) evs
    /\ no_batch_after_late evs.
Proof.
  intro Htodo.
  destruct (launch_loop_spec cycle todo idx 0 c) as (k & evs & Heq & Hk & Hlen & Hall).
  eexists _, _, _, (evs ++ repeat Joined k). split; [exact Heq|].
  split; [reflexivity|]. rewrite join_loop_spec.
  cbn [ctl_trace ctl_workers ctl_env Nat.add].
  destruct (launches_of_launched evs _ Hall) as (Hl1 & Hj1 & Hlate1).
  destruct (joins_of_joined k) as (Hl2 & Hj2 & Hlate2).
  rewrite launches_app, joins_app, late_launches_app, Hl1, Hj1, Hl2, Hj2,
    Hlate1, Hlate2.
  split; [rewrite app_assoc; reflexivity|]. split; [lia|].
  split; [reflexivity|]. split; [lia|].
  split; [destruct (program_active (ctl_env c)); lia|].
  split; [intros ->; reflexivity|].
  split; [|eapply no_batch_after_late_batch; exact Hall].
  apply Forall_app. split.
  - eapply Forall_impl; [|exact Hall]. intros ev [i ->]. right. left. reflexivity.
  - apply Forall_forall. intros ev Hev. apply repeat_spec in Hev. subst ev.
    right. right. reflexivity.
Qed.

Lemma batch_loop_stretch (fuel cycle idx : nat) (c : Controller)
    (idx' : nat) (c' : Controller) :
  batch_loop fuel cycle idx c = Some (idx', c') -> stretch c c'.
Proof.
  revert idx c. induction fuel as [|fuel IH]; intros idx c; [discriminate|].
  cbn [batch_loop].
  destruct (idx <? url_count)%nat; cbn [negb];
    [|intro H; injection H as _ <-; apply stretch_refl].
  pose proof (stretch_load c) as Hload. pose proof (load_result (ctl_env c)) as Hres.
  pose proof (load_stays_down (ctl_env c)) as Hdown0.
  destruct (load_program_active (ctl_env c)) as [running e1].
  cbn [fst snd] in *.
  destruct running; cbn [negb];
    [|intro H; injection H as _ <-; exact Hload].
  set (todo := Nat.min (Z.to_nat CONCURRENT_DOWNLOADS) (url_count - idx)).
  destruct (batch_spec cycle todo idx (with_env c e1))
    as (idx1 & launched & c1 & evs & Heq & Hidx & Htr & Hw & He & Hj & Hl & Ha
        & Hf & Hn);
    [subst todo; lia|].
  rewrite Heq.
  remember (join_loop launched c1) as c2 eqn:Hc2.
  cbn [with_env ctl_trace ctl_workers ctl_env] in Htr, Hw, He, Ha, Hf.
  pose proof (load_result (ctl_env c2)) as Hres2.
  pose proof (load_stays_down (ctl_env c2)) as Hdown2.
  pose proof (load_active_before (ctl_env c2)) as Hbefore2.
  destruct (load_program_active (ctl_env c2)) as [running2 e2].
  cbn [fst snd] in *.
  assert (Hbatch : stretch c (with_env c2 e2)).
  { exists evs. cbn [with_env ctl_trace ctl_workers ctl_env].
    split; [exact Htr|]. split; [exact Hw|]. split; [exact Hj|].
    split; [exact Hl|]. split.
    - intro Hlate. destruct running2.
      + exfalso. apply Hlate, Ha. rewrite <- He. congruence.
      + apply Hdown2. reflexivity.
    - split; [intro Hdown; congruence|]. split; [exact Hf|exact Hn]. }
  destruct running2; cbn [negb].
  - intro H. eapply stretch_trans; [exact Hbatch|]. eapply IH. exact H.
  - intro H. injection H as _ <-. exact Hbatch.
Qed.
End SchedulerFacts.

Lemma loads_kept_refl (e : Env) : loads_kept e e.
Proof. intros n Hn. exists n. split; [exact Hn|lia]. Qed.

Lemma loads_kept_trans (a b c : Env) :
  loads_kept a b -> loads_kept b c -> loads_kept a c.
Proof.
  intros Hab Hbc n Hn. destruct (Hab n Hn) as [m [Hm Hle]].
  destruct (Hbc m Hm) as [k [Hk Hle']]. exists k. split; [exact Hk|lia].
Qed.

Lemma loads_kept_load (e : Env) : loads_kept e (snd (load_program_active e)).
Proof.
  intros n Hn. unfold load_program_active. rewrite Hn.
  destruct n as [|n]; cbn [snd active_loads].
  - exists O. split; [exact Hn|lia].
  - exists n. split; [reflexivity|lia].
Qed.

Section SchedulerRuns.
Context {C : Collaborators} {Th : Threads} {F : Files}.

Lemma stretch_last_save (c : Controller) (t : Z) :
  stretch c {| ctl_env := ctl_env c; ctl_workers := ctl_workers c;
               ctl_last_save := t; ctl_trace := ctl_trace c |}.
Proof.
  exists []. cbn [ctl_trace ctl_workers ctl_env]. rewrite app_nil_r.
  repeat split; auto; try (cbn; lia).
  apply no_batch_after_late_quiet. reflexivity.
Qed.

Lemma pause_loop_stretch (todo : nat) (c : Controller) :
  stretch c (pause_loop todo c)
  /\ loads_kept (ctl_env c) (ctl_env (pause_loop todo c)).
Proof.
  revert c. induction todo as [|todo IH]; intro c;
    [split; [apply stretch_refl|apply loads_kept_refl]|].
  cbn [pause_loop].
  pose proof (stretch_load c) as Hload.
  pose proof (loads_kept_load (ctl_env c)) as Hkept.
  destruct (load_program_active (ctl_env c)) as [running e1]. cbn [snd] in *.
  destruct running; cbn [negb]; [|split; assumption].
  destruct (IH (with_env c e1)) as [Hs Hk]. split.
  - eapply stretch_trans; eassumption.
  - eapply loads_kept_trans; eassumption.
Qed.

Lemma batch_loop_loads (fuel cycle idx : nat) (c : Controller)
    (idx' : nat) (c' : Controller) :
  batch_loop fuel cycle idx c = Some (idx', c') ->
  loads_kept (ctl_env c) (ctl_env c').
Proof.
  revert idx c. induction fuel as [|fuel IH]; intros idx c; [discriminate|].
  cbn [batch_loop].
  destruct (idx <? url_count)%nat; cbn [negb];
    [|intro H; injection H as _ <-; apply loads_kept_refl].
  pose proof (loads_kept_load (ctl_env c)) as Hkept.
  destruct (load_program_active (ctl_env c)) as [running e1]. cbn [snd] in Hkept.
  destruct running; cbn [negb];
    [|intro H; injection H as _ <-; exact Hkept].
  set (todo := Nat.min (Z.to_nat CONCURRENT_DOWNLOADS) (url_count - idx)).
  destruct (batch_spec cycle todo idx (with_env c e1))
    as (idx1 & launched & c1 & evs & Heq & _ & _ & _ & He & _);
    [subst todo; lia|].
  rewrite Heq. cbn [with_env ctl_env] in He.
  pose proof (loads_kept_load (ctl_env (join_loop launched c1))) as Hkept2.
  rewrite He in Hkept2 at 1.
  destruct (load_program_active (ctl_env (join_loop launched c1)))
    as [running2 e2]. cbn [snd] in Hkept2.
  destruct running2; cbn [negb].
  - intro H. apply IH in H. cbn [with_env ctl_env] in H.
    eapply loads_kept_trans; [exact Hkept|].
    eapply loads_kept_trans; eassumption.
  - intro H. injection H as _ <-. cbn [with_env ctl_env].
    eapply loads_kept_trans; eassumption.
Qed.

Lemma batch_loop_returns (fuel cycle idx : nat) (c : Controller) :
  (url_count - idx < fuel)%nat ->
  exists result, batch_loop fuel cycle idx c = Some result.
Proof.
  revert idx c. induction fuel as [|fuel IH]; intros idx c Hfuel; [lia|].
  cbn [batch_loop].
  destruct (Nat.ltb_spec idx url_count) as [Hlt|Hge]; cbn [negb];
    [|eexists; reflexivity].
  destruct (load_program_active (ctl_env c)) as [running e1].
  destruct running; cbn [negb]; [|eexists; reflexivity].
  set (todo := Nat.min (Z.to_nat CONCURRENT_DOWNLOADS) (url_count - idx)).
  destruct (batch_spec cycle todo idx (with_env c e1))
    as (idx1 & launched & c1 & evs & Heq & Hidx & _);
    [subst todo; lia|].
  rewrite Heq.
  destruct (load_program_active (ctl_env (join_loop launched c1)))
    as [running2 e2].
  destruct running2; cbn [negb]; [|eexists; reflexivity].
  apply IH. subst idx1 todo.
  assert (0 < Z.to_nat CONCURRENT_DOWNLOADS)%nat by (vm_compute; lia).
  lia.
Qed.

Lemma cycle_loop_stretch (fuel cycle_number : nat) (c c' : Controller) :
  cycle_loop fuel cycle_number c = Some c' -> stretch c c'.
Proof.
  revert cycle_number c. induction fuel as [|fuel IH]; intros cycle_number c;
    [discriminate|].
  cbn [cycle_loop].
  pose proof (stretch_load c) as Hload.
  destruct (load_program_active (ctl_env c)) as [running e1]. cbn [snd] in Hload.
  destruct running; cbn [negb]; [|intro H; injection H as <-; exact Hload].
  destruct (batch_loop (S url_count) (S cycle_number) 0 (with_env c e1))
    as [[idx c1]|] eqn:Hbatch; [|discriminate].
  apply batch_loop_stretch in Hbatch.
  cbn [time_now].
  set (c2 := with_env c1 {| active_loads := active_loads (ctl_env c1);
                           time_calls := S (time_calls (ctl_env c1)) |}).
  assert (H2 : stretch c1 c2) by (apply stretch_env; auto).
  set (c3 := if time_ (time_calls (ctl_env c1)) - ctl_last_save c2 >=? SAVE_INTERVAL
             then _ else c2).
  assert (H3 : stretch c2 c3).
  { subst c3. destruct (_ >=? _); [|apply stretch_refl].
    eapply stretch_trans; [apply stretch_checkpoint|].
    apply (stretch_last_save (checkpoint c2)). }
  intro H. apply IH in H.
  eapply stretch_trans; [exact Hload|].
  eapply stretch_trans; [exact Hbatch|].
  eapply stretch_trans; [exact H2|].
  eapply stretch_trans; [exact H3|].
  eapply stretch_trans; [apply pause_loop_stretch|exact H].
Qed.

Lemma cycle_loop_returns (fuel cycle_number n : nat) (c : Controller) :
  active_loads (ctl_env c) = Some n -> (n < fuel)%nat ->
  exists c', cycle_loop fuel cycle_number c = Some c'.
Proof.
  revert cycle_number n c.
  induction fuel as [|fuel IH]; intros cycle_number n c Hn Hfuel; [lia|].
  cbn [cycle_loop]. unfold load_program_active at 1. rewrite Hn.
  destruct n as [|n]; cbn [negb]; [eexists; reflexivity|].
  set (c0 := with_env c _).
  destruct (batch_loop_returns (S url_count) (S cycle_number) 0 c0)
    as [[idx c1] Hbatch]; [lia|].
  rewrite Hbatch. apply batch_loop_loads in Hbatch.
  destruct (Hbatch n) as [n1 [Hn1 Hle1]]; [reflexivity|].
  cbn [time_now].
  set (c2 := with_env c1 _).
  set (c3 := if _ >=? SAVE_INTERVAL then _ else c2).
  assert (H3 : active_loads (ctl_env c3) = Some n1).
  { subst c3 c2. destruct (_ >=? _); exact Hn1. }
  destruct (pause_loop_stretch 8 c3) as [_ Hkept].
  destruct (Hkept n1 H3) as [n2 [Hn2 Hle2]].
  eapply IH; [exact Hn2|lia].
Qed.

Lemma autonomous_operation_stretch (fuel : nat) (c c' : Controller) :
  autonomous_operation fuel c = Some c' -> stretch c c'.
Proof.
  unfold autonomous_operation. cbn [time_now].
  set (c0 := {| ctl_env := _; ctl_workers := ctl_workers c;
                ctl_last_save := _; ctl_trace := ctl_trace c |}).
  intro H. apply cycle_loop_stretch in H.
  assert (H0 : stretch c c0).
  { exists []. subst c0. cbn [ctl_trace ctl_workers ctl_env].
    rewrite app_nil_r. repeat split; auto; try (cbn; lia).
    apply no_batch_after_late_quiet. reflexivity. }
  eapply stretch_trans; [exact H0|].
  eapply stretch_trans; [apply stretch_checkpoint|exact H].
Qed.

Lemma drain_loop_idle (todo : nat) (c : Controller) :
  ctl_workers c <= 0 -> drain_loop todo 0 c = O.
Proof.
  intro H. destruct todo as [|todo]; [reflexivity|].
  cbn [drain_loop].
  replace (ctl_workers c >? 0) with false
    by (symmetry; rewrite Z.gtb_ltb; apply Z.ltb_ge; lia).
  reflexivity.
Qed.

(** The two flags of a [Saved] event are what the writer does: a file is
    written exactly when [json_object()] and its [fopen] succeed. *)
Lemma write_checkpoint_files (root_ok json_open txt_open : bool)
    (current_time current_total : Z)
    (unique_json processed_json processed_txt unique_txt : Z)
    (storage_json storage_txt : list ProxyRecord) :
  match write_checkpoint root_ok json_open txt_open current_time current_total
          unique_json processed_json processed_txt unique_txt
          storage_json storage_txt with
  | None => root_ok = false
  | Some written =>
      root_ok = true
      /\ (proxies_json written <> None <-> root_ok && json_open = true)
      /\ (proxies_txt written <> None <-> root_ok && txt_open = true)
  end.
Proof.
  unfold write_checkpoint.
  destruct root_ok, json_open, txt_open; cbn [negb andb proxies_json proxies_txt];
    try reflexivity;
    (split; [reflexivity|]); split; split; intro H;
    try reflexivity; try discriminate; try (exfalso; apply H; reflexivity).
Qed.

Lemma cleanup_resources_trace (c : Controller) :
  ctl_workers c = 0 ->
  ctl_trace (cleanup_resources c)
  = ctl_trace c
    ++ [Waited 0;
        Saved 0
          (json_object_ok (time_calls (ctl_env c))
           && fopen_json_ok (time_calls (ctl_env c)))
          (json_object_ok (time_calls (ctl_env c))
           && fopen_txt_ok (time_calls (ctl_env c)));
        Released].
Proof.
  intro Hw. unfold cleanup_resources, checkpoint.
  rewrite drain_loop_idle by (cbn [with_env ctl_workers]; lia).
  cbn [time_now emit with_env ctl_trace ctl_workers ctl_env].
  rewrite Hw, <- !app_assoc. reflexivity.
Qed.
End SchedulerRuns.

(** The batch loop tests the flag before each batch: entered with the
    flag down it returns at once, with the index and the trace as they
    were. *)
Lemma batch_loop_flag_down {Th : Threads} (fuel cycle idx : nat)
    (c : Controller) :
  program_active (ctl_env c) = false ->
  exists c', batch_loop (S fuel) cycle idx c = Some (idx, c')
             /\ ctl_trace c' = ctl_trace c
             /\ ctl_workers c' = ctl_workers c
             /\ program_active (ctl_env c') = false.
Proof.
  intro Hdown. cbn [batch_loop].
  destruct (idx <? url_count)%nat; cbn [negb].
  - rewrite (load_down _ Hdown). cbn [negb]. eexists.
    split; [reflexivity|]. cbn [with_env ctl_trace ctl_workers ctl_env].
    auto.
  - eexists. split; [reflexivity|]. auto.
Qed.

(** C9 (as amended).  Once start-up has succeeded, [main] returns 0, and
    what the controller did ends with the drain loop finding no active
    worker, one last call of [save_proxies_to_json] made with
    [stats.active_workers] at zero, and the release of the store.  That
    call writes proxies.json when [json_object()] and the [fopen] of the
    file succeed and proxies.txt likewise, and returns without a word
    otherwise; where these calls always succeed both files are written.
    Before that every worker the controller created was joined and every
    checkpoint was taken with the counter at zero.  The batch loop tests
    the flag before each batch: entered with the flag down it creates no
    worker, and a run that begins with the flag down creates none.  The
    launch loop does not look at the flag, so workers of the batch under
    way are still created with the flag down, at most 20 of them in the
    whole run, and once one of them has been joined no worker is created
    any more; such a worker sees the flag down and starts no transfer.
    And when a termination request arrives, [main] does return. *)
Theorem shutdown_drains_then_saves {C : Collaborators} {Th : Threads}
    {F : Files} (fuel : nat) (e : Env) (status : Z) (trace : list event) :
  main fuel true true true e = Some (status, trace) ->
  status = 0
  /\ (exists before call,
        trace = before
                ++ [Waited 0;
                    Saved 0 (json_object_ok call && fopen_json_ok call)
                      (json_object_ok call && fopen_txt_ok call);
                    Released]
        /\ ((forall n, json_object_ok n = true /\ fopen_json_ok n = true
                       /\ fopen_txt_ok n = true) ->
            trace = before ++ [Waited 0; Saved 0 true true; Released])
        /\ launches before = joins before
        /\ Forall (fun ev => (exists json txt, ev = Saved 0 json txt)
                             \/ is_launch ev = true \/ is_join ev = true) before
        /\ (late_launches before <= 20)%nat
        /\ no_batch_after_late before
        /\ (program_active e = false -> launches before = O))
  /\ (forall fuel' cycle idx c,
        program_active (ctl_env c) = false ->
        exists c', batch_loop (S fuel') cycle idx c = Some (idx, c')
                   /\ ctl_trace c' = ctl_trace c)
  /\ (forall task curl_ok malloc_ok workers e',
        program_active e' = false ->
        url_worker task curl_ok malloc_ok workers e' = (false, workers - 1, e'))
  /\ (forall n, active_loads e = Some n ->
        exists result, main (S n) true true true e = Some result).
Proof.
  unfold main. cbn [negb].
  split; [|split; [|split; [|split]]].
  - destruct (autonomous_operation fuel _); [|discriminate].
    injection H as <- _. reflexivity.
  - destruct (autonomous_operation fuel _) as [c|] eqn:Hrun; [|discriminate].
    assert (Htrace : trace = ctl_trace (cleanup_resources c)) by congruence.
    rewrite Htrace. clear H Htrace.
    apply autonomous_operation_stretch in Hrun.
    destruct Hrun as (evs & Htr & Hw & Hj & Hl & _ & Hs & Hf & Hn).
    cbn [ctl_trace ctl_workers ctl_env app] in Htr, Hw, Hs, Hf.
    exists evs, (time_calls (ctl_env c)).
    rewrite cleanup_resources_trace by exact Hw. rewrite Htr.
    split; [reflexivity|].
    split.
    { intro Hok. destruct (Hok (time_calls (ctl_env c))) as (-> & -> & ->).
      reflexivity. }
    split; [exact Hj|]. split; [exact Hf|]. split; [exact Hl|].
    split; [exact Hn|]. intro Hdown. apply Hs, Hdown.
  - intros fuel' cycle idx c Hdown.
    destruct (batch_loop_flag_down fuel' cycle idx c Hdown) as (c' & Heq & Ht & _).
    exists c'. split; assumption.
  - intros task curl_ok malloc_ok workers e' Hdown. unfold url_worker, fetch_starts.
    rewrite (load_down e' Hdown). destruct task as [[url|]|]; reflexivity.
  - intros n Hn. unfold autonomous_operation. cbn [time_now].
    set (c0 := checkpoint _).
    destruct (cycle_loop_returns (S n) 0 n c0) as [c' Hc']; [exact Hn|lia|].
    rewrite Hc'. eexists. reflexivity.
Qed.

Lemma shutdown_drains_then_saves_witness :
  exists before,
    [Saved 0 true true] ++ map (fun i => Launched i false) (seq 0 20)
      ++ repeat Joined 20 ++ [Waited 0; Saved 0 true true; Released]
    = before ++ [Waited 0; Saved 0 true true; Released]
    /\ launches before = joins before
    /\ no_batch_after_late before.
Proof.
  destruct (@shutdown_drains_then_saves sample_collaborators sample_threads
              sample_files 2
              {| active_loads := Some 2%nat; time_calls := 0 |} 0
              ([Saved 0 true true] ++ map (fun i => Launched i false) (seq 0 20)
                 ++ repeat Joined 20 ++ [Waited 0; Saved 0 true true; Released]))
    as (_ & (before & call & _ & Heq & Hj & _ & _ & Hn & _) & _).
  - reflexivity.
  - exists before. split; [apply Heq; intro n; repeat split|].
    split; assumption.
Defined.

(** The launch loop does not check the flag: with the termination request
    arriving right after the batch loop's check, the 20 workers of the
    batch are all created with the flag down. *)
Lemma launch_loop_does_not_poll :
  @main sample_collaborators sample_threads sample_files 2 true true true
    {| active_loads := Some 2%nat; time_calls := 0 |}
  = Some (0, [Saved 0 true true] ++ map (fun i => Launched i false) (seq 0 20)
               ++ repeat Joined 20 ++ [Waited 0; Saved 0 true true; Released]).
Proof. reflexivity. Qed.

(** ** Further properties *)

Section Further.
Context {T : Target} {C : Collaborators}.

Lemma process_match_derived (content : list ascii) (src : cstring)
    (mv : nat -> Z) (d : list ProxyRecord) (e : Env) :
  Forall derived_fields d ->
  Forall derived_fields (fst (process_match content src mv d e)).
Proof.
  intro Hd.
  destruct (process_match_cases content src mv d e) as [e' [_ H]].
  destruct H as [H|(sv & pt & sc & t1 & t2 & H & _)];
    rewrite H; cbn [fst]; [exact Hd|].
  apply Forall_app. split; [exact Hd|].
  constructor; [|constructor]. split; reflexivity.
Qed.



Lemma reachable_nodup (w : World) :
  reachable w -> NoDup (hashes (proxy_storage w)).
Proof.
  induction 1 as [|w f w' e' Hreach IH Hfeed]; [constructor|].
  apply feed_step in Hfeed.
  destruct Hfeed as [[-> _]|(content & discovered & _ & _ & _ & ->)];
    [exact IH|].
  rewrite merge_batch_storage. apply merge_loop_nodup, IH.
Qed.


(** X2.  With a matcher that keeps its contract a call of
    [extract_proxies_from_content] returns. *)
Theorem extraction_returns (f : Feed) (w : World) :
  matcher_contract ->
  feed_length f < 2 ^ 64 - 1 ->
  exists w' e', feed f w = Some (w', e').
Proof.
  intros contract Hfits. unfold feed, extract_proxies_from_content.
  destruct (feed_content f) as [content|]; [|eexists _, _; reflexivity].
  destruct (feed_length f =? 0); [eexists _, _; reflexivity|].
  destruct (load_program_active (feed_env f)) as [running e1].
  destruct running; cbn [negb]; [|eexists _, _; reflexivity].
  destruct (feed_malloc_ok f); cbn [negb]; [|eexists _, _; reflexivity].
  destruct (pattern_loop_returns contract content (feed_length f)
              (feed_source f) Hfits PARSE_PATTERNS [] e1) as [[d e2] Hloop].
  rewrite Hloop. eexists _, _; reflexivity.
Qed.

(** X3.  When the batch cannot be allocated the extraction changes nothing, and
    a failed [realloc] makes [write_callback] return 0 with the buffer as
    it was. *)
Theorem allocation_failure_aborts (f : Feed) (w : World)
    (content : list ascii) (element_size element_count : Z)
    (buffer : DynamicBuffer) :
  (feed_malloc_ok f = false ->
   exists e', feed f w = Some (w, e'))
  /\ (u64 (size buffer + u64 (element_size * element_count) + 1)
        > capacity buffer ->
      write_callback content element_size element_count (Some buffer)
        true false = Returned 0 (Some buffer)).
Proof.
  split.
  - intro Hfail. unfold feed, extract_proxies_from_content. rewrite Hfail.
    destruct (feed_content f) as [c|]; [|eexists; reflexivity].
    destruct (feed_length f =? 0); [eexists; reflexivity|].
    destruct (load_program_active (feed_env f)) as [running e1].
    destruct running; eexists; reflexivity.
  - apply write_callback_realloc_fails.
Qed.
End Further.


Lemma extraction_returns_witness :
  exists w' e',
    @feed x86_64_linux sample_collaborators sample_feed sample_world
    = Some (w', e').
Proof.
  apply (@extraction_returns x86_64_linux sample_collaborators sample_feed
           sample_world (table_contract _)).
  cbn. lia.
Defined.

(** ** sanitize_string in place *)

Lemma printable_blank_is_space (c : ascii) :
  is_printable c = true -> is_space_char c = true -> c = " "%char.
Proof.
  unfold is_printable, is_space_char, is_blank. intros Hp Hb.
  apply andb_prop in Hp. destruct Hp as [Hlo _]. apply Z.leb_le in Hlo.
  assert (Hc : code c = 32).
  { destruct (Z.eqb_spec (code c) 32); [assumption|].
    destruct (Z.eqb_spec (code c) 9); [lia|].
    destruct (Z.eqb_spec (code c) 10); [lia|].
    destruct (Z.eqb_spec (code c) 13); [lia|]. discriminate. }
  unfold code in Hc. apply (f_equal Z.to_N) in Hc. rewrite N2Z.id in Hc.
  apply (f_equal ascii_of_N) in Hc. rewrite ascii_N_embedding in Hc. exact Hc.
Qed.

Lemma peek_at (before after : list ascii) (c : ascii) :
  peek (before ++ c :: after) (List.length before) = c.
Proof. unfold peek. rewrite nth_middle. reflexivity. Qed.

Lemma poke_at (before after : list ascii) (c x : ascii) :
  poke (before ++ c :: after) (List.length before) x = before ++ x :: after.
Proof.
  unfold poke. rewrite firstn_app, firstn_all, Nat.sub_diag. cbn [firstn].
  rewrite app_nil_r. f_equal. f_equal.
  replace (S (List.length before)) with (List.length (before ++ [c]))
    by (rewrite length_app; cbn; lia).
  replace (before ++ c :: after) with ((before ++ [c]) ++ after)
    by (rewrite <- app_assoc; reflexivity).
  rewrite skipn_app, skipn_all, Nat.sub_diag. reflexivity.
Qed.

(** The scan on the array, with [written] between [str] and the write
    pointer, [gap] between the two pointers and [unread] up to the
    terminator: it leaves in front of the write pointer what
    [sanitize_scan] computes, and the write pointer is not past the
    terminator. *)
Lemma scan_buffer_refines (unread written gap tail : list ascii)
    (space_flag : bool) (fuel : nat) :
  forallb (fun c => negb (is_nul c)) unread = true ->
  (List.length unread < fuel)%nat ->
  exists gap',
    scan_buffer fuel (written ++ gap ++ unread ++ zero :: tail)
      (List.length (written ++ gap)) (List.length written) space_flag
    = (sanitize_scan unread written space_flag ++ gap' ++ zero :: tail,
       List.length (sanitize_scan unread written space_flag)).
Proof.
  revert written gap space_flag fuel.
  induction unread as [|c unread IH]; intros written gap space_flag fuel Hnul Hfuel.
  - destruct fuel as [|fuel]; [cbn in Hfuel; lia|].
    cbn [scan_buffer sanitize_scan app].
    replace (written ++ gap ++ zero :: tail) with ((written ++ gap) ++ zero :: tail)
      by (rewrite <- app_assoc; reflexivity).
    rewrite peek_at. cbn. exists gap. rewrite <- app_assoc. reflexivity.
  - destruct fuel as [|fuel]; [cbn in Hfuel; lia|].
    cbn [forallb] in Hnul. apply andb_prop in Hnul. destruct Hnul as [Hc Hnul].
    apply negb_true_iff in Hc.
    assert (Hfuel' : (List.length unread < fuel)%nat) by (cbn in Hfuel; lia).
    cbn [scan_buffer sanitize_scan].
    replace (written ++ gap ++ (c :: unread) ++ zero :: tail)
      with ((written ++ gap) ++ c :: unread ++ zero :: tail)
      by (rewrite <- app_assoc; reflexivity).
    rewrite peek_at, Hc.
    assert (Hskip : forall flag,
      exists gap',
        scan_buffer fuel ((written ++ gap) ++ c :: unread ++ zero :: tail)
          (S (List.length (written ++ gap))) (List.length written) flag
        = (sanitize_scan unread written flag ++ gap' ++ zero :: tail,
           List.length (sanitize_scan unread written flag))).
    { intro flag.
      destruct (IH written (gap ++ [c]) flag fuel Hnul Hfuel') as [gap' Hrun].
      exists gap'. rewrite <- Hrun. f_equal.
      - rewrite <- !app_assoc. reflexivity.
      - rewrite !length_app. cbn [List.length]. lia. }
    assert (Hwrite : forall x flag,
      (gap = [] -> x = c) ->
      exists gap',
        scan_buffer fuel
          (poke ((written ++ gap) ++ c :: unread ++ zero :: tail)
             (List.length written) x)
          (S (List.length (written ++ gap))) (S (List.length written)) flag
        = (sanitize_scan unread (written ++ [x]) flag ++ gap' ++ zero :: tail,
           List.length (sanitize_scan unread (written ++ [x]) flag))).
    { intros x flag Hsame. destruct gap as [|g gap].
      - rewrite (Hsame eq_refl). rewrite app_nil_r, poke_at.
        destruct (IH (written ++ [c]) [] flag fuel Hnul Hfuel') as [gap' Hrun].
        exists gap'. rewrite <- Hrun. f_equal.
        + cbn [app]. rewrite <- app_assoc. reflexivity.
        + rewrite app_nil_r, length_app. cbn [List.length]. lia.
        + rewrite length_app. cbn [List.length]. lia.
      - replace ((written ++ g :: gap) ++ c :: unread ++ zero :: tail)
          with (written ++ g :: (gap ++ c :: unread ++ zero :: tail))
          by (rewrite <- app_assoc; reflexivity).
        rewrite poke_at.
        destruct (IH (written ++ [x]) (gap ++ [c]) flag fuel Hnul Hfuel')
          as [gap' Hrun].
        exists gap'. rewrite <- Hrun. f_equal.
        + rewrite <- !app_assoc. reflexivity.
        + rewrite !length_app. cbn [List.length]. lia.
        + rewrite length_app. cbn [List.length]. lia. }
    destruct (is_printable c) eqn:Hp; [|apply Hskip].
    destruct (is_space_char c) eqn:Hb.
    + replace ((0 <? List.length written)%nat) with (0 <? strlen written).
      2:{ unfold strlen. destruct written; reflexivity. }
      destruct (negb space_flag && (0 <? strlen written)); [|apply Hskip].
      apply Hwrite. intros _. symmetry.
      apply printable_blank_is_space; assumption.
    + apply Hwrite. reflexivity.
Qed.

Lemma trim_trailing_snoc (s : cstring) (c : ascii) :
  trim_trailing (s ++ [c])
  = if (code c =? 32) || (code c =? 9) then trim_trailing s else s ++ [c].
Proof.
  unfold trim_trailing. rewrite rev_app_distr. cbn [rev app trim_trailing_rev].
  destruct ((code c =? 32) || (code c =? 9)); [reflexivity|].
  cbn [rev]. rewrite rev_involutive. reflexivity.
Qed.

Lemma trim_buffer_refines (s tail : list ascii) (fuel : nat) :
  (List.length s <= fuel)%nat ->
  exists tail',
    trim_buffer fuel (s ++ zero :: tail) (List.length s)
    = trim_trailing s ++ zero :: tail'.
Proof.
  revert tail fuel. induction s as [|c s IH] using rev_ind; intros tail fuel Hfuel.
  - exists tail. destruct fuel; reflexivity.
  - rewrite length_app in *. cbn [List.length] in *.
    destruct fuel as [|fuel]; [lia|].
    replace (List.length s + 1)%nat with (S (List.length s)) by lia.
    cbn [trim_buffer].
    replace ((s ++ [c]) ++ zero :: tail) with (s ++ c :: zero :: tail)
      by (rewrite <- app_assoc; reflexivity).
    rewrite peek_at, trim_trailing_snoc.
    destruct ((code c =? 32) || (code c =? 9)).
    + rewrite poke_at. apply IH. lia.
    + exists tail. rewrite <- app_assoc. reflexivity.
Qed.

Lemma until_nul_terminated (s tail : list ascii) :
  Forall (fun c => is_printable c = true) s ->
  until_nul (s ++ zero :: tail) = s.
Proof.
  induction 1 as [|c s Hc Hs IH]; [reflexivity|].
  cbn [app until_nul]. rewrite IH.
  replace (is_nul c) with false; [reflexivity|].
  unfold is_printable in Hc. apply andb_prop in Hc. destruct Hc as [Hlo _].
  apply Z.leb_le in Hlo. unfold is_nul. symmetry. apply Z.eqb_neq. lia.
Qed.

Lemma sanitized_printable (s : cstring) :
  Forall (fun c => is_printable c = true) (sanitized s).
Proof.
  rewrite sanitized_both_ends. unfold both_ends_sanitize.
  rewrite <- collapse_runs_drop_leading.
  pose proof (collapse_runs_printable true _ (filter_printable s)) as Hall.
  destruct (drop_trailing_blanks_split (collapse_runs true (filter is_printable s)))
    as [blanks [Hsplit _]].
  rewrite Hsplit in Hall. apply Forall_app in Hall. apply Hall.
Qed.

(** X4.  Run on the array itself, with its two pointers into one buffer,
    [sanitize_string] leaves the C string that the model [sanitized]
    computes from the C string the array held. *)
Theorem sanitize_buffer_refines (s tail : list ascii) :
  forallb (fun c => negb (is_nul c)) s = true ->
  until_nul (sanitize_buffer (s ++ zero :: tail)) = sanitized s.
Proof.
  intro Hnul. unfold sanitize_buffer.
  destruct (scan_buffer_refines s [] [] tail false
              (List.length (s ++ zero :: tail)) Hnul) as [gap Hscan].
  { rewrite length_app. cbn [List.length]. lia. }
  cbn [app List.length] in Hscan. rewrite Hscan.
  set (written := sanitize_scan s [] false) in *.
  assert (Hpoke : exists tail1,
            poke (written ++ gap ++ zero :: tail) (List.length written) zero
            = written ++ zero :: tail1).
  { destruct gap as [|g gap]; cbn [app]; rewrite poke_at; eexists; reflexivity. }
  destruct Hpoke as [tail1 Hpoke]. rewrite Hpoke.
  destruct (trim_buffer_refines written tail1
              (List.length (written ++ zero :: tail1))) as [tail2 Htrim].
  { rewrite length_app. lia. }
  rewrite Htrim. apply until_nul_terminated, sanitized_printable.
Qed.

Lemma sanitize_buffer_refines_witness :
  until_nul (sanitize_buffer (bytes "  Server:  1.2.3.4 " ++ zero :: bytes "rest"))
  = sanitized (bytes "  Server:  1.2.3.4 ").
Proof.
  apply (sanitize_buffer_refines (bytes "  Server:  1.2.3.4 ") (bytes "rest")).
  reflexivity.
Defined.

(** Example A of the specification: the labelled triple yields one IPv4
    record. *)
Example extract_labelled_triple :
  map (fun r => (server r, port r, secret r, type r))
    (proxy_storage sample_world)
  = [(bytes "1.2.3.4", bytes "443", bytes "deadbeefdeadbeefdeadbeef",
      bytes "IPv4")].
Proof. reflexivity. Qed.

(** * Further properties: normal forms, the store, the fetch path and the scheduler *)

(** ** The normal form of a sanitized field *)

Lemma code_space (c : ascii) : code c = 32 -> c = " "%char.
Proof.
  intro Hc. unfold code in Hc. apply (f_equal Z.to_N) in Hc.
  rewrite N2Z.id in Hc. apply (f_equal ascii_of_N) in Hc.
  rewrite ascii_N_embedding in Hc. exact Hc.
Qed.

(** Among printable bytes the blanks are the spaces. *)
Lemma printable_blank (c : ascii) :
  is_printable c = true -> is_blank c = (code c =? 32).
Proof.
  unfold is_printable, is_blank. intro Hp.
  apply andb_prop in Hp. destruct Hp as [Hlo _]. apply Z.leb_le in Hlo.
  destruct (Z.eqb_spec (code c) 32); [reflexivity|].
  destruct (Z.eqb_spec (code c) 9); [lia|].
  destruct (Z.eqb_spec (code c) 10); [lia|].
  destruct (Z.eqb_spec (code c) 13); [lia|]. reflexivity.
Qed.

Lemma forallb_printable (s : cstring) :
  forallb is_printable s = true <-> Forall (fun c => is_printable c = true) s.
Proof.
  rewrite forallb_forall, Forall_forall. reflexivity.
Qed.

Lemma filter_all (s : cstring) :
  forallb is_printable s = true -> filter is_printable s = s.
Proof.
  induction s as [|c s IH]; [reflexivity|].
  cbn [forallb filter]. intro H. apply andb_prop in H. destruct H as [Hc Hs].
  rewrite Hc, IH by exact Hs. reflexivity.
Qed.

(** Single-spaced printable text is left alone by the collapse of runs,
    unless it starts with a space inside a run. *)
Lemma collapse_runs_single_spaced (b : bool) (s : cstring) :
  forallb is_printable s = true ->
  single_spaced s = true ->
  (b = true -> starts_with_space s = false) ->
  collapse_runs b s = s.
Proof.
  revert b. induction s as [|c s IH]; intros b Hp Hs Hb; [reflexivity|].
  cbn [forallb] in Hp. apply andb_prop in Hp. destruct Hp as [Hc Hp].
  cbn [collapse_runs]. rewrite (printable_blank c Hc).
  cbn [starts_with_space] in Hb.
  assert (Hrest : single_spaced s = true).
  { cbn [single_spaced] in Hs. destruct s as [|c2 s']; [reflexivity|].
    apply andb_prop in Hs. apply Hs. }
  destruct (Z.eqb_spec (code c) 32) as [Hsp|Hsp].
  - destruct b; [specialize (Hb eq_refl); discriminate|].
    rewrite IH; [rewrite (code_space c Hsp); reflexivity|exact Hp|exact Hrest|].
    intros _. cbn [single_spaced] in Hs. destruct s as [|c2 s']; [reflexivity|].
    apply andb_prop in Hs. destruct Hs as [Hpair _].
    cbn [starts_with_space]. rewrite Hsp in Hpair. cbn in Hpair.
    destruct (code c2 =? 32); [discriminate|reflexivity].
  - rewrite IH; [reflexivity|exact Hp|exact Hrest|discriminate].
Qed.

Lemma drop_leading_blanks_id (s : cstring) :
  forallb is_printable s = true -> starts_with_space s = false ->
  drop_leading_blanks s = s.
Proof.
  destruct s as [|c s]; [reflexivity|].
  cbn [forallb starts_with_space drop_leading_blanks]. intros Hp Hs.
  apply andb_prop in Hp. destruct Hp as [Hc _].
  rewrite (printable_blank c Hc), Hs. reflexivity.
Qed.

(** Text in normal form is a fixed point of [sanitize_string]. *)
Lemma sanitized_normal_form (s : cstring) :
  normal_form s = true -> sanitized s = s.
Proof.
  unfold normal_form. intro H.
  apply andb_prop in H. destruct H as [H Hend].
  apply andb_prop in H. destruct H as [H Hstart].
  apply andb_prop in H. destruct H as [Hp Hs].
  apply negb_true_iff in Hend, Hstart.
  rewrite sanitized_both_ends. unfold both_ends_sanitize, drop_trailing_blanks.
  rewrite (filter_all s Hp).
  rewrite (collapse_runs_single_spaced false s Hp Hs) by discriminate.
  rewrite (drop_leading_blanks_id s Hp Hstart).
  rewrite drop_leading_blanks_id; [apply rev_involutive| |exact Hend].
  apply forallb_printable, Forall_rev, forallb_printable, Hp.
Qed.

Lemma collapse_runs_spaced (b : bool) (s : cstring) :
  forallb is_printable s = true ->
  single_spaced (collapse_runs b s) = true
  /\ (b = true -> starts_with_space (collapse_runs b s) = false).
Proof.
  revert b. induction s as [|c s IH]; intros b Hp;
    [split; [reflexivity|intros _; reflexivity]|].
  cbn [forallb] in Hp. apply andb_prop in Hp. destruct Hp as [Hc Hp].
  cbn [collapse_runs]. rewrite (printable_blank c Hc).
  destruct (Z.eqb_spec (code c) 32) as [Hsp|Hsp].
  - destruct (IH true Hp) as [H1 H2]. specialize (H2 eq_refl).
    destruct b; [split; [exact H1|intros _; exact H2]|].
    split; [|discriminate].
    cbn [single_spaced]. destruct (collapse_runs true s) as [|c2 r] eqn:Hr;
      [reflexivity|].
    cbn [starts_with_space] in H2. rewrite H2, andb_false_r. exact H1.
  - destruct (IH false Hp) as [H1 _].
    split.
    + cbn [single_spaced]. destruct (collapse_runs false s) as [|c2 r] eqn:Hr;
        [reflexivity|].
      replace (code c =? 32) with false by (symmetry; apply Z.eqb_neq; exact Hsp).
      exact H1.
    + intros _. cbn [starts_with_space]. apply Z.eqb_neq, Hsp.
Qed.

Lemma single_spaced_app_l (s t : cstring) :
  single_spaced (s ++ t) = true -> single_spaced s = true.
Proof.
  induction s as [|c s IH]; [reflexivity|].
  cbn [app single_spaced].
  destruct s as [|c2 s']; [reflexivity|]. cbn [app].
  intro H. apply andb_prop in H. destruct H as [Hpair Hrest].
  rewrite Hpair. apply IH. exact Hrest.
Qed.

Lemma starts_with_space_head (s t : cstring) :
  s <> [] -> starts_with_space (s ++ t) = starts_with_space s.
Proof. destruct s; [congruence|reflexivity]. Qed.

(** What [sanitize_string] leaves is in normal form. *)
Lemma sanitized_is_normal (s : cstring) : normal_form (sanitized s) = true.
Proof.
  pose proof (sanitized_printable s) as Hp. apply forallb_printable in Hp.
  unfold normal_form. rewrite Hp. cbn [andb].
  revert Hp. rewrite sanitized_both_ends. unfold both_ends_sanitize.
  rewrite <- collapse_runs_drop_leading. intro Hp.
  set (u := collapse_runs true (filter is_printable s)) in *.
  assert (Hfp : forallb is_printable (filter is_printable s) = true)
    by (apply forallb_printable, filter_printable).
  destruct (collapse_runs_spaced true _ Hfp) as [Hsingle Hstart].
  specialize (Hstart eq_refl). fold u in Hsingle, Hstart.
  destruct (drop_trailing_blanks_split u) as [blanks [Hsplit _]].
  assert (H1 : single_spaced (drop_trailing_blanks u) = true)
    by (apply (single_spaced_app_l _ blanks); rewrite <- Hsplit; exact Hsingle).
  assert (H2 : starts_with_space (drop_trailing_blanks u) = false).
  { destruct (drop_trailing_blanks u) as [|c r] eqn:Hd; [reflexivity|].
    rewrite Hsplit in Hstart. exact Hstart. }
  assert (H3 : starts_with_space (rev (drop_trailing_blanks u)) = false).
  { destruct (rev (drop_trailing_blanks u)) as [|c r] eqn:Hr; [reflexivity|].
    cbn [starts_with_space].
    assert (Hlast : drop_trailing_blanks u = rev r ++ [c]).
    { rewrite <- (rev_involutive (drop_trailing_blanks u)), Hr. reflexivity. }
    pose proof (drop_trailing_blanks_last u (rev r) c Hlast) as Hb.
    assert (Hc : is_printable c = true).
    { rewrite forallb_forall in Hp. apply Hp. rewrite Hlast.
      apply in_or_app. right. left. reflexivity. }
    rewrite <- (printable_blank c Hc). exact Hb. }
  rewrite H1, H2, H3. reflexivity.
Qed.

(** X5.  [sanitize_string] is a projection onto the texts in normal form:
    what it leaves is printable, single-spaced and free of spaces at both
    ends; it leaves such a text as it is; so a second pass changes
    nothing. *)
Theorem sanitize_string_normalizes (s : cstring) :
  (exists t,
     sanitize_string (Some s) = Some t
     /\ normal_form t = true
     /\ sanitize_string (Some t) = Some t)
  /\ (sanitize_string (Some s) = Some s <-> normal_form s = true).
Proof.
  split.
  - exists (sanitized s). split; [reflexivity|].
    split; [apply sanitized_is_normal|].
    cbn [sanitize_string]. f_equal.
    apply sanitized_normal_form, sanitized_is_normal.
  - cbn [sanitize_string]. split.
    + intro H. injection H as H. fold (sanitized s) in H.
      rewrite <- H. apply sanitized_is_normal.
    + intro H. f_equal. apply sanitized_normal_form, H.
Qed.

(** ** The label loops *)

Lemma until_nul_length (l : list ascii) :
  (List.length (until_nul l) <= List.length l)%nat.
Proof.
  induction l as [|c l IH]; [reflexivity|].
  cbn [until_nul]. destruct (is_nul c); cbn [List.length]; lia.
Qed.

Lemma strncpy_from_length (content : list ascii) (start n : Z) :
  0 <= n -> strlen (strncpy_from content start n) <= n.
Proof.
  intro Hn. unfold strncpy_from, strlen.
  pose proof (until_nul_length
                (firstn (Z.to_nat n) (skipn (Z.to_nat start) content))) as H1.
  pose proof (firstn_le_length (Z.to_nat n) (skipn (Z.to_nat start) content)) as H2.
  lia.
Qed.

Lemma strip_prefix_length (field prefix : cstring) :
  strlen (strip_prefix field prefix) <= strlen field.
Proof.
  unfold strip_prefix. destruct (strncasecmp_eq _ _ _); [|lia].
  pose proof (sanitized_length (skipn (List.length prefix) field)) as H1.
  unfold strlen in *. rewrite length_skipn in H1. lia.
Qed.

Lemma strip_prefixes_length (prefixes : list cstring) (field : cstring) :
  strlen (strip_prefixes prefixes field) <= strlen field.
Proof.
  unfold strip_prefixes. revert field.
  induction prefixes as [|p ps IH]; intro field; [cbn; lia|].
  cbn [fold_left]. pose proof (IH (strip_prefix field p)).
  pose proof (strip_prefix_length field p). lia.
Qed.

Lemma strip_prefix_normal (field prefix : cstring) :
  normal_form field = true -> normal_form (strip_prefix field prefix) = true.
Proof.
  intro H. unfold strip_prefix. destruct (strncasecmp_eq _ _ _); [|exact H].
  apply sanitized_is_normal.
Qed.

Lemma strip_prefixes_normal (prefixes : list cstring) (field : cstring) :
  normal_form field = true -> normal_form (strip_prefixes prefixes field) = true.
Proof.
  unfold strip_prefixes. revert field.
  induction prefixes as [|p ps IH]; intros field H; [exact H|].
  cbn [fold_left]. apply IH, strip_prefix_normal, H.
Qed.

Lemma strip_prefixes_unlabelled (prefixes : list cstring) (field : cstring) :
  labelled prefixes field = false -> strip_prefixes prefixes field = field.
Proof.
  unfold strip_prefixes, labelled.
  induction prefixes as [|p ps IH]; [reflexivity|].
  cbn [existsb fold_left]. intro H. apply orb_false_iff in H.
  destruct H as [Hp Hps]. unfold strip_prefix at 2. rewrite Hp. apply IH, Hps.
Qed.

(** When the labels that start a field all have one length, the loop
    removes the label once, provided none starts the rest. *)
Lemma strip_prefixes_label (prefixes : list cstring) (field label : cstring) :
  In label prefixes ->
  strncasecmp_eq field label (List.length label) = true ->
  (forall p, In p prefixes ->
             strncasecmp_eq field p (List.length p) = true ->
             List.length p = List.length label) ->
  labelled prefixes (sanitized (skipn (List.length label) field)) = false ->
  strip_prefixes prefixes field = sanitized (skipn (List.length label) field).
Proof.
  unfold strip_prefixes.
  induction prefixes as [|p ps IH]; intros Hin Hmatch Hsame Hrest; [destruct Hin|].
  cbn [fold_left]. unfold strip_prefix at 2.
  cbn [labelled existsb] in Hrest. apply orb_false_iff in Hrest.
  destruct Hrest as [_ Hrest].
  destruct (strncasecmp_eq field p (List.length p)) eqn:Hp.
  - rewrite (Hsame p (or_introl eq_refl) Hp).
    apply (strip_prefixes_unlabelled ps), Hrest.
  - destruct Hin as [->|Hin]; [congruence|].
    apply IH; auto. intros q Hq. apply Hsame. right. exact Hq.
Qed.

Lemma strncasecmp_first (c1 c2 : ascii) (f p : cstring) (n : nat) :
  strncasecmp_eq (c1 :: f) (c2 :: p) (S n) = true -> tolower c1 = tolower c2.
Proof.
  cbn [strncasecmp_eq]. intro H. apply andb_prop in H. apply Z.eqb_eq, H.
Qed.

Ltac same_family :=
  match goal with
  | |- _ => reflexivity
  | H1 : strncasecmp_eq (?c :: _) _ _ = true,
    H2 : strncasecmp_eq (?c :: _) _ _ = true |- _ =>
      exfalso; apply strncasecmp_first in H1; apply strncasecmp_first in H2;
      rewrite H1 in H2; vm_compute in H2; discriminate
  end.

Lemma labels_one_length (prefixes : list cstring) (field p q : cstring) :
  prefixes = field_prefixes \/ prefixes = port_prefixes
  \/ prefixes = secret_prefixes ->
  In p prefixes -> In q prefixes ->
  strncasecmp_eq field p (List.length p) = true ->
  strncasecmp_eq field q (List.length q) = true ->
  List.length p = List.length q.
Proof.
  intros Hlist Hp Hq H1 H2.
  destruct field as [|c f].
  { destruct Hlist as [-> | [-> | ->]]; cbn in Hp;
      repeat (destruct Hp as [<-|Hp]; [discriminate H1|]); destruct Hp. }
  destruct Hlist as [-> | [-> | ->]]; cbn in Hp, Hq;
    repeat (destruct Hp as [<-|Hp]; [|]); try (destruct Hp; fail);
    repeat (destruct Hq as [<-|Hq]; [|]); try (destruct Hq; fail);
    cbn [bytes list_ascii_of_string List.length] in *; same_family.
Qed.

(** X6.  The label loops of the extraction ([field_prefixes],
    [port_prefixes], [secret_prefixes]).  They never lengthen a field and
    keep a sanitized field sanitized; a field that starts with none of the
    labels is left as it is; and a field that starts with a label, in any
    letter case, loses the label and is sanitized again, which is the
    final result when no label starts what is left. *)
Theorem label_loops_strip_one_label (prefixes : list cstring) (field : cstring) :
  prefixes = field_prefixes \/ prefixes = port_prefixes
  \/ prefixes = secret_prefixes ->
  strlen (strip_prefixes prefixes field) <= strlen field
  /\ (normal_form field = true ->
      normal_form (strip_prefixes prefixes field) = true)
  /\ (labelled prefixes field = false -> strip_prefixes prefixes field = field)
  /\ (forall label,
        In label prefixes ->
        strncasecmp_eq field label (List.length label) = true ->
        labelled prefixes (sanitized (skipn (List.length label) field)) = false ->
        strip_prefixes prefixes field
        = sanitized (skipn (List.length label) field)).
Proof.
  intro Hlist. split; [apply strip_prefixes_length|].
  split; [apply strip_prefixes_normal|].
  split; [apply strip_prefixes_unlabelled|].
  intros label Hin Hmatch Hrest.
  apply strip_prefixes_label; try assumption.
  intros p Hp Hpm. apply (labels_one_length prefixes field); assumption.
Qed.

Lemma label_loops_strip_one_label_witness :
  strip_prefixes field_prefixes (bytes "sErVeR:  1.2.3.4") = bytes "1.2.3.4".
Proof.
  destruct (label_loops_strip_one_label field_prefixes (bytes "sErVeR:  1.2.3.4")
              (or_introl eq_refl)) as (_ & _ & _ & Hlabel).
  rewrite (Hlabel (bytes "Server:")); [reflexivity|left; reflexivity| |];
    reflexivity.
Defined.

(** ** The records the engine builds *)

Section RecordFacts.
Context {T : Target} {C : Collaborators}.

Lemma captured_fields_shape (content : list ascii) (mv : nat -> Z)
    (sv pt sc : cstring) :
  captured_fields content mv = Some (sv, pt, sc) ->
  strlen sv < 256 /\ strlen pt < 16 /\ strlen sc < 512
  /\ normal_form sv = true /\ normal_form pt = true /\ normal_form sc = true.
Proof.
  unfold captured_fields.
  destruct (negb (negb _)); [discriminate|].
  set (sl := size_t_sub (mv 3%nat) (mv 2%nat)).
  set (pl := size_t_sub (mv 5%nat) (mv 4%nat)).
  set (kl := size_t_sub (mv 7%nat) (mv 6%nat)).
  destruct (negb _) eqn:Hlen; [discriminate|].
  apply negb_false_iff in Hlen.
  repeat (apply andb_prop in Hlen; destruct Hlen as [Hlen ?]).
  repeat match goal with
         | H : (_ <? _) = true |- _ => apply Z.ltb_lt in H
         | H : (_ >=? _) = true |- _ => apply Z.geb_le in H
         end.
  intro Hsome.
  assert (Hsv : sv = strip_prefixes field_prefixes
                       (sanitized (strncpy_from content (mv 2%nat) sl)))
    by congruence.
  assert (Hpt : pt = strip_prefixes port_prefixes
                       (sanitized (strncpy_from content (mv 4%nat) pl)))
    by congruence.
  assert (Hsc : sc = strip_prefixes secret_prefixes
                       (sanitized (strncpy_from content (mv 6%nat) kl)))
    by congruence.
  clear Hsome.
  pose proof (strncpy_from_length content (mv 2%nat) sl ltac:(lia)).
  pose proof (strncpy_from_length content (mv 4%nat) pl ltac:(lia)).
  pose proof (strncpy_from_length content (mv 6%nat) kl ltac:(lia)).
  pose proof (sanitized_length (strncpy_from content (mv 2%nat) sl)).
  pose proof (sanitized_length (strncpy_from content (mv 4%nat) pl)).
  pose proof (sanitized_length (strncpy_from content (mv 6%nat) kl)).
  pose proof (strip_prefixes_length field_prefixes
                (sanitized (strncpy_from content (mv 2%nat) sl))).
  pose proof (strip_prefixes_length port_prefixes
                (sanitized (strncpy_from content (mv 4%nat) pl))).
  pose proof (strip_prefixes_length secret_prefixes
                (sanitized (strncpy_from content (mv 6%nat) kl))).
  rewrite <- Hsv, <- Hpt, <- Hsc in *.
  split; [lia|]. split; [lia|]. split; [lia|].
  rewrite Hsv, Hpt, Hsc.
  split; [|split]; apply strip_prefixes_normal, sanitized_is_normal.
Qed.

Lemma u64_range (z : Z) : 0 <= u64 z < 2 ^ 64.
Proof. unfold u64. apply Z.mod_pos_bound. lia. Qed.

Lemma hash_string_range (s : cstring) (h : Z) :
  0 <= h < 2 ^ 64 -> 0 <= hash_string h s < 2 ^ 64.
Proof.
  revert h. induction s as [|c s IH]; intros h Hh; [exact Hh|].
  cbn [hash_string]. apply IH. unfold hash_char. apply u64_range.
Qed.

Lemma compute_hash_range (sv pt sc : cstring) :
  0 <= compute_hash sv pt sc < 2 ^ 64.
Proof.
  unfold compute_hash. cbv zeta. rewrite hash_secret_firstn by lia.
  apply hash_string_range, u64_range.
Qed.

Lemma new_record_fits (sv pt sc src : cstring) (t1 t2 : Z) :
  validate_proxy (Some sv) (Some pt) (Some sc) = true ->
  record_fits (new_record sv pt sc src t1 t2).
Proof.
  intro Hvalid. apply validate_proxy_iff_checked in Hvalid.
  destruct Hvalid as (Hs & Hp & _ & Hk & _).
  unfold record_fits.
  cbn [new_record server port secret connection_url source country type
       hash_value].
  assert (Hurl : strlen (snprintf_url sv pt sc) <= 511).
  { unfold snprintf_url, strlen.
    pose proof (firstn_le_length 511 (proxy_url sv pt sc)). lia. }
  assert (Hsrc : strlen (firstn 255 src) <= 255).
  { unfold strlen. pose proof (firstn_le_length 255 src). lia. }
  split; [lia|]. split; [lia|]. split; [lia|]. split; [lia|]. split; [lia|].
  split; [reflexivity|]. split; [destruct (is_ip sv); reflexivity|].
  apply compute_hash_range.
Qed.

Lemma printable_firstn (n : nat) (s : cstring) :
  forallb is_printable s = true -> forallb is_printable (firstn n s) = true.
Proof.
  rewrite !forallb_forall. intros H c Hc. apply H.
  rewrite <- (firstn_skipn n s). apply in_or_app. left. exact Hc.
Qed.

Lemma normal_form_printable (s : cstring) :
  normal_form s = true -> forallb is_printable s = true.
Proof.
  unfold normal_form. intro H.
  repeat (apply andb_prop in H; destruct H as [H ?]). exact H.
Qed.

Lemma normal_form_start (s : cstring) :
  normal_form s = true -> starts_with_space s = false.
Proof.
  unfold normal_form. intro H.
  apply andb_prop in H. destruct H as [H _].
  apply andb_prop in H. destruct H as [_ H].
  apply negb_true_iff, H.
Qed.

(** A sanitized port that [validate_proxy] accepts has no blanks and no
    minus sign. *)
Lemma accepted_port_shape (pt : cstring) (v : Z) :
  normal_form pt = true -> parses_as pt v -> 1 <= v <= 65535 -> port_shape pt.
Proof.
  intros Hnf (blanks & sign & digits & Hpt & Hblanks & Hsign & Hne & Hdigits) Hv.
  assert (Hno : blanks = []).
  { destruct blanks as [|b bs]; [reflexivity|exfalso].
    pose proof (normal_form_printable pt Hnf) as Hp.
    pose proof (normal_form_start pt Hnf) as Hstart.
    rewrite Hpt in Hp, Hstart. cbn [app forallb starts_with_space] in Hp, Hstart.
    apply andb_prop in Hp. destruct Hp as [Hb _].
    cbn [forallb] in Hblanks. apply andb_prop in Hblanks.
    destruct Hblanks as [Hsp _].
    unfold isspace in Hsp. unfold is_printable in Hb.
    apply andb_prop in Hb. destruct Hb as [Hlo _]. apply Z.leb_le in Hlo.
    apply Z.eqb_neq in Hstart.
    apply orb_prop in Hsp. destruct Hsp as [Hsp|Hsp].
    - apply Z.eqb_eq in Hsp. contradiction.
    - apply andb_prop in Hsp. destruct Hsp as [_ Hhi]. apply Z.leb_le in Hhi. lia. }
  subst blanks. cbn [app] in Hpt.
  pose proof (decimal_fold_bounds digits 0 Hdigits ltac:(lia)) as [Hnonneg _].
  rewrite <- decimal_value_fold in Hnonneg.
  exists sign, digits.
  destruct Hsign as [[-> ->]|[[-> ->]|[-> ->]]].
  - repeat split; auto; lia.
  - repeat split; auto; lia.
  - lia.
Qed.

Lemma accepted_secret_chars (sc : cstring) :
  forallb is_printable sc = true ->
  forallb secret_char_ok (firstn 128 sc) = true ->
  forallb (fun c => is_hex c || is_pad c || (code c =? 32)) (firstn 128 sc) = true.
Proof.
  intros Hp Hok. apply (printable_firstn 128) in Hp.
  rewrite forallb_forall in *. intros c Hc.
  specialize (Hp c Hc). specialize (Hok c Hc).
  unfold secret_char_ok in Hok. rewrite (printable_blank c Hp) in Hok. exact Hok.
Qed.

Lemma new_record_clean (sv pt sc src : cstring) (t1 t2 : Z) :
  normal_form sv = true -> normal_form pt = true -> normal_form sc = true ->
  validate_proxy (Some sv) (Some pt) (Some sc) = true ->
  record_clean (new_record sv pt sc src t1 t2).
Proof.
  intros Hs Hp Hk Hvalid. apply validate_proxy_iff_checked in Hvalid.
  destruct Hvalid as (_ & _ & [v [Hparse Hv]] & _ & Hchars & _).
  unfold record_clean. cbn [new_record server port secret].
  repeat split; try assumption.
  - apply (accepted_port_shape pt v); assumption.
  - apply accepted_secret_chars; [apply normal_form_printable, Hk|exact Hchars].
Qed.

Lemma process_match_shape (content : list ascii) (src : cstring)
    (mv : nat -> Z) (d : list ProxyRecord) (e : Env) :
  Forall (fun r => record_fits r /\ record_clean r) d ->
  Forall (fun r => record_fits r /\ record_clean r)
    (fst (process_match content src mv d e)).
Proof.
  intro Hd.
  destruct (process_match_cases content src mv d e) as [e' [_ H]].
  destruct H as [H|(sv & pt & sc & t1 & t2 & H & Hcap & Hvalid & _)];
    rewrite H; cbn [fst]; [exact Hd|].
  apply Forall_app. split; [exact Hd|].
  constructor; [|constructor].
  destruct (captured_fields_shape content mv sv pt sc Hcap)
    as (_ & _ & _ & Hs & Hp & Hk).
  split; [apply new_record_fits, Hvalid|apply new_record_clean; assumption].
Qed.

(** Records with a property that one match keeps are the only ones an
    extraction appends. *)
Lemma feed_appends_kept (P : ProxyRecord -> Prop) (f : Feed) (w w' : World)
    (e' : Env) :
  (forall content src mv d e,
     Forall P d -> Forall P (fst (process_match content src mv d e))) ->
  feed f w = Some (w', e') ->
  exists added,
    proxy_storage w' = proxy_storage w ++ added /\ Forall P added.
Proof.
  intros Hkeep H. apply feed_step in H.
  destruct H as [[-> _]|(content & discovered & _ & _ & Hloop & ->)].
  - exists []. rewrite app_nil_r. split; [reflexivity|constructor].
  - destruct (merge_batch_appends discovered w) as [added [Heq Hincl]].
    exists added. split; [exact Heq|].
    assert (Hall : Forall P discovered).
    { eapply (pattern_loop_keeps content (feed_length f) (feed_source f)
                (Forall P)); [|constructor|exact Hloop].
      intros mv d e0. apply Hkeep. }
    rewrite Forall_forall in *. intros r Hr. apply Hall, Hincl, Hr.
Qed.
End RecordFacts.

(** ** The counters and the store *)

Section ProgramFacts.
Context {T : Target} {C : Collaborators}.

Lemma merge_loop_counted (discovered storage : list ProxyRecord)
    (added_count : Z) (s : SystemStatistics) :
  Z.of_nat (List.length storage) <= PROXY_CAPACITY ->
  unique_proxies s = Z.of_nat (List.length storage) ->
  successful_proxies s = Z.of_nat (List.length storage) ->
  let result := merge_loop discovered storage added_count s in
  Z.of_nat (List.length (fst (fst result))) <= PROXY_CAPACITY
  /\ unique_proxies (snd result) = Z.of_nat (List.length (fst (fst result)))
  /\ successful_proxies (snd result) = Z.of_nat (List.length (fst (fst result)))
  /\ same_traffic s (snd result)
  /\ last_cycle_proxies (snd result) = last_cycle_proxies s.
Proof.
  revert storage added_count s.
  induction discovered as [|d rest IH]; intros storage added_count s Hcap Hu Hs;
    cbv zeta.
  - cbn. repeat split; assumption.
  - cbn [merge_loop].
    destruct (Z.ltb_spec (Z.of_nat (List.length storage)) PROXY_CAPACITY)
      as [Hlt|Hge]; cbn [negb].
    2:{ cbn. repeat split; assumption. }
    destruct (duplicate_found storage (hash_value d)); [apply IH; assumption|].
    assert (Hlen : Z.of_nat (List.length (storage ++ [d]))
                   = Z.of_nat (List.length storage) + 1)
      by (rewrite length_app; cbn [List.length]; lia).
    assert (Hfit : u32 (Z.of_nat (List.length storage) + 1)
                   = Z.of_nat (List.length storage) + 1).
    { unfold u32. apply Z.mod_small. unfold PROXY_CAPACITY in Hlt. lia. }
    destruct (IH (storage ++ [d]) (added_count + 1) (count_added s))
      as (H1 & H2 & H3 & H4 & H5).
    + lia.
    + cbn [count_added unique_proxies]. unfold fetch_add. rewrite Hu, Hlen. exact Hfit.
    + cbn [count_added successful_proxies]. unfold fetch_add.
      rewrite Hs, Hlen. exact Hfit.
    + split; [exact H1|]. split; [exact H2|]. split; [exact H3|].
      split; [exact H4|exact H5].
Qed.

Lemma merge_batch_counted (batch : list ProxyRecord) (w : World) :
  store_counted w ->
  store_counted (merge_batch batch w)
  /\ same_traffic (stats w) (stats (merge_batch batch w)).
Proof.
  intros (Hcap & Hu & Hs). unfold merge_batch.
  destruct (0 <? Z.of_nat (List.length batch)).
  2:{ split; [split; [|split]; assumption|]. repeat split. }
  pose proof (merge_loop_counted batch (proxy_storage w) 0 (stats w) Hcap Hu Hs)
    as H. cbv zeta in H.
  destruct (merge_loop batch (proxy_storage w) 0 (stats w)) as [[st a] s].
  cbn [fst snd] in H. destruct H as (H1 & H2 & H3 & H4 & _).
  split; [|exact H4].
  unfold store_counted, total_proxies.
  cbn [proxy_storage stats add_last_cycle unique_proxies successful_proxies].
  split; [exact H1|]. split; assumption.
Qed.

Lemma feed_counted (f : Feed) (w w' : World) (e' : Env) :
  store_counted w -> feed f w = Some (w', e') ->
  store_counted w' /\ same_traffic (stats w) (stats w').
Proof.
  intros Hw H. apply feed_step in H.
  destruct H as [[-> _]|(content & discovered & _ & _ & _ & ->)].
  - split; [exact Hw|repeat split].
  - apply merge_batch_counted, Hw.
Qed.

(** The ways a call of [fetch_url_content] ends. *)
Lemma fetch_cases (curl_ok malloc_ok batch_ok : bool) (fresh : Z -> ascii)
    (t : Transfer) (url : cstring) (w : World) (e : Env)
    (success : Z) (w' : World) (e' : Env) :
  fetch_url_content curl_ok malloc_ok batch_ok fresh t url w e
  = Done (success, w', e') ->
  (program_active e = false /\ success = 0 /\ w' = w)
  \/ (program_active e = true /\ curl_ok = false /\ success = 0
      /\ w' = with_stats w (count_network_error (stats w)))
  \/ (program_active e = true /\ curl_ok = true /\ malloc_ok = false
      /\ success = 0 /\ w' = w)
  \/ (program_active e = true /\ curl_ok = true /\ malloc_ok = true
      /\ success = 0
      /\ w' = with_stats w (count_network_error (count_request (stats w)))
      /\ exists result buffer,
           curl_easy_perform t (initial_buffer fresh)
             (snd (load_program_active e)) = Done (result, buffer, e')
           /\ (result <> CURLE_OK \/ size buffer <= 0 \/ response_code t <> 200))
  \/ (program_active e = true /\ curl_ok = true /\ malloc_ok = true
      /\ success = 1
      /\ exists buffer e1 w2,
           curl_easy_perform t (initial_buffer fresh)
             (snd (load_program_active e)) = Done (CURLE_OK, buffer, e1)
           /\ 0 < size buffer /\ response_code t = 200
           /\ extract_proxies_from_content batch_ok (buffer_bytes buffer)
                (size buffer) url
                (with_stats w (add_total_bytes (count_request (stats w))
                                 (size buffer))) e1
              = Some (w2, e')
           /\ w' = with_stats w2 (count_processed_url (stats w2))).
Proof.
  unfold fetch_url_content.
  pose proof (load_result e) as Hload.
  destruct (load_program_active e) as [running e0]. cbn [fst snd] in *.
  destruct running; cbn [negb].
  2:{ intro H. injection H as <- <- <-. left. auto. }
  symmetry in Hload.
  destruct curl_ok; cbn [negb].
  2:{ intro H. injection H as <- <- <-. right. left. auto. }
  destruct malloc_ok; cbn [negb].
  2:{ intro H. injection H as <- <- <-. right. right. left. auto. }
  destruct (curl_easy_perform t (initial_buffer fresh) e0)
    as [[[result buffer] e1]| |]; try discriminate.
  cbn [stats with_stats proxy_storage].
  assert (Hfail : (result <> CURLE_OK \/ size buffer <= 0 \/ response_code t <> 200) ->
            Done (0, with_stats w (count_network_error (count_request (stats w))), e1)
            = Done (success, w', e') ->
            program_active e = true /\ true = true /\ true = true /\ success = 0
            /\ w' = with_stats w (count_network_error (count_request (stats w)))
            /\ exists result0 buffer0,
                 Done (result, buffer, e1) = Done (result0, buffer0, e')
                 /\ (result0 <> CURLE_OK \/ size buffer0 <= 0
                     \/ response_code t <> 200)).
  { intros Hwhy H. injection H as <- <- <-.
    repeat split; auto. exists result, buffer. split; [reflexivity|exact Hwhy]. }
  destruct (Z.eqb_spec result CURLE_OK) as [Hres|Hres]; cbn [andb].
  2:{ intro H. right. right. right. left. apply Hfail; auto. }
  destruct (Z.gtb_spec (size buffer) 0) as [Hsize|Hsize].
  2:{ intro H. right. right. right. left. apply Hfail; auto. }
  destruct (Z.eqb_spec (response_code t) 200) as [Hcode|Hcode].
  2:{ intro H. right. right. right. left. apply Hfail; auto. }
  destruct (extract_proxies_from_content _ _ _ _ _ _) as [[w2 e2]|] eqn:Hx;
    [|discriminate].
  intro H. injection H as <- <- <-. right. right. right. right.
  repeat split; auto. subst result. exists buffer, e1, w2.
  repeat split; auto; lia.
Qed.

Lemma with_stats_same (w w' : World) :
  proxy_storage w' = proxy_storage w -> w' = with_stats w (stats w').
Proof. destruct w, w'. cbn. intros ->. reflexivity. Qed.

(** A property of states that every extraction and every update of the
    other counters keeps holds in every state the program passes
    through. *)
Lemma operates_invariant (P : World -> Prop) :
  P initial_world ->
  (forall w f w' e', P w -> feed f w = Some (w', e') -> P w') ->
  (forall w s', P w -> counters_only (stats w) s' -> P (with_stats w s')) ->
  forall w, operates w -> P w.
Proof.
  intros Hinit Hfeed Hcount.
  assert (Hfetch : forall curl_ok malloc_ok batch_ok fresh t url w e success w' e',
             P w ->
             fetch_url_content curl_ok malloc_ok batch_ok fresh t url w e
             = Done (success, w', e') -> P w').
  { intros curl_ok malloc_ok batch_ok fresh t url w e success w' e' Hw H.
    apply fetch_cases in H.
    destruct H as [(_ & _ & ->)|[(_ & _ & _ & ->)|[(_ & _ & _ & _ & ->)|
      [(_ & _ & _ & _ & -> & _)|(_ & _ & _ & _ & buffer & e1 & w2 & _ & _ & _ & Hx & ->)]]]].
    - exact Hw.
    - apply Hcount; [exact Hw|split; reflexivity].
    - exact Hw.
    - apply Hcount; [exact Hw|split; reflexivity].
    - apply Hcount; [|split; reflexivity].
      apply (Hfeed (with_stats w (add_total_bytes (count_request (stats w))
                                    (size buffer)))
               {| feed_malloc_ok := batch_ok;
                  feed_content := buffer_bytes buffer;
                  feed_length := size buffer;
                  feed_source := url;
                  feed_env := e1 |} w2 e');
        [|exact Hx].
      apply Hcount; [exact Hw|split; reflexivity]. }
  induction 1 as [|w f w' e' _ IH Hf
                  |w curl_ok malloc_ok batch_ok fresh t url e success w' e' _ IH Hf
                  |w task curl_ok malloc_ok batch_ok fresh t e w' e' _ IH Hw
                  |w s' _ IH Hs].
  - exact Hinit.
  - eapply Hfeed; eassumption.
  - eapply Hfetch; eassumption.
  - unfold run_url_worker in Hw.
    destruct (load_program_active e) as [running e0].
    assert (Hdone : forall w1 e1,
              P w1 -> Done (with_stats w1 (add_active_workers (stats w1) (-1)), e1)
                      = Done (w', e') -> P w').
    { intros w1 e1 Hw1 H. injection H as <- _.
      apply Hcount; [exact Hw1|split; reflexivity]. }
    destruct task as [[url|]|]; try (eapply Hdone; eassumption).
    destruct running; try (eapply Hdone; eassumption).
    destruct (fetch_url_content _ _ _ _ _ _ _ _) as [[[s1 w1] e1]| |] eqn:Hf;
      try discriminate.
    eapply Hdone; [|exact Hw]. eapply Hfetch; eassumption.
  - apply Hcount; assumption.
Qed.
End ProgramFacts.

Section ProgramInvariants.
Context {T : Target} {C : Collaborators}.

Lemma operates_all (Q : ProxyRecord -> Prop) :
  (forall content src mv d e,
     Forall Q d -> Forall Q (fst (process_match content src mv d e))) ->
  forall w, operates w -> Forall Q (proxy_storage w).
Proof.
  intro Hkeep.
  apply (operates_invariant (fun w => Forall Q (proxy_storage w))).
  - constructor.
  - intros w f w' e' Hw Hf.
    destruct (feed_appends_kept Q f w w' e' Hkeep Hf) as [added [-> Hadded]].
    apply Forall_app. split; assumption.
  - intros w s' Hw _. exact Hw.
Qed.

Lemma operates_nodup (w : World) :
  operates w -> NoDup (hashes (proxy_storage w)).
Proof.
  revert w. apply (operates_invariant (fun w => NoDup (hashes (proxy_storage w)))).
  - constructor.
  - intros w f w' e' Hw Hf. apply feed_step in Hf.
    destruct Hf as [[-> _]|(content & discovered & _ & _ & _ & ->)];
      [exact Hw|].
    rewrite merge_batch_storage. apply merge_loop_nodup, Hw.
  - intros w s' Hw _. exact Hw.
Qed.

Lemma operates_counted (w : World) : operates w -> store_counted w.
Proof.
  revert w. apply (operates_invariant store_counted).
  - unfold store_counted, total_proxies, PROXY_CAPACITY. cbn. lia.
  - intros w f w' e' Hw Hf. eapply feed_counted; eassumption.
  - intros w s' (H1 & H2 & H3) [Hu Hs].
    unfold store_counted, total_proxies in *. cbn [with_stats proxy_storage stats].
    rewrite Hu, Hs. split; [exact H1|]. split; assumption.
Qed.

(** X7.  Between the steps of the threads, a merge being one step since
    it runs under [storage_mutex], the store holds at most 1,000,000
    records, no two of them with one hash, and the counters
    [unique_proxies] and [successful_proxies] both equal the number of
    records stored. *)
Theorem counters_agree_with_store (w : World) :
  operates w ->
  total_proxies w <= PROXY_CAPACITY
  /\ unique_proxies (stats w) = total_proxies w
  /\ successful_proxies (stats w) = total_proxies w
  /\ NoDup (hashes (proxy_storage w)).
Proof.
  intro Hw. destruct (operates_counted w Hw) as (H1 & H2 & H3).
  split; [exact H1|]. split; [exact H2|]. split; [exact H3|].
  apply operates_nodup, Hw.
Qed.

(** X8.  Every string of every stored record fits the array that
    [ProxyRecord] gives it, terminator included, and the hash is a 64-bit
    value. *)
Theorem stored_strings_fit_arrays (w : World) :
  operates w -> Forall record_fits (proxy_storage w).
Proof.
  intro Hw.
  pose proof (operates_all (fun r => record_fits r /\ record_clean r)
                process_match_shape w Hw) as H.
  eapply Forall_impl; [|exact H]. intros r [Hr _]. exact Hr.
Qed.

(** X9.  The server, the port and the secret of every stored record are in
    the normal form of [sanitize_string]; the port is an optional plus
    sign followed by decimal digits that read as a number from 1 to 65535;
    and the first 128 characters of the secret are hex digits, '=' or
    single spaces. *)
Theorem stored_fields_clean (w : World) :
  operates w -> Forall record_clean (proxy_storage w).
Proof.
  intro Hw.
  pose proof (operates_all (fun r => record_fits r /\ record_clean r)
                process_match_shape w Hw) as H.
  eapply Forall_impl; [|exact H]. intros r [_ Hr]. exact Hr.
Qed.
End ProgramInvariants.

Lemma counters_agree_with_store_witness :
  unique_proxies (stats fetched_world) = total_proxies fetched_world.
Proof.
  apply (@counters_agree_with_store x86_64_linux sample_collaborators
           fetched_world).
  apply (@operates_fetch x86_64_linux sample_collaborators initial_world
           true true true (fun _ => "x"%char) sample_transfer
           (bytes "https://t.me/s/ProxyMTProto") sample_env 1 fetched_world
           {| active_loads := None; time_calls := 4 |}).
  - apply operates_initial.
  - vm_compute. reflexivity.
Defined.

Lemma stored_strings_fit_arrays_witness :
  Forall record_fits (proxy_storage fetched_world).
Proof.
  apply (@stored_strings_fit_arrays x86_64_linux sample_collaborators
           fetched_world).
  apply (@operates_fetch x86_64_linux sample_collaborators initial_world
           true true true (fun _ => "x"%char) sample_transfer
           (bytes "https://t.me/s/ProxyMTProto") sample_env 1 fetched_world
           {| active_loads := None; time_calls := 4 |}).
  - apply operates_initial.
  - vm_compute. reflexivity.
Defined.

Lemma stored_fields_clean_witness :
  Forall record_clean (proxy_storage fetched_world).
Proof.
  apply (@stored_fields_clean x86_64_linux sample_collaborators fetched_world).
  apply (@operates_fetch x86_64_linux sample_collaborators initial_world
           true true true (fun _ => "x"%char) sample_transfer
           (bytes "https://t.me/s/ProxyMTProto") sample_env 1 fetched_world
           {| active_loads := None; time_calls := 4 |}).
  - apply operates_initial.
  - vm_compute. reflexivity.
Defined.

(** ** The accounting of fetch_url_content *)

Section FetchFacts.
Context {T : Target} {C : Collaborators}.

Lemma merge_loop_traffic (discovered storage : list ProxyRecord)
    (added_count : Z) (s : SystemStatistics) :
  same_traffic s (snd (merge_loop discovered storage added_count s)).
Proof.
  revert storage added_count s.
  induction discovered as [|d rest IH]; intros storage added_count s;
    [repeat split|].
  cbn [merge_loop].
  destruct (Z.of_nat (List.length storage) <? PROXY_CAPACITY); cbn [negb];
    [|repeat split].
  destruct (duplicate_found storage (hash_value d)); [apply IH|].
  destruct (IH (storage ++ [d]) (added_count + 1) (count_added s))
    as (H1 & H2 & H3 & H4 & H5 & H6 & H7).
  repeat split; assumption.
Qed.

Lemma feed_traffic (f : Feed) (w w' : World) (e' : Env) :
  feed f w = Some (w', e') -> same_traffic (stats w) (stats w').
Proof.
  intro H. apply feed_step in H.
  destruct H as [[-> _]|(content & discovered & _ & _ & _ & ->)];
    [repeat split|].
  unfold merge_batch. destruct (0 <? Z.of_nat (List.length discovered));
    [|repeat split].
  pose proof (merge_loop_traffic discovered (proxy_storage w) 0 (stats w)) as H.
  destruct (merge_loop discovered (proxy_storage w) 0 (stats w)) as [[st a] s].
  exact H.
Qed.

(** X10.  What a call of [fetch_url_content] that returns does to the
    counters.  It returns 1 only for a transfer that ended with
    [CURLE_OK], a body that is not empty and the status 200, and then it
    has counted one request, the bytes of the body and one processed URL,
    and no error.  When it returns 0 the
    store and the counters of the merge are as before and no URL was
    counted as processed; a request and a network error were counted when
    the transfer was started; a network error alone when no handle could
    be had; and nothing at all when the flag was down or the buffer could
    not be allocated. *)
Theorem fetch_accounts_for_request (curl_ok malloc_ok batch_ok : bool)
    (fresh : Z -> ascii) (t : Transfer) (url : cstring) (w : World) (e : Env)
    (success : Z) (w' : World) (e' : Env) :
  fetch_url_content curl_ok malloc_ok batch_ok fresh t url w e
  = Done (success, w', e') ->
  (success = 0 \/ success = 1)
  /\ (success = 1 ->
      program_active e = true /\ response_code t = 200
      /\ total_requests (stats w') = fetch_add (total_requests (stats w)) 1
      /\ processed_urls (stats w') = fetch_add (processed_urls (stats w)) 1
      /\ network_errors (stats w') = network_errors (stats w)
      /\ exists body e1,
           curl_easy_perform t (initial_buffer fresh)
             (snd (load_program_active e)) = Done (CURLE_OK, body, e1)
           /\ 0 < size body
           /\ total_bytes (stats w')
              = fetch_add (total_bytes (stats w)) (size body))
  /\ (success = 0 ->
      proxy_storage w' = proxy_storage w
      /\ unique_proxies (stats w') = unique_proxies (stats w)
      /\ successful_proxies (stats w') = successful_proxies (stats w)
      /\ processed_urls (stats w') = processed_urls (stats w)
      /\ total_bytes (stats w') = total_bytes (stats w)
      /\ total_requests (stats w')
         = (if program_active e && curl_ok && malloc_ok
            then fetch_add (total_requests (stats w)) 1
            else total_requests (stats w))
      /\ network_errors (stats w')
         = (if program_active e && (negb curl_ok || malloc_ok)
            then fetch_add (network_errors (stats w)) 1
            else network_errors (stats w))).
Proof.
  intro H. apply fetch_cases in H.
  destruct H as [(Ha & -> & ->)|[(Ha & -> & -> & ->)|[(Ha & -> & -> & -> & ->)|
    [(Ha & -> & -> & -> & -> & _)
    |(Ha & -> & -> & -> & buffer & e1 & w2 & Hrun & Hsize & Hcode & Hx & ->)]]]];
    rewrite Ha; cbn [andb negb orb].
  - split; [left; reflexivity|]. split; [discriminate|]. intros _. repeat split.
  - split; [left; reflexivity|]. split; [discriminate|]. intros _. repeat split.
  - split; [left; reflexivity|]. split; [discriminate|]. intros _. repeat split.
  - split; [left; reflexivity|]. split; [discriminate|]. intros _. repeat split.
  - split; [right; reflexivity|]. split; [|discriminate]. intros _.
    pose proof (feed_traffic
                  {| feed_malloc_ok := batch_ok;
                     feed_content := buffer_bytes buffer;
                     feed_length := size buffer;
                     feed_source := url;
                     feed_env := e1 |} _ w2 e' Hx)
      as (H1 & H2 & H3 & H4 & _).
    cbn [stats with_stats add_total_bytes count_request processed_urls
         network_errors total_requests total_bytes] in H1, H2, H3, H4.
    cbn [stats with_stats count_processed_url processed_urls network_errors
         total_requests total_bytes].
    split; [reflexivity|]. split; [exact Hcode|]. split; [exact H3|].
    split; [rewrite H1; reflexivity|]. split; [exact H2|].
    exists buffer, e1. split; [exact Hrun|]. split; [exact Hsize|exact H4].
Qed.
End FetchFacts.

Lemma fetch_accounts_for_request_witness :
  total_requests (stats fetched_world) = 1
  /\ processed_urls (stats fetched_world) = 1
  /\ network_errors (stats fetched_world) = 0.
Proof.
  destruct (@fetch_accounts_for_request x86_64_linux sample_collaborators
              true true true (fun _ => "x"%char) sample_transfer
              (bytes "https://t.me/s/ProxyMTProto") initial_world sample_env
              1 fetched_world {| active_loads := None; time_calls := 4 |})
    as (_ & Hone & _).
  - vm_compute. reflexivity.
  - destruct (Hone eq_refl) as (_ & _ & H1 & H2 & H3 & _).
    rewrite H1, H2, H3. vm_compute. repeat split.
Defined.

(** ** The download buffer below its ceiling *)

Lemma u64_small (z : Z) : 0 <= z < 2 ^ 64 -> u64 z = z.
Proof. intro H. unfold u64. apply Z.mod_small. exact H. Qed.

Lemma buffer_capacity_small : BUFFER_CAPACITY < 2 ^ 62.
Proof. unfold BUFFER_CAPACITY. lia. Qed.

(** What the callback computes when the chunk fits the capacity it ends
    up with: [new_capacity] after a growth, the old capacity otherwise. *)
Lemma write_callback_stores (block : Z -> ascii) (sz cap : Z)
    (chunk : list ascii) (realloc_ok : bool) :
  0 <= sz -> 0 <= cap <= BUFFER_CAPACITY ->
  sz + strlen chunk + 1 <= BUFFER_CAPACITY ->
  realloc_ok = true \/ sz + strlen chunk + 1 <= cap ->
  exists cap',
    write_callback chunk 1 (strlen chunk)
      (Some {| data := Some block; size := sz; capacity := cap |})
      true realloc_ok
    = Returned (strlen chunk)
        (Some {| data := Some (store_at (memcpy_at block sz chunk)
                                 (sz + strlen chunk) zero);
                 size := sz + strlen chunk;
                 capacity := cap' |})
    /\ cap <= cap' <= BUFFER_CAPACITY
    /\ sz + strlen chunk + 1 <= cap'.
Proof.
  intros Hsz Hcap Hfit Hroom.
  pose proof buffer_capacity_small as HBC.
  pose proof (strlen_nonneg chunk) as Hc.
  unfold write_callback. cbn [negb data size capacity].
  rewrite Z.mul_1_l, (u64_small (strlen chunk)) by lia.
  rewrite (u64_small (sz + strlen chunk + 1)) by lia.
  rewrite (u64_small (cap * 2)) by lia.
  destruct (Z.gtb_spec (sz + strlen chunk + 1) cap) as [Hgrow|Hkeep].
  - destruct Hroom as [->|Hroom]; [|lia].
    destruct (Z.ltb_spec (cap * 2) (sz + strlen chunk + 1)) as [Hsmall|Hbig].
    + replace (sz + strlen chunk + 1 >? BUFFER_CAPACITY) with false
        by (symmetry; rewrite Z.gtb_ltb; apply Z.ltb_ge; lia).
      cbn [data size capacity].
      replace (sz + strlen chunk + 1 >? sz + strlen chunk + 1) with false
        by (symmetry; rewrite Z.gtb_ltb; apply Z.ltb_ge; lia).
      rewrite (u64_small (sz + strlen chunk)) by lia.
      exists (sz + strlen chunk + 1). split; [reflexivity|lia].
    + destruct (Z.gtb_spec (cap * 2) BUFFER_CAPACITY) as [Hclamp|Hno];
        cbn [data size capacity].
      * replace (sz + strlen chunk + 1 >? BUFFER_CAPACITY) with false
          by (symmetry; rewrite Z.gtb_ltb; apply Z.ltb_ge; lia).
        rewrite (u64_small (sz + strlen chunk)) by lia.
        exists BUFFER_CAPACITY. split; [reflexivity|lia].
      * replace (sz + strlen chunk + 1 >? cap * 2) with false
          by (symmetry; rewrite Z.gtb_ltb; apply Z.ltb_ge; lia).
        rewrite (u64_small (sz + strlen chunk)) by lia.
        exists (cap * 2). split; [reflexivity|lia].
  - cbn [data size capacity].
    replace (sz + strlen chunk + 1 >? cap) with false
      by (symmetry; rewrite Z.gtb_ltb; apply Z.ltb_ge; lia).
    rewrite (u64_small (sz + strlen chunk)) by lia.
    exists cap. split; [reflexivity|lia].
Qed.

(** A chunk that fits under the ceiling is appended. *)
Lemma write_callback_appends (buffer : DynamicBuffer)
    (received chunk : list ascii) (realloc_ok : bool) :
  buffer_holds buffer received ->
  strlen received + strlen chunk + 1 <= BUFFER_CAPACITY ->
  realloc_ok = true \/ strlen received + strlen chunk + 1 <= capacity buffer ->
  exists buffer',
    write_callback chunk 1 (strlen chunk) (Some buffer) true realloc_ok
    = Returned (strlen chunk) (Some buffer')
    /\ buffer_holds buffer' (received ++ chunk)
    /\ capacity buffer <= capacity buffer'.
Proof.
  intros (block & Hdata & Hsize & Hbytes & Hnul & Hcap) Hfit Hroom.
  pose proof (strlen_nonneg received) as Hr.
  pose proof (strlen_nonneg chunk) as Hc.
  destruct buffer as [d sz cap]. cbn [data size capacity] in *. subst d sz.
  destruct (write_callback_stores block (strlen received) cap chunk realloc_ok)
    as (cap' & Heq & Hcap' & Hneeded); try lia; try assumption.
  eexists. split; [exact Heq|]. split; [|cbn [capacity]; lia].
  exists (store_at (memcpy_at block (strlen received) chunk)
            (strlen received + strlen chunk) zero).
  cbn [data size capacity]. rewrite strlen_app.
  split; [reflexivity|]. split; [reflexivity|].
  split; [|split; [unfold store_at; rewrite Z.eqb_refl; reflexivity|lia]].
  intros i Hi. rewrite length_app in Hi.
  unfold store_at, memcpy_at, strlen in *.
  replace (Z.of_nat i =? Z.of_nat (List.length received)
                         + Z.of_nat (List.length chunk)) with false
    by (symmetry; apply Z.eqb_neq; lia).
  destruct (Nat.lt_ge_cases i (List.length received)) as [Hlt|Hge].
  - replace (Z.of_nat (List.length received) <=? Z.of_nat i) with false
      by (symmetry; apply Z.leb_gt; lia).
    cbn [andb]. rewrite app_nth1 by exact Hlt. apply Hbytes, Hlt.
  - replace (Z.of_nat (List.length received) <=? Z.of_nat i) with true
      by (symmetry; apply Z.leb_le; lia).
    replace (Z.of_nat i <? Z.of_nat (List.length received)
                           + Z.of_nat (List.length chunk)) with true
      by (symmetry; apply Z.ltb_lt; lia).
    cbn [andb]. rewrite app_nth2 by exact Hge. f_equal. lia.
Qed.

Lemma load_without_request (e : Env) :
  active_loads e = None -> load_program_active e = (true, e).
Proof. unfold load_program_active. intros ->. reflexivity. Qed.

(** The calls of the write function during an undisturbed transfer that
    stays under the ceiling: the buffer ends up holding the chunks in
    order. *)
Lemma write_chunks_appends (realloc_ok : nat -> bool) (final_result : Z)
    (todo : list (list ascii)) (call : nat) (buffer : DynamicBuffer)
    (received : list ascii) (e : Env) :
  active_loads e = None ->
  (forall n, realloc_ok n = true) ->
  buffer_holds buffer received ->
  strlen received + strlen (List.concat todo) + 1 <= BUFFER_CAPACITY ->
  exists buffer',
    write_chunks realloc_ok final_result todo call buffer e
    = Done (final_result, buffer', e)
    /\ buffer_holds buffer' (received ++ List.concat todo).
Proof.
  intros He Hre. revert call buffer received.
  induction todo as [|chunk rest IH]; intros call buffer received Hb Hfit.
  - exists buffer. cbn [write_chunks List.concat]. rewrite app_nil_r. auto.
  - cbn [write_chunks List.concat] in *. rewrite strlen_app in Hfit.
    pose proof (strlen_nonneg (List.concat rest)).
    rewrite (load_without_request e He).
    destruct (write_callback_appends buffer received chunk (realloc_ok call) Hb)
      as (buffer1 & Heq & Hb1 & _); [lia|left; apply Hre|].
    rewrite Heq, Z.eqb_refl.
    destruct (IH (S call) buffer1 (received ++ chunk) Hb1) as (buffer2 & H2 & Hb2).
    { rewrite strlen_app. lia. }
    exists buffer2. rewrite H2, <- app_assoc in *. auto.
Qed.

Lemma map_nth_seq (l : list ascii) (block : Z -> ascii) :
  (forall i, (i < List.length l)%nat -> block (Z.of_nat i) = nth i l zero) ->
  map (fun i => block (Z.of_nat i)) (seq 0 (List.length l)) = l.
Proof.
  intro H. apply (nth_ext _ _ zero zero).
  - rewrite length_map, length_seq. reflexivity.
  - intros n Hn. rewrite length_map, length_seq in Hn.
    rewrite (nth_indep _ zero (block (Z.of_nat 0))) by (rewrite length_map, length_seq; exact Hn).
    rewrite (map_nth (fun i => block (Z.of_nat i)) (seq 0 (List.length l)) 0%nat n).
    rewrite seq_nth by exact Hn. apply H, Hn.
Qed.

Lemma buffer_holds_bytes (buffer : DynamicBuffer) (received : list ascii) :
  buffer_holds buffer received -> buffer_bytes buffer = Some received.
Proof.
  intros (block & Hdata & Hsize & Hbytes & _).
  unfold buffer_bytes. rewrite Hdata, Hsize. unfold strlen.
  rewrite Nat2Z.id. f_equal. apply map_nth_seq, Hbytes.
Qed.

Lemma initial_buffer_holds (fresh : Z -> ascii) :
  buffer_holds (initial_buffer fresh) [].
Proof.
  exists (store_at fresh 0 zero). unfold initial_buffer, BUFFER_CAPACITY.
  cbn [data size capacity].
  split; [reflexivity|]. split; [reflexivity|].
  split; [intros i Hi; cbn in Hi; lia|].
  split; [reflexivity|lia].
Qed.

Section FetchBody.
Context {T : Target} {C : Collaborators}.

(** X11.  An undisturbed transfer that succeeds with the status 200 and a
    body of 1 to 104857599 bytes: whatever the chunks the body arrives
    in, [fetch_url_content] hands the extraction the bytes of the body in
    the order received, with their number as length and the URL as source
    tag, after counting the request and the bytes; it returns 1 and
    counts the URL as processed. *)
Theorem fetch_parses_received_body (batch_ok : bool) (fresh : Z -> ascii)
    (t : Transfer) (url : cstring) (w : World) (e : Env) :
  active_loads e = None ->
  (forall n, realloc_succeeds t n = true) ->
  transfer_result t = CURLE_OK ->
  response_code t = 200 ->
  0 < strlen (List.concat (chunks t)) ->
  strlen (List.concat (chunks t)) + 1 <= BUFFER_CAPACITY ->
  fetch_url_content true true batch_ok fresh t url w e
  = match extract_proxies_from_content batch_ok (Some (List.concat (chunks t)))
            (strlen (List.concat (chunks t))) url
            (with_stats w (add_total_bytes (count_request (stats w))
                             (strlen (List.concat (chunks t))))) e with
    | Some (w', e') =>
        Done (1, with_stats w' (count_processed_url (stats w')), e')
    | None => Unfinished
    end.
Proof.
  intros He Hre Hres Hcode Hpos Hfit.
  unfold fetch_url_content. rewrite (load_without_request e He).
  cbn [negb]. unfold curl_easy_perform.
  destruct (write_chunks_appends (realloc_succeeds t) (transfer_result t)
              (chunks t) 0 (initial_buffer fresh) [] e He Hre
              (initial_buffer_holds fresh))
    as (buffer & Heq & Hb).
  { cbn [app]. unfold strlen at 1. cbn [List.length]. lia. }
  rewrite Heq. cbn [app] in Hb.
  pose proof (buffer_holds_bytes buffer _ Hb) as Hbytes.
  destruct Hb as (block & _ & Hsize & _).
  rewrite Hres, Z.eqb_refl, Hsize, Hcode, Z.eqb_refl, Hbytes. cbn [andb].
  replace (strlen (List.concat (chunks t)) >? 0) with true
    by (symmetry; rewrite Z.gtb_ltb; apply Z.ltb_lt; lia).
  cbn [stats with_stats proxy_storage]. reflexivity.
Qed.
End FetchBody.

Lemma fetch_parses_received_body_witness :
  @fetch_url_content x86_64_linux sample_collaborators true true true
    (fun _ => "x"%char) sample_transfer (bytes "https://t.me/s/ProxyMTProto")
    initial_world sample_env
  = Done (1, fetched_world, {| active_loads := None; time_calls := 4 |}).
Proof.
  rewrite (@fetch_parses_received_body x86_64_linux sample_collaborators true
             (fun _ => "x"%char) sample_transfer
             (bytes "https://t.me/s/ProxyMTProto") initial_world sample_env);
    try reflexivity.
  - vm_compute. intro H. discriminate.
Defined.

(** X12.  [write_callback] below the ceiling.  On a buffer that holds the
    bytes received so far and their terminator, a chunk that leaves the
    total under 100 MB is appended: the callback returns the size of the
    chunk, the buffer holds the old bytes followed by the chunk and a
    terminator, inside a block that has not shrunk and is no larger than
    the ceiling.  With the flag down it returns 0 and leaves the buffer
    alone. *)
Theorem write_callback_appends_below_ceiling (buffer : DynamicBuffer)
    (received chunk : list ascii) (realloc_ok : bool) :
  buffer_holds buffer received ->
  strlen received + strlen chunk + 1 <= BUFFER_CAPACITY ->
  realloc_ok = true \/ strlen received + strlen chunk + 1 <= capacity buffer ->
  (exists buffer',
     write_callback chunk 1 (strlen chunk) (Some buffer) true realloc_ok
     = Returned (strlen chunk) (Some buffer')
     /\ buffer_holds buffer' (received ++ chunk)
     /\ capacity buffer <= capacity buffer')
  /\ write_callback chunk 1 (strlen chunk) (Some buffer) false realloc_ok
     = Returned 0 (Some buffer).
Proof.
  intros Hb Hfit Hroom. split; [|reflexivity].
  apply write_callback_appends; assumption.
Qed.

Lemma write_callback_appends_below_ceiling_witness :
  exists buffer',
    write_callback (bytes "Secret: deadbeef") 1 16
      (Some (initial_buffer (fun _ => "x"%char))) true false
    = Returned 16 (Some buffer')
    /\ buffer_holds buffer' (bytes "Secret: deadbeef").
Proof.
  destruct (write_callback_appends_below_ceiling
              (initial_buffer (fun _ => "x"%char)) [] (bytes "Secret: deadbeef")
              false (initial_buffer_holds _)) as [(buffer' & Heq & Hb & _) _].
  - vm_compute. intro H. discriminate.
  - right. vm_compute. intro H. discriminate.
  - exists buffer'. split; [exact Heq|exact Hb].
Defined.

(** ** The checkpoint of a quiet store *)

Section CheckpointCounts.
Context {T : Target} {C : Collaborators}.

Lemma filter_all_active (cells : list ProxyRecord) :
  Forall created_fields cells -> filter is_active cells = cells.
Proof.
  induction 1 as [|r cells Hr Hcells IH]; [reflexivity|].
  cbn [filter]. destruct Hr as (_ & _ & Hactive & _).
  unfold is_active at 1. rewrite Hactive, IH. reflexivity.
Qed.

(** X13.  A checkpoint written while no merge runs, as the final one is.
    Its numbers agree: the members [total_proxies] and [unique_proxies]
    of the JSON document, the two numbers of the header of the text file,
    the number of entries of the [proxies] array and the number of URL
    lines are all the number of records in the store, and the lines are
    the stored URLs in the order of the store. *)
Theorem checkpoint_counts_agree (w : World) (e : Env) :
  operates w ->
  exists root header lines e',
    save_proxies_to_json true true true w e
    = (Some {| proxies_json := Some root;
               proxies_txt := Some (header ++ lines) |}, e')
    /\ json_member (bytes "total_proxies") root
       = Some (JInteger (total_proxies w))
    /\ json_member (bytes "unique_proxies") root
       = Some (JInteger (total_proxies w))
    /\ (exists items,
          json_member (bytes "proxies") root = Some (JArray items)
          /\ Z.of_nat (List.length items) = total_proxies w)
    /\ List.length header = 6%nat
    /\ nth 2 header [] = bytes "# Total proxies: " ++ format_d (total_proxies w)
    /\ nth 4 header [] = bytes "# Unique proxies: " ++ format_d (total_proxies w)
    /\ lines = map connection_url (proxy_storage w)
    /\ Z.of_nat (List.length lines) = total_proxies w.
Proof.
  intro Hw.
  pose proof (operates_all created_fields process_match_created w Hw) as Hcreated.
  destruct (operates_counted w Hw) as (_ & Hunique & _).
  assert (Hcells : cells_read (total_proxies w) (proxy_storage w)
                   = proxy_storage w).
  { unfold total_proxies. rewrite <- (app_nil_r (proxy_storage w)) at 2.
    apply cells_read_later. }
  unfold save_proxies_to_json, write_checkpoint. cbn [negb].
  rewrite Hcells, proxies_array_map, url_lines_map.
  rewrite (filter_all_active _ Hcreated).
  eexists _, _, _, _. split; [reflexivity|].
  split; [reflexivity|].
  split; [cbn; rewrite Hunique; reflexivity|].
  split; [eexists; split; [reflexivity|rewrite length_map; reflexivity]|].
  split; [reflexivity|]. split; [reflexivity|].
  split; [cbn [txt_header nth]; rewrite Hunique; reflexivity|].
  split; [reflexivity|]. rewrite length_map. reflexivity.
Qed.

End CheckpointCounts.

(** ** The key of the deduplication *)

Section DedupKey.
Context {T : Target} {C : Collaborators}.

Lemma operates_derived (w : World) :
  operates w -> Forall derived_fields (proxy_storage w).
Proof. apply operates_all. intros. apply process_match_derived. assumption. Qed.

(** X14.  The hash looks at the first 64 characters of the secret only.
    A proxy that differs from a stored one in its secret after the 64th
    character has the hash of the stored one, and the merge drops it as a
    duplicate: the store and the count of unique proxies stay as they
    are. *)
Theorem dedup_ignores_secret_tail (w : World) (r : ProxyRecord)
    (sc src : cstring) (t1 t2 : Z) :
  operates w ->
  In r (proxy_storage w) ->
  firstn 64 sc = firstn 64 (secret r) ->
  hash_value (new_record (server r) (port r) sc src t1 t2) = hash_value r
  /\ proxy_storage (merge_batch [new_record (server r) (port r) sc src t1 t2] w)
     = proxy_storage w
  /\ unique_proxies
       (stats (merge_batch [new_record (server r) (port r) sc src t1 t2] w))
     = unique_proxies (stats w).
Proof.
  intros Hw Hr Hsecret.
  pose proof (operates_derived w Hw) as Hderived.
  rewrite Forall_forall in Hderived. destruct (Hderived r Hr) as [Hhash _].
  assert (Hsame : hash_value (new_record (server r) (port r) sc src t1 t2)
                  = hash_value r).
  { cbn [new_record hash_value]. rewrite Hhash, !compute_hash_unfold, Hsecret.
    reflexivity. }
  split; [exact Hsame|].
  destruct (merge_batch_nothing_new
              [new_record (server r) (port r) sc src t1 t2] w) as (H1 & H2 & _).
  - right. intros h [<-|[]]. rewrite Hsame. unfold hashes.
    apply in_map, Hr.
  - split; assumption.
Qed.

End DedupKey.

(** ** The batch of one extraction *)

Section BatchBounds.
Context {T : Target} {C : Collaborators}.

Lemma process_match_bounded (content : list ascii) (src : cstring)
    (mv : nat -> Z) (d : list ProxyRecord) (e : Env) :
  Z.of_nat (List.length d) <= PROXY_BATCH_SIZE /\ NoDup (hashes d) ->
  Z.of_nat (List.length (fst (process_match content src mv d e)))
  <= PROXY_BATCH_SIZE
  /\ NoDup (hashes (fst (process_match content src mv d e))).
Proof.
  intros [Hlen Hnodup].
  destruct (process_match_cases content src mv d e) as [e' [_ H]].
  destruct H as [H|(sv & pt & sc & t1 & t2 & H & _ & _ & Hdup & Hroom)];
    rewrite H; cbn [fst]; [split; assumption|].
  split.
  - rewrite length_app. cbn [List.length]. lia.
  - rewrite hashes_app. cbn [hashes map new_record hash_value].
    apply NoDup_app; [exact Hnodup|repeat constructor; intros []|].
    intros h Hin [Hh|[]]. subst h.
    apply duplicate_found_spec in Hin. congruence.
Qed.

(** X15.  The batch of an extraction never outgrows the 5000 records
    allocated for it, and no two of its records have one hash, whatever
    the patterns match and whenever the loops are left. *)
Theorem batch_stays_within_bounds (fuel : nat) (patterns : list cstring)
    (content : list ascii) (content_length : Z) (src : cstring) (e : Env)
    (discovered : list ProxyRecord) (e' : Env) :
  pattern_loop fuel patterns content content_length src [] e
  = Some (discovered, e') ->
  Z.of_nat (List.length discovered) <= PROXY_BATCH_SIZE
  /\ NoDup (hashes discovered).
Proof.
  apply (pattern_loop_keeps content content_length src
           (fun d => Z.of_nat (List.length d) <= PROXY_BATCH_SIZE
                     /\ NoDup (hashes d))).
  - intros mv d e0. apply process_match_bounded.
  - split; [unfold PROXY_BATCH_SIZE; cbn; lia|constructor].
Qed.
End BatchBounds.

Lemma checkpoint_counts_agree_witness :
  exists root header lines e',
    @save_proxies_to_json sample_collaborators true true true fetched_world
      sample_env
    = (Some {| proxies_json := Some root;
               proxies_txt := Some (header ++ lines) |}, e')
    /\ lines = [bytes "tg://proxy?server=1.2.3.4&port=443&secret=deadbeefdeadbeefdeadbeef"].
Proof.
  destruct (@checkpoint_counts_agree x86_64_linux sample_collaborators
              fetched_world sample_env)
    as (root & header & lines & e' & Heq & _ & _ & _ & _ & _ & _ & Hlines & _).
  - apply (@operates_fetch x86_64_linux sample_collaborators initial_world
             true true true (fun _ => "x"%char) sample_transfer
             (bytes "https://t.me/s/ProxyMTProto") sample_env 1 fetched_world
             {| active_loads := None; time_calls := 4 |}).
    + apply operates_initial.
    + vm_compute. reflexivity.
  - exists root, header, lines, e'. split; [exact Heq|]. rewrite Hlines.
    reflexivity.
Defined.

Lemma dedup_ignores_secret_tail_witness :
  proxy_storage
    (@merge_batch
       [@new_record x86_64_linux (bytes "1.2.3.4") (bytes "443")
          (repeat "a"%char 64 ++ repeat "b"%char 16)
          (bytes "https://t.me/s/mtproxy") 1761000200 1761000201]
       long_secret_world)
  = proxy_storage long_secret_world.
Proof.
  destruct (@dedup_ignores_secret_tail x86_64_linux long_secret_collaborators
              long_secret_world
              (@new_record x86_64_linux (bytes "1.2.3.4") (bytes "443")
                 (repeat "a"%char 480) (bytes "https://t.me/s/ProxyMTProto")
                 1761000000 1761000001)
              (repeat "a"%char 64 ++ repeat "b"%char 16)
              (bytes "https://t.me/s/mtproxy") 1761000200 1761000201)
    as (_ & Hstore & _).
  - apply (@operates_extract x86_64_linux long_secret_collaborators
             initial_world long_secret_feed long_secret_world
             {| active_loads := None; time_calls := 2 |}).
    + apply operates_initial.
    + vm_compute. reflexivity.
  - vm_compute. left. reflexivity.
  - vm_compute. reflexivity.
  - exact Hstore.
Defined.

Lemma batch_stays_within_bounds_witness :
  exists discovered e',
    @pattern_loop x86_64_linux sample_collaborators (match_fuel 58)
      (@PARSE_PATTERNS sample_collaborators) sample_document 58
      (bytes "https://t.me/s/ProxyMTProto") [] sample_env
    = Some (discovered, e')
    /\ Z.of_nat (List.length discovered) <= PROXY_BATCH_SIZE.
Proof.
  eexists _, _. split; [vm_compute; reflexivity|].
  eapply (@batch_stays_within_bounds x86_64_linux sample_collaborators
            (match_fuel 58) (@PARSE_PATTERNS sample_collaborators)
            sample_document 58 (bytes "https://t.me/s/ProxyMTProto")
            sample_env).
  vm_compute. reflexivity.
Defined.

(** ** The order of the launches *)

Lemma launched_indices_app (a b : list event) :
  launched_indices (a ++ b) = launched_indices a ++ launched_indices b.
Proof.
  induction a as [|ev a IH]; [reflexivity|].
  destruct ev; cbn [app launched_indices]; rewrite IH; reflexivity.
Qed.

Lemma launched_indices_launched (l : list nat) (flag : bool) :
  launched_indices (map (fun i => Launched i flag) l) = l.
Proof.
  induction l as [|i l IH]; [reflexivity|].
  cbn [map launched_indices]. rewrite IH. reflexivity.
Qed.

Lemma launched_indices_joined (n : nat) :
  launched_indices (repeat Joined n) = [].
Proof. induction n as [|n IH]; [reflexivity|exact IH]. Qed.

Lemma launches_launched (l : list nat) (flag : bool) :
  launches (map (fun i => Launched i flag) l) = List.length l
  /\ joins (map (fun i => Launched i flag) l) = O.
Proof.
  unfold launches, joins. induction l as [|i l [IH1 IH2]]; [split; reflexivity|].
  cbn [map filter is_launch is_join List.length]. rewrite IH1, IH2.
  split; reflexivity.
Qed.

Section LaunchOrder.
Context {C : Collaborators} {Th : Threads}.

Lemma creatable_app (cycle first n m : nat) :
  creatable cycle first (n + m)
  = creatable cycle first n ++ creatable cycle (first + n) m.
Proof. unfold creatable. rewrite seq_app, filter_app. reflexivity. Qed.

Lemma creatable_length (cycle first n : nat) :
  (List.length (creatable cycle first n) <= n)%nat.
Proof.
  unfold creatable.
  pose proof (filter_length_le
                (fun i => match spawn cycle i with Created => true | _ => false end)
                (seq first n)) as H.
  rewrite length_seq in H. exact H.
Qed.

(** The launch loop creates the workers of the URLs of its batch whose
    task and thread can be had, in the order of the catalogue. *)
Lemma launch_loop_exact (cycle todo idx launched : nat) (c : Controller) :
  launch_loop cycle todo idx launched c
  = ((idx + Nat.min todo (url_count - idx))%nat,
     (launched
      + List.length (creatable cycle idx (Nat.min todo (url_count - idx))))%nat,
     {| ctl_env := ctl_env c;
        ctl_workers :=
          ctl_workers c
          + Z.of_nat (List.length
                        (creatable cycle idx (Nat.min todo (url_count - idx))));
        ctl_last_save := ctl_last_save c;
        ctl_trace :=
          ctl_trace c
          ++ map (fun i => Launched i (program_active (ctl_env c)))
               (creatable cycle idx (Nat.min todo (url_count - idx))) |}).
Proof.
  revert idx launched c. induction todo as [|todo IH]; intros idx launched c.
  - cbn [launch_loop Nat.min]. unfold creatable. cbn [seq filter map List.length].
    rewrite !Nat.add_0_r, app_nil_r, Z.add_0_r. destruct c. reflexivity.
  - cbn [launch_loop].
    destruct (Nat.ltb_spec idx url_count) as [Hlt|Hge]; cbn [negb].
    2:{ replace (url_count - idx)%nat with O by lia.
        rewrite Nat.min_0_r. unfold creatable.
        cbn [seq filter map List.length].
        rewrite !Nat.add_0_r, app_nil_r, Z.add_0_r. destruct c. reflexivity. }
    replace (Nat.min (S todo) (url_count - idx))
      with (1 + Nat.min todo (url_count - S idx))%nat by lia.
    rewrite creatable_app. rewrite Nat.add_1_r.
    replace (idx + (1 + Nat.min todo (url_count - S idx)))%nat
      with (S idx + Nat.min todo (url_count - S idx))%nat by lia.
    unfold creatable at 1 3 5. cbn [seq filter].
    destruct (spawn cycle idx); rewrite IH;
      cbn [emit with_workers ctl_env ctl_workers ctl_last_save ctl_trace
           app List.length map];
      f_equal; try (f_equal; lia); f_equal; try lia.
    rewrite <- app_assoc. reflexivity.
Qed.

(** The traces in which no more than [CONCURRENT_DOWNLOADS] workers are
    ever created and not yet joined. *)
Lemma pending_bounded_batch (evs : list event) :
  (launches evs <= Z.to_nat CONCURRENT_DOWNLOADS)%nat ->
  forall before after,
    evs = before ++ after ->
    (launches before <= joins before + Z.to_nat CONCURRENT_DOWNLOADS)%nat.
Proof.
  intros H before after ->. rewrite launches_app in H. lia.
Qed.

Lemma pending_bounded_app (evs1 evs2 : list event) :
  launches evs1 = joins evs1 ->
  (forall before after,
     evs1 = before ++ after ->
     (launches before <= joins before + Z.to_nat CONCURRENT_DOWNLOADS)%nat) ->
  (forall before after,
     evs2 = before ++ after ->
     (launches before <= joins before + Z.to_nat CONCURRENT_DOWNLOADS)%nat) ->
  forall before after,
    evs1 ++ evs2 = before ++ after ->
    (launches before <= joins before + Z.to_nat CONCURRENT_DOWNLOADS)%nat.
Proof.
  intros Hbal H1 H2 before after Heq.
  apply app_eq_app in Heq. destruct Heq as [l [[He1 He2]|[He1 He2]]].
  - apply (H1 before l). exact He1.
  - rewrite He1, launches_app, joins_app.
    specialize (H2 l after He2). lia.
Qed.

Lemma batch_loop_order (fuel cycle idx : nat) (c : Controller)
    (idx' : nat) (c' : Controller) :
  (idx <= url_count)%nat ->
  batch_loop fuel cycle idx c = Some (idx', c') ->
  exists evs,
    ctl_trace c' = ctl_trace c ++ evs
    /\ (idx <= idx' <= url_count)%nat
    /\ launched_indices evs = creatable cycle idx (idx' - idx)
    /\ launches evs = joins evs
    /\ (forall before after,
          evs = before ++ after ->
          (launches before <= joins before + Z.to_nat CONCURRENT_DOWNLOADS)%nat)
    /\ (active_loads (ctl_env c) = None ->
        idx' = url_count /\ active_loads (ctl_env c') = None)
    /\ (exists flags, evs = batches_from cycle idx flags).
Proof.
  revert idx c. induction fuel as [|fuel IH]; intros idx c Hidx; [discriminate|].
  cbn [batch_loop].
  assert (Hnone : forall c0 : Controller,
            exists evs,
              ctl_trace c0 = ctl_trace c0 ++ evs
              /\ (idx <= idx <= url_count)%nat
              /\ launched_indices evs = creatable cycle idx (idx - idx)
              /\ launches evs = joins evs
              /\ (forall before after,
                    evs = before ++ after ->
                    (launches before
                     <= joins before + Z.to_nat CONCURRENT_DOWNLOADS)%nat)
              /\ (exists flags, evs = batches_from cycle idx flags)).
  { intro c0. exists []. rewrite app_nil_r, Nat.sub_diag.
    split; [reflexivity|]. split; [lia|]. split; [reflexivity|].
    split; [reflexivity|]. split; [|exists []; reflexivity].
    intros before after H. symmetry in H. apply app_eq_nil in H.
    destruct H as [-> _]. cbn. lia. }
  destruct (Nat.ltb_spec idx url_count) as [Hlt|Hge]; cbn [negb].
  2:{ intro H. injection H as <- <-.
      destruct (Hnone c) as (evs & H1 & H2 & H3 & H4 & H5 & H6).
      exists evs. split; [exact H1|]. split; [lia|]. split; [exact H3|].
      split; [exact H4|]. split; [exact H5|]. split; [|exact H6].
      intro Hn. split; [lia|exact Hn]. }
  destruct (load_program_active (ctl_env c)) as [running e1] eqn:Hload.
  destruct running; cbn [negb].
  2:{ intro H. injection H as <- <-.
      destruct (Hnone (with_env c e1)) as (evs & H1 & H2 & H3 & H4 & H5 & H6).
      exists evs. cbn [with_env ctl_trace ctl_env] in *.
      split; [exact H1|]. split; [lia|]. split; [exact H3|].
      split; [exact H4|]. split; [exact H5|]. split; [|exact H6].
      intro Hn. rewrite (load_without_request _ Hn) in Hload. discriminate. }
  set (todo := Nat.min (Z.to_nat CONCURRENT_DOWNLOADS) (url_count - idx)).
  rewrite launch_loop_exact, join_loop_spec.
  cbn [with_env ctl_env ctl_workers ctl_last_save ctl_trace Nat.add].
  replace (Nat.min todo (url_count - idx)) with todo by (subst todo; lia).
  set (started := creatable cycle idx todo).
  set (block := map (fun i => Launched i (program_active e1)) started
                ++ repeat Joined (List.length started)).
  assert (Hblock : launches block = List.length started
                   /\ joins block = List.length started).
  { subst block. rewrite launches_app, joins_app.
    destruct (launches_launched started (program_active e1)) as [-> ->].
    destruct (joins_of_joined (List.length started)) as (-> & -> & _).
    split; lia. }
  destruct Hblock as [Hl Hj].
  assert (Hstarted : (List.length started <= Z.to_nat CONCURRENT_DOWNLOADS)%nat).
  { pose proof (creatable_length cycle idx todo). subst started todo. lia. }
  assert (Hpos : (0 < todo)%nat).
  { subst todo. assert (0 < Z.to_nat CONCURRENT_DOWNLOADS)%nat by (vm_compute; lia).
    lia. }
  destruct (load_program_active e1) as [running2 e2] eqn:Hload2.
  cbn [with_env ctl_env ctl_workers ctl_last_save ctl_trace].
  destruct running2; cbn [negb].
  - intro H. apply IH in H; [|subst todo; lia].
    destruct H as (evs & Htr & Hrange & Hidxs & Hbal & Hpend & Hnoreq & Hbatches).
    cbn [with_env ctl_trace ctl_env] in Htr, Hnoreq.
    exists (block ++ evs).
    split; [rewrite Htr; subst block; rewrite <- !app_assoc; reflexivity|].
    split; [lia|].
    split.
    { rewrite launched_indices_app. subst block.
      rewrite launched_indices_app, launched_indices_launched,
        launched_indices_joined, app_nil_r, Hidxs.
      replace (idx' - idx)%nat with (todo + (idx' - (idx + todo)))%nat by lia.
      rewrite creatable_app. reflexivity. }
    split; [rewrite launches_app, joins_app; lia|].
    split.
    { apply pending_bounded_app; [lia| |exact Hpend].
      apply pending_bounded_batch. lia. }
    split.
    { intro Hn.
      assert (He1 : e1 = ctl_env c)
        by (rewrite (load_without_request _ Hn) in Hload; congruence).
      assert (He2 : e2 = e1)
        by (rewrite He1, (load_without_request _ Hn) in Hload2; congruence).
      apply Hnoreq. rewrite He2, He1. exact Hn. }
    destruct Hbatches as [flags Hflags].
    exists (program_active e1 :: flags). cbn [batches_from].
    fold todo. fold started. rewrite Hflags. subst block.
    rewrite <- app_assoc. reflexivity.
  - intro H. injection H as <- <-.
    cbn [ctl_trace ctl_env].
    exists block. split; [subst block; rewrite <- !app_assoc; reflexivity|].
    split; [subst todo; lia|].
    split.
    { subst block.
      rewrite launched_indices_app, launched_indices_launched,
        launched_indices_joined, app_nil_r.
      replace (idx + todo - idx)%nat with todo by lia. reflexivity. }
    split; [lia|].
    split; [apply pending_bounded_batch; lia|].
    split.
    { intro Hn. exfalso.
      assert (He1 : e1 = ctl_env c)
        by (rewrite (load_without_request _ Hn) in Hload; congruence).
      rewrite He1, (load_without_request _ Hn) in Hload2. discriminate. }
    exists [program_active e1]. cbn [batches_from].
    fold todo. fold started. subst block. rewrite app_nil_r. reflexivity.
Qed.

(** X16.  One cycle of the scheduler.  The batches of a cycle create the
    workers of the URLs [0 .. n - 1] of the catalogue whose task and
    thread can be had, each once and in the order of the catalogue, where
    [n] is the whole catalogue unless a termination request ends the
    cycle early; never more than 20 workers, fewer than the 50 handles of
    the [workers] array, are created and not yet joined; and every worker
    created is joined before the next batch: the trace of the cycle is a
    run of batches, each the creation of the workers of its at most 20
    URLs followed by one join for each of them, and the creations of the
    next batch come after the last of these joins. *)
Theorem cycle_visits_urls_in_order (cycle : nat) (c : Controller) :
  exists visited c' evs,
    batch_loop (S url_count) cycle 0 c = Some (visited, c')
    /\ ctl_trace c' = ctl_trace c ++ evs
    /\ (visited <= url_count)%nat
    /\ launched_indices evs = creatable cycle 0 visited
    /\ launches evs = joins evs
    /\ (forall before after,
          evs = before ++ after ->
          (launches before <= joins before + Z.to_nat CONCURRENT_DOWNLOADS)%nat)
    /\ CONCURRENT_DOWNLOADS <= MAX_THREAD_COUNT
    /\ (active_loads (ctl_env c) = None -> visited = url_count)
    /\ (exists flags, evs = batches_from cycle 0 flags).
Proof.
  destruct (batch_loop_returns (S url_count) cycle 0 c) as [[visited c'] Hrun];
    [lia|].
  destruct (batch_loop_order (S url_count) cycle 0 c visited c'
              (Nat.le_0_l _) Hrun)
    as (evs & Htr & Hrange & Hidxs & Hbal & Hpend & Hnoreq & Hbatches).
  exists visited, c', evs. rewrite Nat.sub_0_r in Hidxs.
  split; [exact Hrun|]. split; [exact Htr|]. split; [lia|].
  split; [exact Hidxs|]. split; [exact Hbal|]. split; [exact Hpend|].
  split; [unfold CONCURRENT_DOWNLOADS, MAX_THREAD_COUNT; lia|].
  split; [intro Hn; apply Hnoreq, Hn|exact Hbatches].
Qed.
End LaunchOrder.

(** In a catalogue of three sources of which the second cannot be
    started, a cycle creates the workers of the first and the third. *)
Example cycle_skips_failed_start :
  option_map (fun r => launched_indices (ctl_trace (snd r)))
    (@batch_loop small_threads 4 1 0
       {| ctl_env := sample_env; ctl_workers := 0; ctl_last_save := 0;
          ctl_trace := [] |})
  = Some [0%nat; 2%nat].
Proof. reflexivity. Qed.

(** The same cycle as a run of batches: one batch of the three URLs,
    the creations first and the two joins after them. *)
Example cycle_joins_after_launches :
  option_map (fun r => ctl_trace (snd r))
    (@batch_loop small_threads 4 1 0
       {| ctl_env := sample_env; ctl_workers := 0; ctl_last_save := 0;
          ctl_trace := [] |})
  = Some (@batches_from small_threads 1 0 [true]).
Proof. reflexivity. Qed.

(** ** Running until a termination request *)

Section RunsForever.
Context {C : Collaborators} {Th : Threads} {F : Files}.

Lemma pause_loop_quiet (todo : nat) (c : Controller) :
  active_loads (ctl_env c) = None ->
  active_loads (ctl_env (pause_loop todo c)) = None.
Proof.
  revert c. induction todo as [|todo IH]; intros c Hn; [exact Hn|].
  cbn [pause_loop]. rewrite (load_without_request _ Hn). cbn [negb].
  apply IH. exact Hn.
Qed.

Lemma cycle_loop_goes_on (fuel cycle_number : nat) (c : Controller) :
  active_loads (ctl_env c) = None -> cycle_loop fuel cycle_number c = None.
Proof.
  revert cycle_number c. induction fuel as [|fuel IH]; intros cycle_number c Hn;
    [reflexivity|].
  cbn [cycle_loop]. rewrite (load_without_request _ Hn). cbn [negb].
  destruct (batch_loop_returns (S url_count) (S cycle_number) 0
              (with_env c (ctl_env c))) as [[idx c1] Hrun]; [lia|].
  rewrite Hrun.
  destruct (batch_loop_order _ _ _ _ _ _ (Nat.le_0_l _) Hrun)
    as (_ & _ & _ & _ & _ & _ & Hquiet & _).
  destruct (Hquiet Hn) as [_ Hn1].
  cbn [time_now].
  apply IH. apply pause_loop_quiet.
  destruct (_ >=? SAVE_INTERVAL); exact Hn1.
Qed.

(** X17.  [main] from start-up to exit.  When libcurl, the store or the
    mutexes cannot be set up it returns 1 at once: no worker is created
    and no checkpoint written.  Otherwise it runs cycle after cycle for
    as long as no termination request arrives: it does not return. *)
Theorem main_runs_until_signalled (fuel : nat) (e : Env)
    (curl_ok calloc_ok mutex_ok : bool) :
  (curl_ok && calloc_ok && mutex_ok = false ->
   main fuel curl_ok calloc_ok mutex_ok e = Some (1, []))
  /\ (active_loads e = None -> main fuel true true true e = None).
Proof.
  split.
  - unfold main. destruct curl_ok, calloc_ok, mutex_ok; cbn; intro H;
      try reflexivity; discriminate.
  - intro Hn. unfold main, autonomous_operation. cbn [negb time_now].
    rewrite cycle_loop_goes_on; [reflexivity|exact Hn].
Qed.
End RunsForever.

Lemma main_runs_until_signalled_witness :
  @main sample_collaborators sample_threads sample_files 3 true false true sample_env
  = Some (1, [])
  /\ @main sample_collaborators sample_threads sample_files 3 true true true sample_env
     = None.
Proof.
  split.
  - apply (@main_runs_until_signalled sample_collaborators sample_threads
             sample_files 3
             sample_env true false true). reflexivity.
  - apply (@main_runs_until_signalled sample_collaborators sample_threads
             sample_files 3
             sample_env true true true). reflexivity.
Defined.

(** ** After the signal handler *)

Section Interrupted.
Context {T : Target} {C : Collaborators} {Th : Threads} {F : Files}.

(** X18.  Once [handle_interrupt] has run, no entry point starts new
    work.  The extraction and [fetch_url_content] return with the state
    as it was, the latter with 0; a worker only checks out; the write
    function returns 0 and leaves the buffer alone, which aborts the
    transfer under way; the batch loop, the pause and the cycle loop of
    the scheduler are left at their next test. *)
Theorem interrupt_stops_new_work (e : Env) :
  (forall malloc_ok content content_length src w,
     extract_proxies_from_content malloc_ok content content_length src w
       (handle_interrupt e) = Some (w, handle_interrupt e))
  /\ (forall curl_ok malloc_ok batch_ok fresh t url w,
        fetch_url_content curl_ok malloc_ok batch_ok fresh t url w
          (handle_interrupt e) = Done (0, w, handle_interrupt e))
  /\ (forall task curl_ok malloc_ok batch_ok fresh t w,
        run_url_worker task curl_ok malloc_ok batch_ok fresh t w
          (handle_interrupt e)
        = Done (with_stats w (add_active_workers (stats w) (-1)),
                handle_interrupt e))
  /\ (forall chunk buffer realloc_ok reallocs final_result rest call,
        write_callback chunk 1 (strlen chunk) (Some buffer)
          (fst (load_program_active (handle_interrupt e))) realloc_ok
        = Returned 0 (Some buffer)
        /\ (0 < strlen chunk ->
            write_chunks reallocs final_result (chunk :: rest) call buffer
              (handle_interrupt e)
            = Done (CURLE_WRITE_ERROR, buffer, handle_interrupt e)))
  /\ (forall fuel cycle idx c,
        ctl_env c = handle_interrupt e ->
        batch_loop (S fuel) cycle idx c = Some (idx, c)
        /\ pause_loop 8 c = c
        /\ cycle_loop (S fuel) cycle c = Some c).
Proof.
  split; [|split; [|split; [|split]]].
  - intros malloc_ok content content_length src w.
    unfold extract_proxies_from_content.
    destruct content as [content|]; [|reflexivity].
    destruct (content_length =? 0); reflexivity.
  - reflexivity.
  - intros task curl_ok malloc_ok batch_ok fresh t w.
    destruct task as [[url|]|]; reflexivity.
  - intros chunk buffer realloc_ok reallocs final_result rest call.
    split; [reflexivity|]. intro Hpos.
    cbn [write_chunks handle_interrupt load_program_active active_loads].
    unfold write_callback. cbn [negb].
    replace (0 =? strlen chunk) with false
      by (symmetry; apply Z.eqb_neq; lia).
    reflexivity.
  - intros fuel cycle idx c Hc.
    assert (Hwith : with_env c (handle_interrupt e) = c).
    { rewrite <- Hc. destruct c. reflexivity. }
    split; [|split].
    + cbn [batch_loop]. rewrite Hc.
      cbn [handle_interrupt load_program_active active_loads negb].
      fold (handle_interrupt e). rewrite Hwith.
      destruct (idx <? url_count)%nat; reflexivity.
    + cbn [pause_loop]. rewrite Hc.
      cbn [handle_interrupt load_program_active active_loads negb].
      fold (handle_interrupt e). exact Hwith.
    + cbn [cycle_loop]. rewrite Hc.
      cbn [handle_interrupt load_program_active active_loads negb].
      fold (handle_interrupt e). rewrite Hwith. reflexivity.
Qed.

End Interrupted.

(** ** The worker thread *)

Lemma i32_small (z : Z) : - 2 ^ 31 <= z < 2 ^ 31 -> i32 z = z.
Proof. intro H. unfold i32. rewrite Z.mod_small; lia. Qed.

Section Worker.
Context {T : Target} {C : Collaborators}.

(** X19.  A worker checks out once.  On every path on which
    [url_worker] returns (a null task, a task without URL, the flag down,
    a fetch that fails or succeeds) it has decremented
    [stats.active_workers] by one, which takes back the increment the
    launch loop made for it; it has only appended to the store; and
    without a task to fetch it has touched nothing else. *)
Theorem worker_checks_out_once (task : option (option cstring))
    (curl_ok malloc_ok batch_ok : bool) (fresh : Z -> ascii) (t : Transfer)
    (w : World) (e : Env) (w' : World) (e' : Env) :
  run_url_worker task curl_ok malloc_ok batch_ok fresh t w e = Done (w', e') ->
  active_workers (stats w') = i32 (active_workers (stats w) - 1)
  /\ (forall before,
        - 2 ^ 31 <= before < 2 ^ 31 - 1 ->
        active_workers (stats w) = i32 (before + 1) ->
        active_workers (stats w') = before)
  /\ (exists added, proxy_storage w' = proxy_storage w ++ added)
  /\ (task = None \/ task = Some None \/ program_active e = false ->
      w' = with_stats w (add_active_workers (stats w) (-1))).
Proof.
  unfold run_url_worker.
  pose proof (load_result e) as Hload.
  destruct (load_program_active e) as [running e0]. cbn [fst] in Hload.
  intro H.
  assert (Hidle : forall e1,
            Done (with_stats w (add_active_workers (stats w) (-1)), e1)
            = Done (w', e') ->
            active_workers (stats w') = i32 (active_workers (stats w) - 1)
            /\ (exists added, proxy_storage w' = proxy_storage w ++ added)
            /\ w' = with_stats w (add_active_workers (stats w) (-1))).
  { intros e1 Heq. injection Heq as <- _.
    split; [reflexivity|]. split; [|reflexivity].
    exists []. rewrite app_nil_r. reflexivity. }
  assert (Hmain : active_workers (stats w') = i32 (active_workers (stats w) - 1)
                  /\ (exists added, proxy_storage w' = proxy_storage w ++ added)
                  /\ (task = None \/ task = Some None \/ program_active e = false ->
                      w' = with_stats w (add_active_workers (stats w) (-1)))).
  { destruct task as [[url|]|].
    - destruct running.
      + destruct (fetch_url_content _ _ _ _ _ _ _ _) as [[[s1 w1] e1]| |] eqn:Hf;
          try discriminate.
        injection H as <- _.
        cbn [with_stats stats proxy_storage add_active_workers active_workers].
        apply fetch_cases in Hf.
        assert (Hw1 : active_workers (stats w1) = active_workers (stats w)
                      /\ exists added, proxy_storage w1 = proxy_storage w ++ added).
        { destruct Hf as [(_ & _ & ->)|[(_ & _ & _ & ->)|[(_ & _ & _ & _ & ->)|
            [(_ & _ & _ & _ & -> & _)
            |(_ & _ & _ & _ & buffer & e2 & w2 & _ & _ & _ & Hx & ->)]]]];
            try (split; [reflexivity|exists []; rewrite app_nil_r; reflexivity]).
          pose proof (feed_traffic
                        {| feed_malloc_ok := batch_ok;
                           feed_content := buffer_bytes buffer;
                           feed_length := size buffer;
                           feed_source := url;
                           feed_env := e2 |} _ w2 e1 Hx)
            as (_ & _ & _ & _ & Hworkers & _).
          destruct (feed_appends_created
                      {| feed_malloc_ok := batch_ok;
                         feed_content := buffer_bytes buffer;
                         feed_length := size buffer;
                         feed_source := url;
                         feed_env := e2 |} _ w2 e1 Hx) as [added [Hadd _]].
          split; [exact Hworkers|]. exists added. exact Hadd. }
        destruct Hw1 as [Hworkers Happ]. rewrite Hworkers.
        split; [reflexivity|]. split; [exact Happ|].
        intros [Hc|[Hc|Hc]]; try discriminate. congruence.
      + destruct (Hidle _ H) as (H1 & H2 & H3). auto.
    - destruct (Hidle _ H) as (H1 & H2 & H3). auto.
    - destruct (Hidle _ H) as (H1 & H2 & H3). auto. }
  destruct Hmain as (H1 & H2 & H3).
  split; [exact H1|]. split; [|split; assumption].
  intros before Hrange Hbefore. rewrite H1, Hbefore.
  rewrite (i32_small (before + 1)) by lia.
  replace (before + 1 - 1) with before by lia. apply i32_small. lia.
Qed.
End Worker.

Lemma worker_checks_out_once_witness :
  active_workers
    (stats (with_stats fetched_world
              (add_active_workers (stats fetched_world) (-1))))
  = i32 (active_workers (stats initial_world) - 1).
Proof.
  destruct (@worker_checks_out_once x86_64_linux sample_collaborators
              (Some (Some (bytes "https://t.me/s/ProxyMTProto"))) true true true
              (fun _ => "x"%char) sample_transfer initial_world sample_env
              (with_stats fetched_world
                 (add_active_workers (stats fetched_world) (-1)))
              {| active_loads := None; time_calls := 4 |}) as [Hout _].
  - vm_compute. reflexivity.
  - exact Hout.
Defined.

(** ** The uptime line and the request disguise *)

(** X20.  For an uptime that is not negative [display_statistics] prints
    hours, minutes and seconds that add up to the uptime, with minutes
    and seconds below 60. *)
Theorem display_uptime_adds_up (now initialization_time : Z) :
  0 <= now - initialization_time < 3600 * 2 ^ 31 ->
  let '(hours, minutes, seconds) := display_uptime now initialization_time in
  hours * 3600 + minutes * 60 + seconds = now - initialization_time
  /\ 0 <= hours /\ 0 <= minutes < 60 /\ 0 <= seconds < 60.
Proof.
  intro H. unfold display_uptime. cbv zeta.
  set (uptime := now - initialization_time) in *.
  rewrite (Z.quot_div_nonneg uptime 3600), (Z.rem_mod_nonneg uptime 3600),
    (Z.rem_mod_nonneg uptime 60) by lia.
  pose proof (Z.mod_pos_bound uptime 3600 ltac:(lia)) as Hm.
  rewrite (Z.quot_div_nonneg (uptime mod 3600) 60) by lia.
  pose proof (Z.div_pos uptime 3600 ltac:(lia) ltac:(lia)) as Hh.
  assert (Hhi : uptime / 3600 < 2 ^ 31)
    by (apply Z.div_lt_upper_bound; lia).
  pose proof (Z.div_pos (uptime mod 3600) 60 ltac:(lia) ltac:(lia)) as Hmin.
  assert (Hminhi : uptime mod 3600 / 60 < 60)
    by (apply Z.div_lt_upper_bound; lia).
  pose proof (Z.mod_pos_bound uptime 60 ltac:(lia)) as Hs.
  rewrite !i32_small by lia.
  split; [|lia].
  pose proof (Z.div_mod uptime 3600 ltac:(lia)) as H1.
  pose proof (Z.div_mod (uptime mod 3600) 60 ltac:(lia)) as H2.
  assert (H3 : (uptime mod 3600) mod 60 = uptime mod 60).
  { apply Z.mod_mod_divide. exists 60. lia. }
  lia.
Qed.

Lemma display_uptime_adds_up_witness :
  display_uptime 1761003725 1761000000 = (1, 2, 5).
Proof.
  pose proof (display_uptime_adds_up 1761003725 1761000000) as H.
  destruct (display_uptime 1761003725 1761000000) as [[hours minutes] seconds].
  destruct H as (Hsum & Hh & Hm & Hs); [lia|].
  replace hours with 1 by lia. replace minutes with 2 by lia.
  replace seconds with 5 by lia. reflexivity.
Defined.

Lemma user_agents_filled :
  List.length USER_AGENTS = 30%nat
  /\ Forall (fun agent => agent <> []) USER_AGENTS.
Proof.
  split; [reflexivity|].
  assert (H : forallb (fun agent => match agent with [] => false | _ => true end)
                USER_AGENTS = true) by (vm_compute; reflexivity).
  rewrite forallb_forall in H. apply Forall_forall.
  intros agent Hin Hnil. specialize (H agent Hin). rewrite Hnil in H.
  discriminate.
Qed.

(** X21.  The request disguise stays in range.  Whatever [rand()]
    returns, [get_random_user_agent] returns one of the 30 strings of the
    pool, never a null entry; [random_delay] sleeps between 50 and 149
    milliseconds; and the launch loop pauses between 10 and 25
    milliseconds after each task. *)
Theorem request_disguise_in_range (rand : Z) :
  0 <= rand ->
  (exists agent,
     get_random_user_agent rand = Some agent
     /\ In agent USER_AGENTS /\ agent <> [])
  /\ 50000 <= random_delay rand <= 149000
  /\ 10000 <= launch_pause rand < 25000.
Proof.
  intro Hrand. split; [|split].
  - unfold get_random_user_agent. cbv zeta.
    pose proof (Z.rem_bound_pos rand USER_AGENT_POOL_SIZE Hrand
                  ltac:(unfold USER_AGENT_POOL_SIZE; lia)) as Hidx.
    replace (Z.rem rand USER_AGENT_POOL_SIZE <? 0) with false
      by (symmetry; apply Z.ltb_ge; lia).
    destruct user_agents_filled as [Hlen Hfilled].
    destruct (nth_error USER_AGENTS (Z.to_nat (Z.rem rand USER_AGENT_POOL_SIZE)))
      as [agent|] eqn:Hnth.
    + exists agent. apply nth_error_In in Hnth. split; [reflexivity|].
      split; [exact Hnth|]. rewrite Forall_forall in Hfilled. apply Hfilled, Hnth.
    + apply nth_error_None in Hnth. rewrite Hlen in Hnth.
      unfold USER_AGENT_POOL_SIZE in *. lia.
  - unfold random_delay, ROTATION_DELAY_MS.
    pose proof (Z.rem_bound_pos rand 100 Hrand ltac:(lia)). lia.
  - unfold launch_pause.
    pose proof (Z.rem_bound_pos rand 15000 Hrand ltac:(lia)). lia.
Qed.

Lemma request_disguise_in_range_witness :
  50000 <= random_delay 2147483647 <= 149000.
Proof.
  apply (request_disguise_in_range 2147483647). lia.
Defined.

(** ** What a merge adds *)

Section MergeAdds.
Context {T : Target} {C : Collaborators}.

Lemma merge_loop_room (discovered storage : list ProxyRecord)
    (added_count : Z) (s : SystemStatistics) :
  Z.of_nat (List.length storage) + Z.of_nat (List.length discovered)
  <= PROXY_CAPACITY ->
  incl (hashes discovered)
    (hashes (fst (fst (merge_loop discovered storage added_count s)))).
Proof.
  revert storage added_count s.
  induction discovered as [|d rest IH]; intros storage added_count s Hroom;
    [apply incl_nil_l|].
  cbn [List.length] in Hroom. cbn [merge_loop].
  replace (Z.of_nat (List.length storage) <? PROXY_CAPACITY) with true
    by (symmetry; apply Z.ltb_lt; lia).
  cbn [negb hashes map].
  destruct (duplicate_found storage (hash_value d)) eqn:Hdup.
  - apply incl_cons; [|apply IH; lia].
    destruct (merge_loop_appends rest storage added_count s) as [added [Heq _]].
    rewrite Heq, hashes_app. apply in_or_app. left.
    apply duplicate_found_spec, Hdup.
  - apply incl_cons; [|apply IH; rewrite length_app; cbn [List.length]; lia].
    destruct (merge_loop_appends rest (storage ++ [d]) (added_count + 1)
                (count_added s)) as [added [Heq _]].
    rewrite Heq, !hashes_app. apply in_or_app. left. apply in_or_app. right.
    left. reflexivity.
Qed.

(** X22.  A merge that cannot reach the ceiling adds exactly the hashes
    that are new: afterwards a hash is in the store when it was there
    before or is the hash of a record of the batch, and only then. *)
Theorem merge_adds_the_new_hashes (batch : list ProxyRecord) (w : World) (h : Z) :
  total_proxies w + Z.of_nat (List.length batch) <= PROXY_CAPACITY ->
  In h (hashes (proxy_storage (merge_batch batch w)))
  <-> In h (hashes (proxy_storage w)) \/ In h (hashes batch).
Proof.
  intro Hroom.
  destruct (merge_batch_appends batch w) as [added [Heq Hincl]].
  split.
  - rewrite Heq, hashes_app. intro H. apply in_app_or in H.
    destruct H as [H|H]; [left; exact H|right].
    unfold hashes in *. apply in_map_iff in H. destruct H as [r [<- Hr]].
    apply in_map, Hincl, Hr.
  - intros [H|H].
    + rewrite Heq, hashes_app. apply in_or_app. left. exact H.
    + rewrite merge_batch_storage. eapply merge_loop_room; [|exact H].
      exact Hroom.
Qed.
End MergeAdds.

Lemma merge_adds_the_new_hashes_witness :
  In (hash_value (@new_record x86_64_linux (bytes "5.6.7.8") (bytes "8443")
                    (bytes "0123456789abcdef0123456789abcdef")
                    (bytes "https://t.me/s/mtproxy") 1761000200 1761000201))
    (hashes (proxy_storage
               (merge_batch
                  [@new_record x86_64_linux (bytes "5.6.7.8") (bytes "8443")
                     (bytes "0123456789abcdef0123456789abcdef")
                     (bytes "https://t.me/s/mtproxy") 1761000200 1761000201]
                  initial_world))).
Proof.
  destruct (merge_adds_the_new_hashes
              [@new_record x86_64_linux (bytes "5.6.7.8") (bytes "8443")
                 (bytes "0123456789abcdef0123456789abcdef")
                 (bytes "https://t.me/s/mtproxy") 1761000200 1761000201]
              initial_world
              (hash_value (@new_record x86_64_linux (bytes "5.6.7.8")
                             (bytes "8443")
                             (bytes "0123456789abcdef0123456789abcdef")
                             (bytes "https://t.me/s/mtproxy")
                             1761000200 1761000201)))
    as [_ Hback].
  - vm_compute. intro H. discriminate.
  - apply Hback. right. left. reflexivity.
Defined.

(** ** The URL and the source of a stored record *)

Lemma firstn_past (a l : list ascii) (n : nat) :
  firstn (List.length a + n) (a ++ l) = a ++ firstn n l.
Proof. apply firstn_app_2. Qed.

Lemma snprintf_url_shape (sv pt sc : cstring) :
  strlen sv + strlen pt <= 479 ->
  snprintf_url sv pt sc
  = bytes "tg://proxy?server=" ++ sv ++ bytes "&port=" ++ pt
      ++ bytes "&secret=" ++ firstn (Z.to_nat (479 - strlen sv - strlen pt)) sc.
Proof.
  intro Hlen. unfold snprintf_url, proxy_url, strlen in *.
  replace 511%nat
    with (List.length (bytes "tg://proxy?server=")
          + (List.length sv
             + (List.length (bytes "&port=")
                + (List.length pt
                   + (List.length (bytes "&secret=")
                      + Z.to_nat (479 - Z.of_nat (List.length sv)
                                  - Z.of_nat (List.length pt)))))))%nat
    by (cbn [bytes list_ascii_of_string List.length]; lia).
  rewrite !firstn_past. reflexivity.
Qed.

Section Provenance.
Context {T : Target} {C : Collaborators}.

(** X23.  The URL of a stored record always carries the whole server and
    the whole port, and of the secret as many characters as the 511 bytes
    of the field leave room for, which is never fewer than 211. *)
Theorem stored_url_carries_server_and_port (w : World) :
  operates w ->
  Forall (fun r =>
            connection_url r
            = bytes "tg://proxy?server=" ++ server r ++ bytes "&port=" ++ port r
                ++ bytes "&secret="
                ++ firstn (Z.to_nat (479 - strlen (server r) - strlen (port r)))
                     (secret r)
            /\ 211 <= 479 - strlen (server r) - strlen (port r))
    (proxy_storage w).
Proof.
  intro Hw.
  pose proof (operates_derived w Hw) as Hderived.
  pose proof (operates_all created_fields process_match_created w Hw) as Hcreated.
  rewrite Forall_forall in *. intros r Hr.
  destruct (Hderived r Hr) as [_ Hurl].
  destruct (Hcreated r Hr) as (Hvalid & _).
  apply validate_proxy_iff_checked in Hvalid.
  destruct Hvalid as (Hs & Hp & _).
  split; [|lia]. rewrite Hurl. apply snprintf_url_shape. lia.
Qed.

Lemma process_match_source (content : list ascii) (src : cstring)
    (mv : nat -> Z) (d : list ProxyRecord) (e : Env) :
  Forall (fun r => source r = firstn 255 src) d ->
  Forall (fun r => source r = firstn 255 src)
    (fst (process_match content src mv d e)).
Proof.
  intro Hd.
  destruct (process_match_cases content src mv d e) as [e' [_ H]].
  destruct H as [H|(sv & pt & sc & t1 & t2 & H & _)];
    rewrite H; cbn [fst]; [exact Hd|].
  apply Forall_app. split; [exact Hd|].
  constructor; [reflexivity|constructor].
Qed.

Lemma feed_appends_source (f : Feed) (w w' : World) (e' : Env) :
  feed f w = Some (w', e') ->
  exists added,
    proxy_storage w' = proxy_storage w ++ added
    /\ Forall (fun r => source r = firstn 255 (feed_source f)) added.
Proof.
  intro H. apply feed_step in H.
  destruct H as [[-> _]|(content & discovered & _ & _ & Hloop & ->)].
  - exists []. rewrite app_nil_r. split; [reflexivity|constructor].
  - destruct (merge_batch_appends discovered w) as [added [Heq Hincl]].
    exists added. split; [exact Heq|].
    assert (Hall : Forall (fun r => source r = firstn 255 (feed_source f))
                     discovered).
    { eapply (pattern_loop_keeps content (feed_length f) (feed_source f)
                (Forall (fun r => source r = firstn 255 (feed_source f))));
        [|constructor|exact Hloop].
      intros mv d e0. apply process_match_source. }
    rewrite Forall_forall in *. intros r Hr. apply Hall, Hincl, Hr.
Qed.

(** X24.  The records a call of [fetch_url_content] adds to the store
    carry the first 255 bytes of the URL fetched as their source; the
    records stored before stay as they are and where they are. *)
Theorem fetched_records_carry_their_source (curl_ok malloc_ok batch_ok : bool)
    (fresh : Z -> ascii) (t : Transfer) (url : cstring) (w : World) (e : Env)
    (success : Z) (w' : World) (e' : Env) :
  fetch_url_content curl_ok malloc_ok batch_ok fresh t url w e
  = Done (success, w', e') ->
  exists added,
    proxy_storage w' = proxy_storage w ++ added
    /\ Forall (fun r => source r = firstn 255 url) added.
Proof.
  intro H. apply fetch_cases in H.
  destruct H as [(_ & _ & ->)|[(_ & _ & _ & ->)|[(_ & _ & _ & _ & ->)|
    [(_ & _ & _ & _ & -> & _)
    |(_ & _ & _ & _ & buffer & e1 & w2 & _ & _ & _ & Hx & ->)]]]];
    try (exists []; rewrite app_nil_r; split; [reflexivity|constructor]).
  apply (feed_appends_source
           {| feed_malloc_ok := batch_ok;
              feed_content := buffer_bytes buffer;
              feed_length := size buffer;
              feed_source := url;
              feed_env := e1 |}) in Hx.
  exact Hx.
Qed.
End Provenance.

Lemma stored_url_carries_server_and_port_witness :
  Forall (fun r =>
            connection_url r
            = bytes "tg://proxy?server=" ++ server r ++ bytes "&port=" ++ port r
                ++ bytes "&secret="
                ++ firstn (Z.to_nat (479 - strlen (server r) - strlen (port r)))
                     (secret r)
            /\ 211 <= 479 - strlen (server r) - strlen (port r))
    (proxy_storage long_secret_world).
Proof.
  apply (@stored_url_carries_server_and_port x86_64_linux
           long_secret_collaborators long_secret_world).
  apply (@operates_extract x86_64_linux long_secret_collaborators
           initial_world long_secret_feed long_secret_world
           {| active_loads := None; time_calls := 2 |}).
  - apply operates_initial.
  - vm_compute. reflexivity.
Defined.

Lemma fetched_records_carry_their_source_witness :
  exists added,
    proxy_storage fetched_world = proxy_storage initial_world ++ added
    /\ Forall (fun r => source r = firstn 255 (bytes "https://t.me/s/ProxyMTProto"))
         added.
Proof.
  apply (@fetched_records_carry_their_source x86_64_linux sample_collaborators
           true true true (fun _ => "x"%char) sample_transfer
           (bytes "https://t.me/s/ProxyMTProto") initial_world sample_env
           1 fetched_world {| active_loads := None; time_calls := 4 |}).
  vm_compute. reflexivity.
Defined.
(** ** The checkpoint of the program as it calls PCRE2 (C4) *)

Section Refused.
Context {T : Target} {C : Collaborators}.




End Refused.


